(** * Cinema seat reservations: hold, confirm, expire

    A shallow embedding of the reservation coordinator
    ([ReservationsService]: [createReservation], [confirmPayment],
    [expireReservation]), of the retry helper ([retryWithBackoff]) and of
    the batching expiration consumer ([BatchProcessor],
    [ReservationsConsumer.handleReservationExpire]).

    The relational store is a record of four tables, each a list of rows in
    insertion order.  A row has the columns the operations read or write;
    the columns the store maintains by itself ([updatedAt], which it rewrites
    at every save of a changed row, the [createdAt] of seats, the [isActive]
    and the timestamps of sessions) are not columns of the records, and
    nothing below speaks of them.  A query that has no [ORDER BY] is read in
    table order.  A transaction works on a copy of the store: commit
    publishes the copy, rollback drops it.  Clock readings are arguments of
    the operations.  Domain events are published after commit and touch no
    table; they are left out.  The delayed-expiration message has a section
    of its own. *)

From Stdlib Require Import List String ZArith Bool Arith Lia Permutation.
From Stdlib Require Import DecimalString.
Import ListNotations.

Set Implicit Arguments.

(** ** Entities *)

(** Primary keys are generated UUIDs.  They are modelled by numbers; a new
    key is one more than the largest key of its table. *)
Definition Id := nat.

(** Timestamps in milliseconds, the resolution of a JavaScript [Date]. *)
Definition Date := Z.
Bind Scope Z_scope with Date.

Inductive SeatStatus := AVAILABLE | RESERVED | SOLD.

Inductive ReservationStatus := PENDING | CONFIRMED | EXPIRED | CANCELLED.

Definition SeatStatus_eqb (a b : SeatStatus) : bool :=
  match a, b with
  | AVAILABLE, AVAILABLE | RESERVED, RESERVED | SOLD, SOLD => true
  | _, _ => false
  end.

Definition ReservationStatus_eqb (a b : ReservationStatus) : bool :=
  match a, b with
  | PENDING, PENDING | CONFIRMED, CONFIRMED
  | EXPIRED, EXPIRED | CANCELLED, CANCELLED => true
  | _, _ => false
  end.

Record Session := mkSession {
  session_id : Id;
  movieName : string;
  startTime : Date;
  roomNumber : string;
  ticketPrice : Z  (* decimal(10,2), in cents *)
}.

Record Seat := mkSeat {
  seat_id : Id;
  seatNumber : string;
  row : string;
  seat_status : SeatStatus;
  sessionId : Id
}.

Record Reservation := mkReservation {
  res_id : Id;
  seatId : Id;
  userId : string;
  res_status : ReservationStatus;
  expiresAt : Date;
  res_createdAt : Date
}.

Record Sale := mkSale {
  sale_id : Id;
  sale_seatId : Id;
  sale_userId : string;
  reservationId : Id;
  amount : Z;
  paidAt : Date;
  sale_createdAt : Date
}.

Record Store := mkStore {
  sessions : list Session;
  seats : list Seat;
  reservations : list Reservation;
  sales : list Sale
}.

Definition set_seat_status (st : SeatStatus) (x : Seat) : Seat :=
  mkSeat (seat_id x) (seatNumber x) (row x) st (sessionId x).

Definition set_res_status (st : ReservationStatus) (r : Reservation) : Reservation :=
  mkReservation (res_id r) (seatId r) (userId r) st (expiresAt r) (res_createdAt r).

(** ** Exceptions *)

(** The message templates of the exceptions the service throws. *)
Inductive Message :=
| SessionNotFound (session : Id)
| SeatNotFound (seat : string) (session : Id)
| SeatNotAvailable (seat : string) (current : SeatStatus)
| ReservationNotFound (reservation : Id)
| ConfirmedButSaleMissing
| ReservationNotPending (current : ReservationStatus)
| ReservationHasExpired
| PrimarySaleNotFound
| SaleNotFoundAfterCreation.

(** [TransactionNotStartedError] is what [rollbackTransaction] throws when
    the query runner has no open transaction. *)
Inductive Exn :=
| NotFoundException (m : Message)
| BadRequestException (m : Message)
| Error (m : Message)
| TypeError
| TransactionNotStartedError.

(** The error kinds of the specification's taxonomy.  The code has no such
    kinds: it throws exceptions of the classes above.  [kind_of] reads the
    names of the taxonomy onto them by class and message, and serves only
    to name the answers. *)
Inductive ErrorKind :=
| NOT_FOUND | CONFLICT | INVALID_REQUEST | INVALID_STATE | INTERNAL.

Definition kind_of (e : Exn) : ErrorKind :=
  match e with
  | NotFoundException _ => NOT_FOUND
  | BadRequestException ConfirmedButSaleMissing => INVALID_STATE
  | BadRequestException _ => CONFLICT
  | Error _ => INTERNAL
  | TypeError => INTERNAL
  | TransactionNotStartedError => INTERNAL
  end.

(** ** The store gateway *)

(** A table is the list of its rows; [lookup] is a [findOne] by a numeric
    column, [update] a [save] of a loaded row (an update by primary key). *)
Section Table.

Variable A : Type.
Variable key : A -> Id.

Definition lookup (k : Id) (l : list A) : option A :=
  find (fun x => key x =? k) l.

Definition update (a : A) (l : list A) : list A :=
  map (fun x => if key x =? key a then a else x) l.

End Table.

Definition newId (ids : list Id) : Id := S (list_max ids).

Definition findSession (s : Store) (id : Id) : option Session :=
  lookup session_id id (sessions s).

Definition findSeat (s : Store) (id : Id) : option Seat :=
  lookup seat_id id (seats s).

(** [SELECT ... FROM seats WHERE sessionId = ? AND seatNumber = ? FOR UPDATE]
    with [getOne()].  The entity has no unique constraint on the pair, and
    the query no [ORDER BY]: if several seats of the session carry the
    label, which one is returned is the store's choice; here it is the first
    in table order.  With pairwise distinct labels in a session at most one
    row matches. *)
Definition lockSeat (s : Store) (session : Id) (label : string) : option Seat :=
  find (fun x => (sessionId x =? session) && (seatNumber x =? label)%string)
       (seats s).

(** [manager.save(Seat, seat)] on a loaded row. *)
Definition saveSeat (seat : Seat) (s : Store) : Store :=
  mkStore (sessions s) (update seat_id seat (seats s))
          (reservations s) (sales s).

(** [manager.save(Reservation, res)] on a loaded row. *)
Definition saveReservation (r : Reservation) (s : Store) : Store :=
  mkStore (sessions s) (seats s)
          (update res_id r (reservations s)) (sales s).

(** [manager.save] of a created reservation: insert with a generated key. *)
Definition insertReservation (seat : Id) (user : string)
    (st : ReservationStatus) (expires created : Date) (s : Store)
  : Reservation * Store :=
  let r := mkReservation (newId (map res_id (reservations s)))
                         seat user st expires created in
  (r, mkStore (sessions s) (seats s) (reservations s ++ [r]) (sales s)).

Definition insertSale (seat : Id) (user : string) (res : Id) (amt : Z)
    (paid created : Date) (s : Store) : Sale * Store :=
  let x := mkSale (newId (map sale_id (sales s))) seat user res amt paid created in
  (x, mkStore (sessions s) (seats s) (reservations s) (sales s ++ [x])).

(** ** Create hold *)

Record CreateReservationDto := mkCreateReservationDto {
  dto_sessionId : Id;
  seatNumbers : list string;
  dto_userId : string
}.

Record ReservationResponseDto := mkReservationResponseDto {
  rr_id : Id;
  rr_seatId : Id;
  rr_seatNumber : string;
  rr_userId : string;
  rr_status : ReservationStatus;
  rr_expiresAt : Date;
  rr_createdAt : Date
}.

(** [[...seatNumbers].sort()]: ascending by UTF-16 code units.  The strings
    here are sequences of one-byte characters, compared byte by byte; the
    two orders agree on labels of such characters. *)
Fixpoint insert_sorted (x : string) (l : list string) : list string :=
  match l with
  | [] => [x]
  | y :: l' => if String.leb x y then x :: l else y :: insert_sorted x l'
  end.

Fixpoint sort (l : list string) : list string :=
  match l with
  | [] => []
  | x :: l' => insert_sorted x (sort l')
  end.

Section Service.

(** [this.reservationTtl], in seconds. *)
Variable reservationTtl : Z.

(** The body of the [for (const seatNumber of sortedSeatNumbers)] loop of
    [createReservation], inside the open transaction [w]. *)
Fixpoint reserveSeats (session : Session) (user : string)
    (expires dbNow : Date) (labels : list string)
    (acc : list ReservationResponseDto) (w : Store)
  : Exn + (list ReservationResponseDto * Store) :=
  match labels with
  | [] => inr (acc, w)
  | label :: rest =>
    match lockSeat w (session_id session) label with
    | None => inl (NotFoundException (SeatNotFound label (session_id session)))
    | Some seat =>
      if negb (SeatStatus_eqb (seat_status seat) AVAILABLE) then
        inl (BadRequestException (SeatNotAvailable label (seat_status seat)))
      else
        let seat' := set_seat_status RESERVED seat in
        let w1 := saveSeat seat' w in
        let (saved, w2) :=
          insertReservation (seat_id seat') user PENDING expires dbNow w1 in
        reserveSeats session user expires dbNow rest
          (acc ++ [mkReservationResponseDto (res_id saved) (seat_id seat')
                     (seatNumber seat') (userId saved) (res_status saved)
                     (expiresAt saved) (res_createdAt saved)])
          w2
    end
  end.

(** [createReservation]: [now] is the reading of [Date.now()], [dbNow] the
    store's clock for [createdAt].  The result pairs the committed store
    with the returned list or the exception thrown. *)
Definition createReservation (now dbNow : Date) (dto : CreateReservationDto)
    (s : Store) : Store * (Exn + list ReservationResponseDto) :=
  let sortedSeatNumbers := sort (seatNumbers dto) in
  let body :=
    match findSession s (dto_sessionId dto) with
    | None => inl (NotFoundException (SessionNotFound (dto_sessionId dto)))
    | Some session =>
      let expires := (now + reservationTtl * 1000)%Z in
      reserveSeats session (dto_userId dto) expires dbNow sortedSeatNumbers [] s
    end in
  match body with
  | inr (reservations, w) => (w, inr reservations)   (* commitTransaction *)
  | inl error => (s, inl error)                      (* rollbackTransaction *)
  end.

(** ** Confirm payment *)

Record ConfirmPaymentDto := mkConfirmPaymentDto {
  cp_reservationId : Id;
  cp_userId : string
}.

Record SaleResponseDto := mkSaleResponseDto {
  sr_id : Id;
  sr_seatId : Id;
  sr_seatNumber : string;
  sr_userId : string;
  sr_reservationId : Id;
  sr_amount : Z;
  sr_movieName : string;
  sr_sessionStartTime : Date;
  sr_roomNumber : string;
  sr_paidAt : Date;
  sr_createdAt : Date
}.

(** A reservation loaded with [innerJoinAndSelect('reservation.seat')] and
    [innerJoinAndSelect('seat.session')]: rows without a seat or without a
    session drop out of the result. *)
Definition Loaded : Type := Reservation * Seat * Session.

Definition joinSeat (s : Store) (r : Reservation) : list (Reservation * Seat) :=
  match findSeat s (seatId r) with
  | Some seat => [(r, seat)]
  | None => []
  end.

Definition joinSeatSession (s : Store) (r : Reservation) : list Loaded :=
  match findSeat s (seatId r) with
  | Some seat =>
    match findSession s (sessionId seat) with
    | Some session => [(r, seat, session)]
    | None => []
    end
  | None => []
  end.

(** The target reservation, constrained to the caller. *)
Definition lockReservation (s : Store) (id : Id) (user : string) : option Loaded :=
  find (fun j : Loaded =>
          let '(r, _, _) := j in (res_id r =? id) && (userId r =? user)%string)
       (flat_map (joinSeatSession s) (reservations s)).

(** The booking group: same user, same session, same [expiresAt], still
    [PENDING]. *)
Definition lockRelated (s : Store) (user : string) (session : Id)
    (expires : Date) : list Loaded :=
  filter (fun j : Loaded =>
            let '(r, seat, _) := j in
            (userId r =? user)%string && (sessionId seat =? session)
            && (expiresAt r =? expires)%Z
            && ReservationStatus_eqb (res_status r) PENDING)
         (flat_map (joinSeatSession s) (reservations s)).

Definition findSaleByReservation (l : list Sale) (res : Id) : option Sale :=
  lookup reservationId res l.

Definition findSaleById (l : list Sale) (id : Id) : option Sale :=
  lookup sale_id id l.

(** The response built from a sale loaded with [relations: seat,
    seat.session]; reading through a missing relation is a [TypeError]. *)
Definition saleResponse (s : Store) (x : Sale) : Exn + SaleResponseDto :=
  match findSeat s (sale_seatId x) with
  | None => inl TypeError
  | Some seat =>
    match findSession s (sessionId seat) with
    | None => inl TypeError
    | Some session =>
      inr (mkSaleResponseDto (sale_id x) (sale_seatId x) (seatNumber seat)
             (sale_userId x) (reservationId x) (amount x) (movieName session)
             (startTime session) (roomNumber session) (paidAt x)
             (sale_createdAt x))
    end
  end.

(** What the caller gets from the code that follows [commitTransaction]
    inside the [try] block.  An exception thrown there reaches the [catch]
    block, whose [rollbackTransaction] finds no open transaction and throws
    [TransactionNotStartedError]: that error, not the one thrown first, is
    what the call rejects with.  The committed store stands. *)
Definition afterCommit {T : Type} (r : Exn + T) : Exn + T :=
  match r with
  | inl _ => inl TransactionNotStartedError
  | inr v => inr v
  end.

(** The [for (const res of relatedReservations)] loop. *)
Fixpoint confirmAll (paid dbNow : Date) (group : list Loaded)
    (acc : list Sale) (w : Store) : list Sale * Store :=
  match group with
  | [] => (acc, w)
  | (res, seat, session) :: rest =>
    let w1 := saveReservation (set_res_status CONFIRMED res) w in
    let w2 := saveSeat (set_seat_status SOLD seat) w1 in
    let (savedSale, w3) :=
      insertSale (seat_id seat) (userId res) (res_id res)
                 (ticketPrice session) paid dbNow w2 in
    confirmAll paid dbNow rest (acc ++ [savedSale]) w3
  end.

(** [confirmPayment]: [now] is the clock reading of the expiry test, [paid]
    the one taken for [paidAt], [dbNow] the store's clock.  The exceptions
    thrown before [commitTransaction] roll the transaction back and reach
    the caller; the ones thrown after it go through [afterCommit]. *)
Definition confirmPayment (now paid dbNow : Date) (dto : ConfirmPaymentDto)
    (s : Store) : Store * (Exn + SaleResponseDto) :=
  match lockReservation s (cp_reservationId dto) (cp_userId dto) with
  | None =>
    (s, inl (NotFoundException (ReservationNotFound (cp_reservationId dto))))
  | Some (reservation, seat, _) =>
    if ReservationStatus_eqb (res_status reservation) CONFIRMED then
      (* commitTransaction, nothing written *)
      match findSaleByReservation (sales s) (res_id reservation) with
      | None =>
        (s, afterCommit (inl (BadRequestException ConfirmedButSaleMissing)))
      | Some existingSale => (s, afterCommit (saleResponse s existingSale))
      end
    else if negb (ReservationStatus_eqb (res_status reservation) PENDING) then
      (s, inl (BadRequestException
                 (ReservationNotPending (res_status reservation))))
    else if (expiresAt reservation <? now)%Z then
      (s, inl (BadRequestException ReservationHasExpired))
    else
      let relatedReservations :=
        lockRelated s (userId reservation) (sessionId seat)
                    (expiresAt reservation) in
      let (newSales, w) := confirmAll paid dbNow relatedReservations [] s in
      (* commitTransaction *)
      match findSaleByReservation newSales (res_id reservation) with
      | None => (w, afterCommit (inl (Error PrimarySaleNotFound)))
      | Some primarySale =>
        match findSaleById (sales w) (sale_id primarySale) with
        | None => (w, afterCommit (inl (Error SaleNotFoundAfterCreation)))
        | Some saleWithRelations =>
          (w, afterCommit (saleResponse w saleWithRelations))
        end
      end
  end.

(** ** Expire *)

Definition lockReservationWithSeat (s : Store) (id : Id)
  : option (Reservation * Seat) :=
  find (fun j : Reservation * Seat => res_id (fst j) =? id)
       (flat_map (joinSeat s) (reservations s)).

(** [expireReservation] resolves on every path of the model; the result is
    the committed store. *)
Definition expireReservation (now : Date) (id : Id) (s : Store) : Store :=
  match lockReservationWithSeat s id with
  | None => s
  | Some (reservation, seat) =>
    if negb (ReservationStatus_eqb (res_status reservation) PENDING) then s
    else if (now <=? expiresAt reservation)%Z then s
    else
      let reservation' := set_res_status EXPIRED reservation in
      let seat' := set_seat_status AVAILABLE seat in
      saveReservation reservation' (saveSeat seat' s)
  end.

End Service.

(** ** Retry with exponential backoff *)

Module RetryUtil.

(** [RetryOptions]: every field is optional; a field that is [None] is a
    key the options object does not have, and a field that is given holds a
    number (or, for [retryableErrors], an array).  [onRetry] is the default
    one, which does nothing: the run below records the data it is called
    with. *)
Record RetryOptions (C : Type) := mkRetryOptions {
  maxAttempts : option nat;
  initialDelayMs : option Z;
  maxDelayMs : option Z;
  backoffMultiplier : option Z;
  retryableErrors : option (list C)
}.

Record RequiredRetryOptions (C : Type) := mkRequired {
  r_maxAttempts : nat;
  r_initialDelayMs : Z;
  r_maxDelayMs : Z;
  r_backoffMultiplier : Z;
  r_retryableErrors : list C
}.

Definition defaultOptions (C : Type) : RequiredRetryOptions C :=
  mkRequired 3 100 5000 2 [].

Definition noOptions (C : Type) : RetryOptions C :=
  mkRetryOptions None None None None None.

Definition orDefault {A : Type} (o : option A) (d : A) : A :=
  match o with Some a => a | None => d end.

(** [{ ...defaultOptions, ...options }] *)
Definition withDefaults {C : Type} (options : RetryOptions C)
  : RequiredRetryOptions C :=
  let d := defaultOptions C in
  mkRequired (orDefault (maxAttempts options) (r_maxAttempts d))
             (orDefault (initialDelayMs options) (r_initialDelayMs d))
             (orDefault (maxDelayMs options) (r_maxDelayMs d))
             (orDefault (backoffMultiplier options) (r_backoffMultiplier d))
             (orDefault (retryableErrors options) (r_retryableErrors d)).

(** What a call of [retryWithBackoff] did: how often it invoked [fn], the
    delays it slept, and how it ended. [thrown None] is [throw undefined]. *)
Inductive Outcome (E T : Type) :=
| returned (v : T)
| thrown (e : option E).

Record Run (E T : Type) := mkRun {
  calls : nat;
  sleeps : list Z;
  outcome : Outcome E T
}.

Section Retry.

Variables E T C : Type.

(** [error instanceof ErrorClass] *)
Variable instanceOf : E -> C -> bool.

(** [error instanceof Error ? error : new Error(String(error))]: what [fn]
    rejected with if that is an [Error] object, and otherwise a new [Error]
    whose message is the value printed. *)
Variable asError : E -> E.

(** The result of the [k]-th invocation of [fn], counted from 1. *)
Variable fn : nat -> E + T.

Variable opts : RequiredRetryOptions C.

Definition isRetryable (e : E) : bool :=
  existsb (instanceOf e) (r_retryableErrors opts).

Definition delayMs (attempt : nat) : Z :=
  Z.min (r_initialDelayMs opts
         * r_backoffMultiplier opts ^ Z.of_nat (attempt - 1))
        (r_maxDelayMs opts).

(** The [for (attempt = 1; attempt <= maxAttempts; attempt++)] loop, with
    [remaining = maxAttempts + 1 - attempt] iterations to go. *)
Fixpoint attempts (remaining attempt : nat) (lastError : option E)
    (slept : list Z) : Run E T :=
  match remaining with
  | 0 => mkRun (attempt - 1) slept (thrown T lastError)
  | S remaining' =>
    match fn attempt with
    | inr v => mkRun attempt slept (returned E v)
    | inl error =>
      let e := asError error in
      if negb (List.length (r_retryableErrors opts) =? 0) && negb (isRetryable e)
      then mkRun attempt slept (thrown T (Some e))
      else if r_maxAttempts opts <=? attempt
      then mkRun attempt slept (thrown T (Some e))
      else attempts remaining' (S attempt) (Some e)
                    (slept ++ [delayMs attempt])
    end
  end.

End Retry.

Definition retryWithBackoff {E T C : Type} (instanceOf : E -> C -> bool)
    (asError : E -> E) (fn : nat -> E + T) (options : RetryOptions C)
  : Run E T :=
  let opts := withDefaults options in
  attempts instanceOf asError fn opts (r_maxAttempts opts) 1 None [].

(** The [@Retry(options)] method decorator. *)
Definition Retry {E T C A : Type} (instanceOf : E -> C -> bool)
    (asError : E -> E) (options : RetryOptions C)
    (originalMethod : A -> nat -> E + T)
  : A -> Run E T :=
  fun args => retryWithBackoff instanceOf asError (originalMethod args) options.

End RetryUtil.

(** ** Batched expiration consumer *)

Module Batch.

Inductive ChannelOp (M : Type) :=
| ack (message : M)
| nack (message : M) (allUpTo requeue : bool).

Record BatchMessage (D M : Type) := mkBatchMessage {
  data : D;
  message : M
}.

Record BatchProcessorOptions := mkBatchProcessorOptions {
  batchSize : nat;
  flushIntervalMs : Z
}.

Record BatchProcessor (D M : Type) := mkBatchProcessor {
  batch : list (BatchMessage D M);
  processing : bool;
  batchNumber : nat;
  options : BatchProcessorOptions
}.

Section Processor.

Variables D M W X : Type.

(** [processFn] runs against the world [W] behind it and either resolves
    or rejects with an [X]. *)
Variable processFn : list (BatchMessage D M) -> W -> W * (X + unit).

(** The processor, the world and the operations sent on the channel. *)
Definition State : Type := BatchProcessor D M * W * list (ChannelOp M).

Definition flush (st : State) : State :=
  let '(bp, w, chan) := st in
  if processing bp || (List.length (batch bp) =? 0) then st
  else
    let currentBatch := batch bp in
    let idle := mkBatchProcessor [] false (S (batchNumber bp)) (options bp) in
    match processFn currentBatch w with
    | (w', inr _) =>
      (idle, w', chan ++ map (fun item => ack (message item)) currentBatch)
    | (w', inl _) =>
      (idle, w',
       chan ++ map (fun item => nack (message item) false true) currentBatch)
    end.

Definition addMessage (d : D) (m : M) (st : State) : State :=
  let '(bp, w, chan) := st in
  let bp' := mkBatchProcessor (batch bp ++ [mkBatchMessage d m])
                              (processing bp) (batchNumber bp) (options bp) in
  if batchSize (options bp') <=? List.length (batch bp')
  then flush (bp', w, chan)
  else (bp', w, chan).

End Processor.

Section Consumer.

Variables M W X : Type.

(** [reservationsService.expireReservation], which may reject. *)
Variable expireReservation : Id -> W -> W * (X + unit).

(** [Promise.allSettled(items.map(item => expireReservation(...)))] *)
Fixpoint allSettled (items : list (BatchMessage Id M)) (w : W)
  : W * list (X + unit) :=
  match items with
  | [] => (w, [])
  | item :: rest =>
    let (w1, r) := expireReservation (data item) w in
    let (w2, rs) := allSettled rest w1 in
    (w2, r :: rs)
  end.

Definition isRejected (r : X + unit) : bool :=
  match r with inl _ => true | inr _ => false end.

(** The batch callback of [handleReservationExpire]; it rejects with the
    number of failures. *)
Definition processExpirations (items : list (BatchMessage Id M)) (w : W)
  : W * (nat + unit) :=
  let (w', results) := allSettled items w in
  let failed := List.length (filter isRejected results) in
  if 0 <? failed then (w', inl failed) else (w', inr tt).

Definition consumerOptions : BatchProcessorOptions :=
  mkBatchProcessorOptions 10 2000.

(** [handleReservationExpire]: the processor is created on the first
    message. *)
Definition handleReservationExpire (reservation : Id) (originalMsg : M)
    (consumer : option (BatchProcessor Id M) * W * list (ChannelOp M))
  : option (BatchProcessor Id M) * W * list (ChannelOp M) :=
  let '(batchProcessor, w, chan) := consumer in
  let bp := match batchProcessor with
            | Some bp => bp
            | None => mkBatchProcessor [] false 0 consumerOptions
            end in
  let '(bp', w', chan') :=
    addMessage processExpirations reservation originalMsg (bp, w, chan) in
  (Some bp', w', chan').

End Consumer.

(** The consumer without batching ([reservations.consumer.ts]): one message,
    one call, one acknowledgement. *)
Definition handleReservationExpireSingle {M W X : Type}
    (expireReservation : Id -> W -> W * (X + unit))
    (reservation : Id) (originalMsg : M) (st : W * list (ChannelOp M))
  : W * list (ChannelOp M) :=
  let (w, chan) := st in
  match expireReservation reservation w with
  | (w', inr _) => (w', chan ++ [ack originalMsg])
  | (w', inl _) => (w', chan ++ [nack originalMsg false true])
  end.

End Batch.

(** ** Consistency of the store *)

Definition isPending (r : Reservation) : bool :=
  ReservationStatus_eqb (res_status r) PENDING.

Definition isConfirmed (r : Reservation) : bool :=
  ReservationStatus_eqb (res_status r) CONFIRMED.

(** The reservations that reference a seat, by status. *)
Definition pendingOn (s : Store) (seat : Id) : list Reservation :=
  filter (fun r => (seatId r =? seat) && isPending r) (reservations s).

Definition confirmedOn (s : Store) (seat : Id) : list Reservation :=
  filter (fun r => (seatId r =? seat) && isConfirmed r) (reservations s).

(** The sales that reference a reservation. *)
Definition salesOf (s : Store) (res : Id) : list Sale :=
  filter (fun x => reservationId x =? res) (sales s).

Definition oneSaleEach (s : Store) (l : list Reservation) : bool :=
  forallb (fun r => List.length (salesOf s (res_id r)) =? 1) l.

(** The seat / reservation / sale invariant: an [AVAILABLE] seat has no
    [PENDING] reservation, a [RESERVED] seat exactly one, and a [SOLD] seat
    exactly one [CONFIRMED] reservation, which exactly one sale references. *)
Definition seatConsistent (s : Store) (x : Seat) : bool :=
  match seat_status x with
  | AVAILABLE => List.length (pendingOn s (seat_id x)) =? 0
  | RESERVED => List.length (pendingOn s (seat_id x)) =? 1
  | SOLD => (List.length (confirmedOn s (seat_id x)) =? 1)
            && oneSaleEach s (confirmedOn s (seat_id x))
  end.

Definition consistent (s : Store) : bool :=
  forallb (seatConsistent s) (seats s).

(** The inductive strengthening: primary keys are unique, the status of a
    seat fixes both counts, and every sale belongs to a [CONFIRMED]
    reservation. *)
Fixpoint uniqueIds (l : list Id) : bool :=
  match l with
  | [] => true
  | x :: l' => negb (existsb (Nat.eqb x) l') && uniqueIds l'
  end.

Definition seatCoherent (s : Store) (x : Seat) : bool :=
  match seat_status x with
  | AVAILABLE => (List.length (pendingOn s (seat_id x)) =? 0)
                 && (List.length (confirmedOn s (seat_id x)) =? 0)
  | RESERVED => (List.length (pendingOn s (seat_id x)) =? 1)
                && (List.length (confirmedOn s (seat_id x)) =? 0)
  | SOLD => (List.length (pendingOn s (seat_id x)) =? 0)
            && (List.length (confirmedOn s (seat_id x)) =? 1)
            && oneSaleEach s (confirmedOn s (seat_id x))
  end.

Definition saleOfConfirmed (s : Store) (x : Sale) : bool :=
  existsb (fun r => (res_id r =? reservationId x) && isConfirmed r)
          (reservations s).

Definition coherent (s : Store) : bool :=
  uniqueIds (map seat_id (seats s))
  && uniqueIds (map res_id (reservations s))
  && uniqueIds (map sale_id (sales s))
  && forallb (seatCoherent s) (seats s)
  && forallb (saleOfConfirmed s) (sales s).

(** A freshly provisioned inventory: seats only, all [AVAILABLE]. *)
Definition provisioned (s : Store) : bool :=
  uniqueIds (map seat_id (seats s))
  && forallb (fun x => SeatStatus_eqb (seat_status x) AVAILABLE) (seats s)
  && (List.length (reservations s) =? 0)
  && (List.length (sales s) =? 0).


(** [expireReservation] acts on exactly these calls. *)
Definition expirable (now : Date) (id : Id) (s : Store) : bool :=
  match lockReservationWithSeat s id with
  | Some (r, _) => isPending r && (expiresAt r <? now)%Z
  | None => false
  end.

(** ** Outcomes of the seat loop *)

(** Inside a Create-hold transaction a seat row is either as it was at the
    start or has been moved to [RESERVED]. *)
Definition heldRow (a b : Seat) : Prop :=
  b = a \/ (seat_status a = AVAILABLE /\ b = set_seat_status RESERVED a).

(** A seat label of the request that cannot be held. *)
Definition unavailable (s : Store) (session : Id) (label : string) : Prop :=
  match lockSeat s session label with
  | None => True
  | Some seat => seat_status seat <> AVAILABLE
  end.

Definition seatFailure (session : Id) (labels : list string) (e : Exn) : Prop :=
  exists label, In label labels
    /\ (e = NotFoundException (SeatNotFound label session)
        \/ exists st, st <> AVAILABLE
             /\ e = BadRequestException (SeatNotAvailable label st)).

(** ** The booking group during and after Confirm *)

(** A row of the group is still in the store as it was loaded. *)
Definition loadedIn (w : Store) (j : Loaded) : Prop :=
  let '(r, seat, session) := j in
  In r (reservations w) /\ res_status r = PENDING
  /\ findSeat w (seatId r) = Some seat
  /\ findSession w (sessionId seat) = Some session.

(** A row of the group has been confirmed: the reservation is [CONFIRMED],
    its seat is [SOLD], and one sale references it, at the session's
    [ticketPrice] and with the given [paidAt]. *)
Definition confirmedIn (paid : Date) (w : Store) (j : Loaded) : Prop :=
  let '(r, seat, session) := j in
  lookup res_id (res_id r) (reservations w) = Some (set_res_status CONFIRMED r)
  /\ findSeat w (seatId r) = Some (set_seat_status SOLD seat)
  /\ exists sale,
       salesOf w (res_id r) = [sale]
       /\ amount sale = ticketPrice session /\ paidAt sale = paid
       /\ sale_seatId sale = seat_id seat /\ sale_userId sale = userId r.

Definition groupId (j : Loaded) : Id := res_id (fst (fst j)).

(** The same, read off the rows of the store: the row with the
    reservation's key has status [CONFIRMED], the row with its seat's key
    has status [SOLD], both otherwise as loaded, and exactly one sale
    references the reservation. *)
Definition settled (paid : Date) (w : Store) (j : Loaded) : Prop :=
  let '(r, seat, session) := j in
  (exists r',
     lookup res_id (res_id r) (reservations w) = Some r'
     /\ res_status r' = CONFIRMED
     /\ seatId r' = seatId r /\ userId r' = userId r
     /\ expiresAt r' = expiresAt r /\ res_createdAt r' = res_createdAt r)
  /\ (exists seat',
        findSeat w (seatId r) = Some seat'
        /\ seat_status seat' = SOLD
        /\ seat_id seat' = seat_id seat /\ seatNumber seat' = seatNumber seat
        /\ row seat' = row seat /\ sessionId seat' = sessionId seat)
  /\ exists sale,
       salesOf w (res_id r) = [sale]
       /\ reservationId sale = res_id r /\ sale_seatId sale = seatId r
       /\ sale_userId sale = userId r
       /\ amount sale = ticketPrice session /\ paidAt sale = paid.

(** ** Histories *)

(** The committed transactions of the coordinator, with the clock readings
    they took. *)
Inductive Command :=
| CreateHold (now dbNow : Date) (dto : CreateReservationDto)
| ConfirmPayment (now paid dbNow : Date) (dto : ConfirmPaymentDto)
| Expire (now : Date) (id : Id).

Definition run (ttl : Z) (s : Store) (c : Command) : Store :=
  match c with
  | CreateHold now dbNow dto => fst (createReservation ttl now dbNow dto s)
  | ConfirmPayment now paid dbNow dto => fst (confirmPayment now paid dbNow dto s)
  | Expire now id => expireReservation now id s
  end.

Definition runAll (ttl : Z) (s : Store) (history : list Command) : Store :=
  fold_left (run ttl) history s.

(** ** A small cinema, used in the examples *)

Definition s16 : Session := mkSession 1 "Dune" 1000 "R1" 2500.

Definition demo : Store :=
  mkStore [s16]
          [mkSeat 1 "A1" "A" AVAILABLE 1; mkSeat 2 "A2" "A" AVAILABLE 1;
           mkSeat 3 "A3" "A" AVAILABLE 1]
          [] [].

Definition held : Store :=
  fst (createReservation 30 5000 5001
         (mkCreateReservationDto 1 ["A2"; "A1"]%string "u1") demo).

(** ** Errors seen by the retry helper and by the consumer *)

(** What a service call can reject with: an exception of the service, or
    the store driver's [QueryFailedError] (deadlock, lock timeout). *)
Inductive Failure :=
| QueryFailedError
| Thrown (e : Exn).

Inductive ErrorClass :=
| QueryFailedErrorClass
| NotFoundExceptionClass
| BadRequestExceptionClass.

Definition instanceOf (e : Failure) (c : ErrorClass) : bool :=
  match e, c with
  | QueryFailedError, QueryFailedErrorClass => true
  | Thrown (NotFoundException _), NotFoundExceptionClass => true
  | Thrown (BadRequestException _), BadRequestExceptionClass => true
  | _, _ => false
  end.

(** Every [Failure] is an [Error] object: [error instanceof Error] holds
    and the retry helper keeps it as it is. *)
Definition errorObject (e : Failure) : Failure := e.

(** What a block may reject with in general: an [Error] object, or any
    other value, given by its printed form [String(value)].  [newError m] is
    [new Error(m)], an instance of none of the classes above. *)
Inductive Rejection :=
| anError (e : Failure)
| aValue (printed : string)
| newError (message : string).

Definition instanceOfRejection (e : Rejection) (c : ErrorClass) : bool :=
  match e with
  | anError f => instanceOf f c
  | _ => false
  end.

Definition asErrorObject (e : Rejection) : Rejection :=
  match e with
  | aValue printed => newError printed
  | _ => e
  end.

(** The options the project documentation gives for [@Retry] on
    [createReservation]. *)
Definition documentedOptions : RetryUtil.RetryOptions ErrorClass :=
  RetryUtil.mkRetryOptions (Some 3) (Some 100%Z) (Some 2000%Z) (Some 2%Z)
                           (Some [QueryFailedErrorClass]).

(** [expireReservation] behind a store that aborts the transactions on the
    reservations in [down]: the call rolls back and rejects. *)
Definition expireOrReject (down : list Id) (now : Date) (id : Id) (s : Store)
  : Store * (Failure + unit) :=
  if existsb (Nat.eqb id) down then (s, inl QueryFailedError)
  else (expireReservation now id s, inr tt).

(** A store that meets the three-clause invariant and is not coherent: the
    [RESERVED] seat carries a [CONFIRMED] reservation, with its sale, next
    to its [PENDING] one. *)
Definition doubled : Store :=
  mkStore [s16] [mkSeat 1 "A1" "A" RESERVED 1]
          [mkReservation 1 1 "u0" CONFIRMED 100 50;
           mkReservation 2 1 "u1" PENDING 35000 5001]
          [mkSale 1 1 "u0" 1 2500 90 91].

(** Likewise: the [SOLD] seat carries two [PENDING] reservations. *)
Definition oversold : Store :=
  mkStore [s16] [mkSeat 1 "A1" "A" SOLD 1]
          [mkReservation 1 1 "u0" CONFIRMED 100 50;
           mkReservation 2 1 "u1" PENDING 200 60;
           mkReservation 3 1 "u2" PENDING 300 70]
          [mkSale 1 1 "u0" 1 2500 90 91].

(** A store whose [CONFIRMED] reservation has lost its sale row. *)
Definition saleless : Store :=
  mkStore [s16] [mkSeat 1 "A1" "A" SOLD 1]
          [mkReservation 1 1 "u1" CONFIRMED 35000 5001] [].

(** ** Further definitions for the retry helper *)

(** The error lets the loop go on: [retryableErrors] is empty or holds a
    class of the error. *)
Definition canRetry {E C : Type} (instanceOf : E -> C -> bool)
    (opts : RetryUtil.RequiredRetryOptions C) (e : E) : bool :=
  (List.length (RetryUtil.r_retryableErrors opts) =? 0)
  || RetryUtil.isRetryable instanceOf opts e.

(** Attempts [a .. a + n - 1] of [fn] fail with errors that let the loop
    go on. *)
Definition failing {E T C : Type} (instanceOf : E -> C -> bool)
    (asError : E -> E) (fn : nat -> E + T)
    (opts : RetryUtil.RequiredRetryOptions C) (a n : nat) : Prop :=
  forall i, a <= i < a + n ->
            exists e, fn i = inl e
                      /\ canRetry instanceOf opts (asError e) = true.

(** The sleeps before attempt [k]: one after each of the attempts before. *)
Definition sleepsBefore {C : Type} (opts : RetryUtil.RequiredRetryOptions C)
    (k : nat) : list Z :=
  map (RetryUtil.delayMs opts) (seq 1 (k - 1)).

(** ** Further definitions for the batched consumer *)

(** The message an acknowledgement or a negative acknowledgement settles. *)
Definition settledMessage {M : Type} (op : Batch.ChannelOp M) : M :=
  match op with
  | Batch.ack m => m
  | Batch.nack m _ _ => m
  end.

(** The messages the processor has settled on the channel, then the ones it
    still buffers. *)
Definition settledAndBuffered {D M W : Type} (st : Batch.State D M W) : list M :=
  map (@settledMessage M) (snd st)
  ++ map (@Batch.message D M) (Batch.batch (fst (fst st))).

(** How many messages the consumer's processor buffers; none before the
    processor exists. *)
Definition buffered {M : Type} (obp : option (Batch.BatchProcessor Id M)) : nat :=
  match obp with
  | Some bp => List.length (Batch.batch bp)
  | None => 0
  end.

(** The consumer's processor, if created, is the one of
    [handleReservationExpire] and is not inside a flush. *)
Definition idleConsumer {M : Type} (obp : option (Batch.BatchProcessor Id M))
  : Prop :=
  match obp with
  | Some bp => Batch.processing bp = false
               /\ Batch.options bp = Batch.consumerOptions
  | None => True
  end.

(** The broker delivers expire messages one after the other. *)
Definition deliver {M W X : Type} (expire : Id -> W -> W * (X + unit))
    (messages : list (Id * M))
    (consumer : option (Batch.BatchProcessor Id M) * W * list (Batch.ChannelOp M))
  : option (Batch.BatchProcessor Id M) * W * list (Batch.ChannelOp M) :=
  fold_left (fun st dm => Batch.handleReservationExpire expire (fst dm) (snd dm) st)
            messages consumer.

(** ** The flush timer and shutdown *)

(** The callback [startFlushTimer] hands to [setInterval]. *)
Definition tick {D M W X : Type}
    (processFn : list (Batch.BatchMessage D M) -> W -> W * (X + unit))
    (st : Batch.State D M W) : Batch.State D M W :=
  let '(bp, _, _) := st in
  if 0 <? List.length (Batch.batch bp) then Batch.flush processFn st else st.

(** [stop]: the timer is cleared, then what is buffered is flushed. *)
Definition stop {D M W X : Type}
    (processFn : list (Batch.BatchMessage D M) -> W -> W * (X + unit))
    (st : Batch.State D M W) : Batch.State D M W :=
  Batch.flush processFn st.

(** [onModuleDestroy] of the consumer, and the timer of its processor. *)
Definition onModuleDestroy {M W X : Type} (expire : Id -> W -> W * (X + unit))
    (consumer : option (Batch.BatchProcessor Id M) * W * list (Batch.ChannelOp M))
  : option (Batch.BatchProcessor Id M) * W * list (Batch.ChannelOp M) :=
  let '(batchProcessor, w, chan) := consumer in
  match batchProcessor with
  | Some bp =>
    let '(bp', w', chan') := stop (Batch.processExpirations expire) (bp, w, chan) in
    (Some bp', w', chan')
  | None => consumer
  end.

Definition onFlushTimer {M W X : Type} (expire : Id -> W -> W * (X + unit))
    (consumer : option (Batch.BatchProcessor Id M) * W * list (Batch.ChannelOp M))
  : option (Batch.BatchProcessor Id M) * W * list (Batch.ChannelOp M) :=
  let '(batchProcessor, w, chan) := consumer in
  match batchProcessor with
  | Some bp =>
    let '(bp', w', chan') := tick (Batch.processExpirations expire) (bp, w, chan) in
    (Some bp', w', chan')
  | None => consumer
  end.

(** The service calls for a sequence of reservation ids, in order. *)
Definition expireAll {W X : Type} (expire : Id -> W -> W * (X + unit))
    (ids : list Id) (w : W) : W :=
  fold_left (fun w0 id => fst (expire id w0)) ids w.

(** What a consumer still buffers. *)
Definition bufferedItems {M : Type} (obp : option (Batch.BatchProcessor Id M))
  : list (Batch.BatchMessage Id M) :=
  match obp with
  | Some bp => Batch.batch bp
  | None => []
  end.

(** ** Further definitions for the coordinator *)

(** The reservation row behind a response record. *)
Definition rowOf (d : ReservationResponseDto) : Reservation :=
  mkReservation (rr_id d) (rr_seatId d) (rr_userId d) (rr_status d)
                (rr_expiresAt d) (rr_createdAt d).

(** A response record of a hold by [user] on a seat of [session], placed with
    [expires] at store time [dbNow]. *)
Definition heldBy (user : string) (expires dbNow : Date)
    (d : ReservationResponseDto) : Prop :=
  rr_status d = PENDING /\ rr_userId d = user
  /\ rr_expiresAt d = expires /\ rr_createdAt d = dbNow.

(** What Confirm by [user] may do to a reservation row and to a seat row. *)
Definition confirmedRow (user : string) (a b : Reservation) : Prop :=
  b = a
  \/ (res_status a = PENDING /\ userId a = user
      /\ b = set_res_status CONFIRMED a).

Definition soldRow (a b : Seat) : Prop :=
  b = a \/ (seat_status a = RESERVED /\ b = set_seat_status SOLD a).

(** What Expire may do to a reservation row and to a seat row. *)
Definition expiredRow (id : Id) (a b : Reservation) : Prop :=
  b = a
  \/ (res_status a = PENDING /\ res_id a = id
      /\ b = set_res_status EXPIRED a).

Definition releasedRow (a b : Seat) : Prop :=
  b = a \/ (seat_status a = RESERVED /\ b = set_seat_status AVAILABLE a).

(** A sale written by a Confirm of [user] at [paid], store time [dbNow], for
    a reservation that was [PENDING] in [s]. *)
Definition saleWritten (s : Store) (user : string) (paid dbNow : Date)
    (x : Sale) : Prop :=
  sale_userId x = user /\ paidAt x = paid /\ sale_createdAt x = dbNow
  /\ exists r seat session,
       In r (reservations s) /\ res_status r = PENDING
       /\ res_id r = reservationId x /\ seatId r = sale_seatId x
       /\ findSeat s (seatId r) = Some seat
       /\ findSession s (sessionId seat) = Some session
       /\ amount x = ticketPrice session.

(** Along a history a reservation row keeps its [id], [seatId], [userId],
    [expiresAt] and [createdAt], and its status once that has left
    [PENDING]; a seat row keeps its [id], [seatNumber], [row] and
    [sessionId], and its status once that is [SOLD].  The [updatedAt]
    column, which the store rewrites at every save of a changed row, is not
    a column of the records here and nothing is said of it. *)
Definition resKept (a b : Reservation) : Prop :=
  res_id b = res_id a /\ seatId b = seatId a /\ userId b = userId a
  /\ expiresAt b = expiresAt a /\ res_createdAt b = res_createdAt a
  /\ (res_status a <> PENDING -> res_status b = res_status a).

Definition seatKept (a b : Seat) : Prop :=
  seat_id b = seat_id a /\ seatNumber b = seatNumber a /\ row b = row a
  /\ sessionId b = sessionId a
  /\ (seat_status a = SOLD -> seat_status b = SOLD).

(** [s'] continues [s]: same sessions, the sales and the reservations of
    [s] followed by new ones, the seats of [s] in place, rows kept as above. *)
Definition continues (s s' : Store) : Prop :=
  sessions s' = sessions s
  /\ (exists news, sales s' = sales s ++ news)
  /\ (exists old news, reservations s' = old ++ news
                       /\ Forall2 resKept (reservations s) old)
  /\ Forall2 seatKept (seats s) (seats s').

(** Every sale names the seat of the [CONFIRMED] reservation it belongs
    to. *)
Definition saleMatches (s : Store) (x : Sale) : bool :=
  existsb (fun r => (res_id r =? reservationId x)
                    && (seatId r =? sale_seatId x) && isConfirmed r)
          (reservations s).

Definition salesMatch (s : Store) : bool :=
  forallb (saleMatches s) (sales s).

(** The sales of a seat. *)
Definition salesOfSeat (s : Store) (seat : Id) : list Sale :=
  filter (fun x => sale_seatId x =? seat) (sales s).

(** A list of labels in ascending order. *)
Fixpoint ascending (l : list string) : Prop :=
  match l with
  | [] => True
  | x :: l' => Forall (fun y => String.leb x y = true) l' /\ ascending l'
  end.

(** Every requested label names a seat of the session that can be held. *)
Definition allAvailable (s : Store) (session : Id) (labels : list string)
  : Prop :=
  forall label, In label labels ->
    exists seat, lockSeat s session label = Some seat
                 /\ seat_status seat = AVAILABLE.

(** ** The sessions service: availability *)

Record SeatAvailabilityDto := mkSeatAvailabilityDto {
  sa_seatNumber : string;
  sa_row : string;
  sa_status : SeatStatus;
  isAvailable : bool
}.

Record SessionAvailabilityDto := mkSessionAvailabilityDto {
  av_sessionId : Id;
  av_movieName : string;
  av_startTime : Date;
  av_roomNumber : string;
  av_ticketPrice : Z;
  totalSeats : nat;
  availableSeats : nat;
  av_seats : list SeatAvailabilityDto
}.

Definition available (x : Seat) : bool :=
  SeatStatus_eqb (seat_status x) AVAILABLE.

(** [relations: ['seats']]: the seat rows of a session.  The query has no
    [ORDER BY]; the rows come in table order here, and only what does not
    depend on their order is stated of them. *)
Definition seatsOf (s : Store) (session : Id) : list Seat :=
  filter (fun x => sessionId x =? session) (seats s).

Definition getSessionAvailability (s : Store) (id : Id)
  : Exn + SessionAvailabilityDto :=
  match findSession s id with
  | None => inl (NotFoundException (SessionNotFound id))
  | Some session =>
    let sessionSeats := seatsOf s (session_id session) in
    let seatAvailability :=
      map (fun seat => mkSeatAvailabilityDto (seatNumber seat) (row seat)
                         (seat_status seat) (available seat))
          sessionSeats in
    let availableSeats := List.length (filter available sessionSeats) in
    inr (mkSessionAvailabilityDto (session_id session) (movieName session)
           (startTime session) (roomNumber session) (ticketPrice session)
           (List.length sessionSeats) availableSeats seatAvailability)
  end.

(** The seats a command takes from, or gives back to, the availability of
    session [k] when run on [s]. *)
Definition taken (ttl : Z) (s : Store) (k : Id) (c : Command) : nat :=
  match c with
  | CreateHold now dbNow dto =>
    match snd (createReservation ttl now dbNow dto s) with
    | inr rs => if dto_sessionId dto =? k then List.length (seatNumbers dto)
                else 0
    | inl _ => 0
    end
  | _ => 0
  end.

Definition givenBack (s : Store) (k : Id) (c : Command) : nat :=
  match c with
  | Expire now id =>
    match lockReservationWithSeat s id with
    | Some (r, seat) =>
      if expirable now id s && (sessionId seat =? k) then 1 else 0
    | None => 0
    end
  | _ => 0
  end.

(** ** The sessions service: seat generation *)

(** [Partial<Seat>]: the columns [generateSeats] fills in; [row] is
    [rows[rowIndex]], which is [undefined] past the last letter. *)
Record PartialSeat := mkPartialSeat {
  ps_seatNumber : string;
  ps_row : option string;
  ps_status : SeatStatus;
  ps_sessionId : Id
}.

Definition rows : string := "ABCDEFGHIJKLMNOPQRSTUVWXYZ".

Definition seatsPerRow : nat := 8.

Definition charAt (i : nat) (s : string) : option string :=
  option_map (fun c => String c EmptyString) (String.get i s).

(** A value inside a template literal. *)
Definition interpolate (x : option string) : string :=
  match x with
  | Some v => v
  | None => "undefined"
  end.

Definition decimal (n : nat) : string :=
  NilEmpty.string_of_uint (Nat.to_uint n).

(** One turn of the [for] loop of [generateSeats]. *)
Definition generatedSeat (session : Id) (i : nat) : PartialSeat :=
  let rowIndex := i / seatsPerRow in
  let seatInRow := i mod seatsPerRow + 1 in
  let row := charAt rowIndex rows in
  mkPartialSeat (interpolate row ++ decimal seatInRow) row AVAILABLE session.

Definition generateSeats (numberOfSeats : nat) (session : Id)
  : list PartialSeat :=
  map (generatedSeat session) (seq 0 numberOfSeats).

Fixpoint distinct (l : list string) : bool :=
  match l with
  | [] => true
  | x :: l' => negb (existsb (String.eqb x) l') && distinct l'
  end.

(** ** Listing a user's reservations *)

(** [order: { createdAt: 'DESC' }].  Rows created at the same instant come
    in the order the store chooses; the model keeps them in table order. *)
Fixpoint insertByCreatedAt (r : Reservation) (l : list Reservation)
  : list Reservation :=
  match l with
  | [] => [r]
  | x :: l' =>
    if (res_createdAt x <=? res_createdAt r)%Z then r :: l
    else x :: insertByCreatedAt r l'
  end.

Fixpoint orderByCreatedAtDesc (l : list Reservation) : list Reservation :=
  match l with
  | [] => []
  | r :: l' => insertByCreatedAt r (orderByCreatedAtDesc l')
  end.

(** [Array.prototype.map] with a callback that may throw: the first throw
    ends the call. *)
Fixpoint mapAll {A B : Type} (f : A -> option B) (l : list A)
  : option (list B) :=
  match l with
  | [] => Some []
  | a :: l' =>
    match f a with
    | None => None
    | Some b =>
      match mapAll f l' with
      | None => None
      | Some bs => Some (b :: bs)
      end
    end
  end.

(** The callback of [getUserReservations]; [reservation.seat] is [null] when
    the joined seat row is missing, and reading [seatNumber] off it throws a
    [TypeError], here [None]. *)
Definition reservationResponse (s : Store) (r : Reservation)
  : option ReservationResponseDto :=
  match findSeat s (seatId r) with
  | Some seat =>
    Some (mkReservationResponseDto (res_id r) (seatId r) (seatNumber seat)
            (userId r) (res_status r) (expiresAt r) (res_createdAt r))
  | None => None
  end.

Definition getUserReservations (s : Store) (user : string)
  : option (list ReservationResponseDto) :=
  let found :=
    orderByCreatedAtDesc
      (filter (fun r => (userId r =? user)%string) (reservations s)) in
  mapAll (reservationResponse s) found.

Fixpoint descending (l : list Date) : Prop :=
  match l with
  | [] => True
  | x :: l' => Forall (fun y => (y <= x)%Z) l' /\ descending l'
  end.

(** ** Sequences of Expire calls *)

(** Expire calls, each with the clock reading it makes and the reservation
    it names. *)
Definition expireCalls (calls : list (Date * Id)) (s : Store) : Store :=
  fold_left (fun w c => expireReservation (fst c) (snd c) w) calls s.

(** The join of [lockReservationWithSeat] finds a seat row for [r]. *)
Definition hasSeat (s : Store) (r : Reservation) : bool :=
  match findSeat s (seatId r) with
  | Some _ => true
  | None => false
  end.

(** Some call names [r] with a clock past its deadline. *)
Definition named (calls : list (Date * Id)) (r : Reservation) : bool :=
  existsb (fun c => (snd c =? res_id r) && (expiresAt r <? fst c)%Z) calls.

Definition lapses (calls : list (Date * Id)) (s : Store) (r : Reservation)
  : bool :=
  isPending r && hasSeat s r && named calls r.

Definition lapse (calls : list (Date * Id)) (s : Store) (r : Reservation)
  : Reservation :=
  if lapses calls s r
  then mkReservation (res_id r) (seatId r) (userId r) EXPIRED (expiresAt r)
                     (res_createdAt r)
  else r.

Definition releases (calls : list (Date * Id)) (s : Store) (x : Seat) : bool :=
  existsb (fun r => lapses calls s r && (seatId r =? seat_id x))
          (reservations s).

Definition release (calls : list (Date * Id)) (s : Store) (x : Seat) : Seat :=
  if releases calls s x
  then mkSeat (seat_id x) (seatNumber x) (row x) AVAILABLE (sessionId x)
  else x.

Definition afterCalls (calls : list (Date * Id)) (s : Store) : Store :=
  mkStore (sessions s) (map (release calls s) (seats s))
          (map (lapse calls s) (reservations s)) (sales s).

(** ** Scheduling the expiration of a hold *)

(** A message published to the wait queue: its payload and its per-message
    TTL. *)
Record Published := mkPublished {
  pub_reservationId : Id;
  pub_expiration : Z
}.

(** [publishDelayedExpiration]; [channel] tells whether [amqpChannel] is
    set. *)
Definition publishDelayedExpiration (channel : bool) (reservation : Id)
    (delayMs : Z) : list Published :=
  if negb channel then []
  else [mkPublished reservation delayMs].

(** The loop of [createReservation] after [commitTransaction]. *)
Definition scheduleExpirations (ttl : Z) (channel : bool)
    (rs : list ReservationResponseDto) : list Published :=
  flat_map (fun res => publishDelayedExpiration channel (rr_id res)
                         (ttl * 1000)%Z) rs.

(** ** The label the seat loop rejects *)

(** The seat labels of a session are pairwise distinct.  The query of the
    seat loop has no [ORDER BY]: when two seats of the session carry the
    label it asks for, the store chooses the row.  [lockSeat] takes the
    first in table order; what is proved of requests that reach one label
    twice assumes [distinctLabels]. *)
Definition distinctLabels (s : Store) (session : Id) : Prop :=
  NoDup (map seatNumber (seatsOf s session)).

(** The answer of the seat loop at [label], reached after the labels [pre]
    have been held in the same transaction on the store [s]. *)
Definition rejectedAt (s : Store) (session : Id) (pre : list string)
    (label : string) (e : Exn) : Prop :=
  match lockSeat s session label with
  | None => e = NotFoundException (SeatNotFound label session)
  | Some seat =>
    if SeatStatus_eqb (seat_status seat) AVAILABLE
    then In label pre
         /\ e = BadRequestException (SeatNotAvailable label RESERVED)
    else e = BadRequestException (SeatNotAvailable label (seat_status seat))
  end.

(** [e] is the rejection of the first label of [labels] that cannot be held:
    every label before it is available in [s] and occurs once before it. *)
Definition firstRejected (s : Store) (session : Id) (labels : list string)
    (e : Exn) : Prop :=
  exists pre label post,
    labels = pre ++ label :: post
    /\ NoDup pre /\ allAvailable s session pre
    /\ rejectedAt s session pre label e.

(** * Properties *)

Unset Implicit Arguments.

(** ** The operations on the small cinema *)

Example create_demo :
  createReservation 30 5000 5001 (mkCreateReservationDto 1 ["A2"; "A1"]%string "u1") demo
  = (mkStore [s16]
       [mkSeat 1 "A1" "A" RESERVED 1; mkSeat 2 "A2" "A" RESERVED 1;
        mkSeat 3 "A3" "A" AVAILABLE 1]
       [mkReservation 1 1 "u1" PENDING 35000 5001;
        mkReservation 2 2 "u1" PENDING 35000 5001] [],
     inr [mkReservationResponseDto 1 1 "A1" "u1" PENDING 35000 5001;
          mkReservationResponseDto 2 2 "A2" "u1" PENDING 35000 5001]).
Proof. reflexivity. Qed.

Example confirm_held :
  confirmPayment 6000 6001 6002 (mkConfirmPaymentDto 2 "u1") held
  = (mkStore [s16]
       [mkSeat 1 "A1" "A" SOLD 1; mkSeat 2 "A2" "A" SOLD 1;
        mkSeat 3 "A3" "A" AVAILABLE 1]
       [mkReservation 1 1 "u1" CONFIRMED 35000 5001;
        mkReservation 2 2 "u1" CONFIRMED 35000 5001]
       [mkSale 1 1 "u1" 1 2500 6001 6002; mkSale 2 2 "u1" 2 2500 6001 6002],
     inr (mkSaleResponseDto 2 2 "A2" "u1" 2 2500 "Dune" 1000 "R1" 6001 6002)).
Proof. reflexivity. Qed.

Example expire_held :
  expireReservation 35001 1 held
  = mkStore [s16]
      [mkSeat 1 "A1" "A" AVAILABLE 1; mkSeat 2 "A2" "A" RESERVED 1;
       mkSeat 3 "A3" "A" AVAILABLE 1]
      [mkReservation 1 1 "u1" EXPIRED 35000 5001;
       mkReservation 2 2 "u1" PENDING 35000 5001] [].
Proof. reflexivity. Qed.

Example expire_held_early : expireReservation 35000 1 held = held.
Proof. reflexivity. Qed.

Example double_booking_rejected :
  createReservation 30 7000 7001 (mkCreateReservationDto 1 ["A1"]%string "u2") held
  = (held, inl (BadRequestException (SeatNotAvailable "A1" RESERVED))).
Proof. reflexivity. Qed.

Example ownership_isolation :
  confirmPayment 6000 6001 6002 (mkConfirmPaymentDto 1 "u2") held
  = (held, inl (NotFoundException (ReservationNotFound 1))).
Proof. reflexivity. Qed.

Example confirm_after_deadline :
  confirmPayment 35001 35002 35003 (mkConfirmPaymentDto 1 "u1") held
  = (held, inl (BadRequestException ReservationHasExpired)).
Proof. reflexivity. Qed.

(** ** Tables *)

Section TableFacts.

Variable A : Type.
Variable key : A -> Id.

Lemma lookup_some k l a :
  lookup key k l = Some a -> In a l /\ key a = k.
Proof.
  unfold lookup. intros H. apply find_some in H.
  destruct H as [H1 H2]. apply Nat.eqb_eq in H2. auto.
Qed.

Lemma lookup_none k l a :
  lookup key k l = None -> In a l -> key a <> k.
Proof.
  unfold lookup. intros H Hin E.
  apply (find_none _ _ H) in Hin. apply Nat.eqb_neq in Hin. auto.
Qed.

Lemma update_keys a l : map key (update key a l) = map key l.
Proof.
  unfold update. rewrite map_map. apply map_ext_in. intros x _.
  destruct (key x =? key a) eqn:E; auto.
  apply Nat.eqb_eq in E. auto.
Qed.

Lemma update_length a l : List.length (update key a l) = List.length l.
Proof. unfold update. apply length_map. Qed.

Lemma lookup_update_hit k l a0 a :
  lookup key k l = Some a0 -> key a = k ->
  lookup key k (update key a l) = Some a.
Proof.
  unfold lookup, update. intros H Ha. subst k.
  induction l as [|x l IH]; simpl in *; [discriminate|].
  destruct (key x =? key a) eqn:E.
  - simpl. now rewrite Nat.eqb_refl.
  - simpl. rewrite E. auto.
Qed.

Lemma lookup_update_miss k l a :
  key a <> k -> lookup key k (update key a l) = lookup key k l.
Proof.
  unfold lookup, update. intros Ha.
  induction l as [|x l IH]; simpl; auto.
  destruct (key x =? key a) eqn:E; simpl.
  - apply Nat.eqb_eq in E.
    destruct (key a =? k) eqn:E1; [apply Nat.eqb_eq in E1; contradiction|].
    destruct (key x =? k) eqn:E2; [apply Nat.eqb_eq in E2; congruence|].
    auto.
  - destruct (key x =? k); auto.
Qed.

Lemma lookup_update_none k l a :
  lookup key k l = None -> lookup key k (update key a l) = None.
Proof.
  unfold lookup, update.
  induction l as [|x l IH]; simpl; auto.
  destruct (key x =? k) eqn:E; [discriminate|]. intros H.
  destruct (key x =? key a) eqn:E1; simpl.
  - apply Nat.eqb_eq in E1.
    assert (Ea : (key a =? k) = false) by (rewrite <- E1; exact E).
    rewrite Ea. auto.
  - rewrite E. auto.
Qed.

Lemma update_other a l x :
  In x l -> key x <> key a -> In x (update key a l).
Proof.
  unfold update. intros Hin Hne. apply in_map_iff. exists x. split; auto.
  destruct (key x =? key a) eqn:E; auto.
  apply Nat.eqb_eq in E. contradiction.
Qed.

Lemma update_in a l y :
  In y (update key a l) -> y = a \/ (In y l /\ key y <> key a).
Proof.
  unfold update. intros H. apply in_map_iff in H.
  destruct H as [x [Hx Hin]].
  destruct (key x =? key a) eqn:E.
  - left. auto.
  - right. subst y. apply Nat.eqb_neq in E. auto.
Qed.

(** A row that is saved as it was loaded leaves the table as it is, when
    keys are unique. *)
Lemma update_same a l :
  NoDup (map key l) -> In a l -> update key a l = l.
Proof.
  unfold update. intros Hnd Hin.
  induction l as [|x l IH]; simpl in *; auto.
  inversion Hnd as [|? ? Hx Hnd']; subst.
  destruct Hin as [->|Hin].
  - rewrite Nat.eqb_refl. f_equal.
    rewrite <- (map_id l) at 2. apply map_ext_in. intros y Hy.
    destruct (key y =? key a) eqn:E; auto.
    apply Nat.eqb_eq in E. exfalso. apply Hx. rewrite <- E.
    now apply in_map.
  - destruct (key x =? key a) eqn:E.
    + apply Nat.eqb_eq in E. exfalso. apply Hx. rewrite E. now apply in_map.
    + f_equal. auto.
Qed.

(** With unique keys a [save] rewrites one row. *)
Lemma update_split a a0 l1 l2 :
  NoDup (map key (l1 ++ a0 :: l2)) -> key a = key a0 ->
  update key a (l1 ++ a0 :: l2) = l1 ++ a :: l2.
Proof.
  unfold update. intros Hnd Hk.
  rewrite map_app in Hnd. simpl in Hnd.
  assert (H1 : forall y, In y l1 -> key y <> key a).
  { intros y Hy E. apply NoDup_remove_2 in Hnd. apply Hnd.
    apply in_or_app. left. rewrite <- Hk, <- E. now apply in_map. }
  assert (H2 : forall y, In y l2 -> key y <> key a).
  { intros y Hy E. apply NoDup_remove_2 in Hnd. apply Hnd.
    apply in_or_app. right. rewrite <- Hk, <- E. now apply in_map. }
  rewrite map_app. simpl. rewrite Hk, Nat.eqb_refl. f_equal; [|f_equal].
  - rewrite <- (map_id l1) at 2. apply map_ext_in. intros y Hy.
    destruct (key y =? key a0) eqn:E; auto.
    apply Nat.eqb_eq in E. exfalso. apply (H1 y Hy). congruence.
  - rewrite <- (map_id l2) at 2. apply map_ext_in. intros y Hy.
    destruct (key y =? key a0) eqn:E; auto.
    apply Nat.eqb_eq in E. exfalso. apply (H2 y Hy). congruence.
Qed.

End TableFacts.

(** ** Expire *)

Lemma find_app (A : Type) (p : A -> bool) (l1 l2 : list A) :
  find p (l1 ++ l2)
  = match find p l1 with Some a => Some a | None => find p l2 end.
Proof.
  induction l1 as [|x l1 IH]; simpl; auto. destruct (p x); auto.
Qed.

Lemma joinSeat_in s x j :
  In j (joinSeat s x) -> fst j = x /\ findSeat s (seatId x) = Some (snd j).
Proof.
  unfold joinSeat. destruct (findSeat s (seatId x)); simpl; [|tauto].
  intros [<-|[]]. auto.
Qed.

Lemma lockReservationWithSeat_some s id r seat :
  lockReservationWithSeat s id = Some (r, seat) ->
  In r (reservations s) /\ res_id r = id /\ findSeat s (seatId r) = Some seat.
Proof.
  unfold lockReservationWithSeat. intros H. apply find_some in H.
  destruct H as [Hin Hid]. simpl in Hid. apply Nat.eqb_eq in Hid.
  apply in_flat_map in Hin. destruct Hin as [x [Hx Hj]].
  apply joinSeat_in in Hj. simpl in Hj. destruct Hj as [-> Hs]. auto.
Qed.

(** After a save of the locked reservation and of its seat, the same lock
    returns the saved rows. *)
Lemma lock_after_save s' id r seat r' seat' s l :
  find (fun j : Reservation * Seat => res_id (fst j) =? id)
       (flat_map (joinSeat s) l) = Some (r, seat) ->
  res_id r = id -> res_id r' = id -> seatId r' = seatId r ->
  findSeat s' (seatId r) = Some seat' ->
  find (fun j : Reservation * Seat => res_id (fst j) =? id)
       (flat_map (joinSeat s') (update res_id r' l)) = Some (r', seat').
Proof.
  intros H Hr Hr' Hseat Hs'.
  induction l as [|x l IH]; simpl in *; [discriminate|].
  rewrite find_app in *. rewrite Hr'.
  destruct (res_id x =? id) eqn:E.
  - unfold joinSeat at 1. rewrite Hseat, Hs'. simpl. now rewrite Hr', Nat.eqb_refl.
  - assert (Hx : forall t, find (fun j : Reservation * Seat => res_id (fst j) =? id)
                                (joinSeat t x) = None).
    { intros t. unfold joinSeat. destruct (findSeat t (seatId x)); simpl; auto.
      now rewrite E. }
    rewrite Hx in *. auto.
Qed.

Lemma findSeat_saveReservation r s k :
  findSeat (saveReservation r s) k = findSeat s k.
Proof. reflexivity. Qed.

Lemma expireReservation_acts now id s :
  expirable now id s = true ->
  exists r seat,
    lockReservationWithSeat s id = Some (r, seat)
    /\ res_status r = PENDING /\ (expiresAt r < now)%Z
    /\ expireReservation now id s
       = saveReservation (set_res_status EXPIRED r)
           (saveSeat (set_seat_status AVAILABLE seat) s).
Proof.
  unfold expirable, expireReservation.
  destruct (lockReservationWithSeat s id) as [[r seat]|]; [|discriminate].
  intros H. apply andb_true_iff in H. destruct H as [Hp Ht].
  exists r, seat. unfold isPending in Hp. rewrite Hp. simpl.
  apply Z.ltb_lt in Ht.
  destruct (now <=? expiresAt r)%Z eqn:E; [apply Z.leb_le in E; lia|].
  repeat split; auto.
  destruct (res_status r); simpl in Hp; congruence.
Qed.

Lemma expireReservation_skips now id s :
  expirable now id s = false -> expireReservation now id s = s.
Proof.
  unfold expirable, expireReservation.
  destruct (lockReservationWithSeat s id) as [[r seat]|]; auto.
  unfold isPending. intros H.
  destruct (ReservationStatus_eqb (res_status r) PENDING); simpl in *; auto.
  destruct (now <=? expiresAt r)%Z eqn:E; auto.
  apply Z.ltb_ge in H. apply Z.leb_gt in E. lia.
Qed.

Lemma expireReservation_locks_expired id s r seat :
  lockReservationWithSeat s id = Some (r, seat) ->
  lockReservationWithSeat
    (saveReservation (set_res_status EXPIRED r)
       (saveSeat (set_seat_status AVAILABLE seat) s)) id
  = Some (set_res_status EXPIRED r, set_seat_status AVAILABLE seat).
Proof.
  intros H. pose proof (lockReservationWithSeat_some _ _ _ _ H) as [Hin [Hid Hs]].
  unfold lockReservationWithSeat in *. simpl.
  eapply lock_after_save; eauto.
  rewrite findSeat_saveReservation. unfold findSeat, saveSeat. simpl.
  apply lookup_some in Hs as Hk. destruct Hk as [_ Hk].
  eapply lookup_update_hit; eauto.
Qed.






(** ** Unique keys *)

Lemma uniqueIds_NoDup l : uniqueIds l = true <-> NoDup l.
Proof.
  induction l as [|x l IH]; simpl.
  - split; [constructor|auto].
  - rewrite andb_true_iff, negb_true_iff, IH. split.
    + intros [Hx Hl]. constructor; auto. intros Hin.
      assert (existsb (Nat.eqb x) l = true); [|congruence].
      apply existsb_exists. exists x. split; auto. apply Nat.eqb_refl.
    + intros H. inversion H as [|? ? Hx Hl]; subst. split; auto.
      destruct (existsb (Nat.eqb x) l) eqn:E; auto.
      apply existsb_exists in E. destruct E as [y [Hy E]].
      apply Nat.eqb_eq in E. subst y. contradiction.
Qed.

(** ** The frame of Expire *)



(** ** Create hold: failures *)

Lemma insert_sorted_perm x l : Permutation (insert_sorted x l) (x :: l).
Proof.
  induction l as [|y l IH]; simpl; auto.
  destruct (String.leb x y); auto.
  eapply perm_trans; [apply perm_skip, IH|apply perm_swap].
Qed.

Lemma sort_perm l : Permutation (sort l) l.
Proof.
  induction l as [|x l IH]; simpl; auto.
  eapply perm_trans; [apply insert_sorted_perm|now apply perm_skip].
Qed.

Lemma heldRow_id a b : heldRow a b -> seat_id b = seat_id a.
Proof. intros [->|[_ ->]]; reflexivity. Qed.

Lemma heldRow_available a b :
  heldRow a b -> seat_status b = AVAILABLE -> b = a.
Proof. intros [->|[_ ->]]; simpl; auto. discriminate. Qed.

Lemma heldRows_ids l l' :
  Forall2 heldRow l l' -> map seat_id l' = map seat_id l.
Proof.
  induction 1; simpl; auto. f_equal; auto. now apply heldRow_id.
Qed.

Lemma heldRows_lock session label l l' :
  Forall2 heldRow l l' ->
  let p := fun x => (sessionId x =? session) && (seatNumber x =? label)%string in
  match find p l with
  | None => find p l' = None
  | Some a => exists b, find p l' = Some b /\ heldRow a b
  end.
Proof.
  intros H p. induction H as [|a b l l' Hab H IH]; simpl; auto.
  assert (E : p b = p a) by (destruct Hab as [->|[_ ->]]; reflexivity).
  rewrite E. destruct (p a); eauto.
Qed.

Lemma heldRows_save l l' b :
  NoDup (map seat_id l') -> Forall2 heldRow l l' -> In b l' ->
  seat_status b = AVAILABLE ->
  Forall2 heldRow l (update seat_id (set_seat_status RESERVED b) l').
Proof.
  intros Hnd H Hin Hb. unfold update.
  change (seat_id (set_seat_status RESERVED b)) with (seat_id b).
  induction H as [|a c l l' Hac H IH]; simpl; [constructor|].
  inversion Hnd as [|? ? Hc Hnd']; subst. simpl in Hin.
  constructor.
  - destruct (seat_id c =? seat_id b) eqn:E; auto.
    apply Nat.eqb_eq in E. destruct Hin as [Hcb|Hin].
    + subst c. pose proof (heldRow_available _ _ Hac Hb) as Hba. subst b.
      right. auto.
    + exfalso. apply Hc. rewrite E. now apply in_map.
  - destruct Hin as [Hcb|Hin]; auto.
    subst c.
    assert (Hid : map (fun x => if seat_id x =? seat_id b
                                then set_seat_status RESERVED b else x) l' = l').
    { rewrite <- (map_id l') at 2. apply map_ext_in. intros y Hy.
      destruct (seat_id y =? seat_id b) eqn:E; auto.
      apply Nat.eqb_eq in E. exfalso. apply Hc. rewrite <- E. now apply in_map. }
    rewrite Hid. exact H.
Qed.

Lemma seatFailure_kind session labels e :
  seatFailure session labels e -> kind_of e = NOT_FOUND \/ kind_of e = CONFLICT.
Proof.
  intros [label [_ [->|[st [_ ->]]]]]; simpl; auto.
Qed.

Lemma reserveSeats_error session user expires dbNow labels acc w e :
  reserveSeats session user expires dbNow labels acc w = inl e ->
  seatFailure (session_id session) labels e.
Proof.
  revert acc w. induction labels as [|label rest IH]; simpl; intros acc w H.
  - discriminate.
  - destruct (lockSeat w (session_id session) label) as [seat|] eqn:El.
    + destruct (SeatStatus_eqb (seat_status seat) AVAILABLE) eqn:Es; simpl in H.
      * apply IH in H. destruct H as [l [Hl H]]. exists l. split; auto. now right.
      * inversion H. exists label. split; [now left|]. right.
        exists (seat_status seat). split; auto.
        intros Hst. rewrite Hst in Es. discriminate.
    + inversion H. exists label. split; [now left|]. now left.
Qed.

Lemma reserveSeats_must_fail session user expires dbNow s label labels :
  In label labels -> unavailable s (session_id session) label ->
  forall acc w,
    NoDup (map seat_id (seats w)) -> Forall2 heldRow (seats s) (seats w) ->
    exists e, reserveSeats session user expires dbNow labels acc w = inl e.
Proof.
  intros Hin Hbad. induction labels as [|l rest IH]; [destruct Hin|].
  intros acc w Hnd Hrel. simpl.
  pose proof (heldRows_lock (session_id session) l _ _ Hrel) as Hlock.
  simpl in Hlock. fold (lockSeat s (session_id session) l) in Hlock.
  fold (lockSeat w (session_id session) l) in Hlock.
  destruct (lockSeat s (session_id session) l) as [a|] eqn:Ea.
  - destruct Hlock as [b [Eb Hab]]. rewrite Eb.
    destruct (SeatStatus_eqb (seat_status b) AVAILABLE) eqn:Es; simpl; eauto.
    assert (Hb : seat_status b = AVAILABLE)
      by (destruct (seat_status b); simpl in Es; congruence).
    pose proof (heldRow_available _ _ Hab Hb) as Hba. subst b.
    destruct Hin as [->|Hin].
    + unfold unavailable in Hbad. rewrite Ea in Hbad. contradiction.
    + apply IH; auto; simpl.
      * rewrite update_keys. exact Hnd.
      * apply heldRows_save; auto.
        unfold lockSeat in Eb. apply find_some in Eb. tauto.
  - rewrite Hlock. eauto.
Qed.

(** C5. A Create-hold request for an absent session, or with a label whose
    seat is absent or not [AVAILABLE], fails with [NOT_FOUND] or [CONFLICT];
    and every failing request is rolled back: the committed store,
    seats and reservations alike, is the one before the call. *)
Theorem createReservation_no_partial_holds (ttl : Z) (now dbNow : Date)
    (dto : CreateReservationDto) (s : Store) :
  uniqueIds (map seat_id (seats s)) = true ->
  (forall s' e, createReservation ttl now dbNow dto s = (s', inl e) -> s' = s)
  /\ (findSession s (dto_sessionId dto) = None ->
      createReservation ttl now dbNow dto s
      = (s, inl (NotFoundException (SessionNotFound (dto_sessionId dto)))))
  /\ (forall session label,
        findSession s (dto_sessionId dto) = Some session ->
        In label (seatNumbers dto) ->
        unavailable s (session_id session) label ->
        exists e,
          createReservation ttl now dbNow dto s = (s, inl e)
          /\ seatFailure (session_id session) (seatNumbers dto) e
          /\ (kind_of e = NOT_FOUND \/ kind_of e = CONFLICT)).
Proof.
  intros Hu. apply uniqueIds_NoDup in Hu. unfold createReservation.
  split; [|split].
  - intros s' e.
    destruct (findSession s (dto_sessionId dto)) as [session|].
    + destruct (reserveSeats _ _ _ _ _ _ _) as [e'|[rs w]]; congruence.
    + congruence.
  - intros ->. reflexivity.
  - intros session label -> Hin Hbad.
    assert (Hin' : In label (sort (seatNumbers dto)))
      by (eapply Permutation_in; [apply Permutation_sym, sort_perm|exact Hin]).
    destruct (@reserveSeats_must_fail session (dto_userId dto)
                (now + ttl * 1000)%Z dbNow s label _ Hin' Hbad [] s Hu)
      as [e He].
    { clear. induction (seats s); constructor; auto. now left. }
    rewrite He. exists e. split; auto.
    apply reserveSeats_error in He.
    assert (Hf : seatFailure (session_id session) (seatNumbers dto) e).
    { destruct He as [l [Hl H]]. exists l. split; auto.
      eapply Permutation_in; [apply sort_perm|exact Hl]. }
    split; auto. eapply seatFailure_kind; eauto.
Qed.

Lemma createReservation_no_partial_holds_witness :
  exists e,
    createReservation 30 7000 7001
      (mkCreateReservationDto 1 ["A3"; "A1"]%string "u2") held = (held, inl e)
    /\ seatFailure 1 ["A3"; "A1"]%string e
    /\ (kind_of e = NOT_FOUND \/ kind_of e = CONFLICT).
Proof.
  refine (proj2 (proj2 (createReservation_no_partial_holds 30 7000 7001
            (mkCreateReservationDto 1 ["A3"; "A1"]%string "u2") held _))
            s16 "A1"%string _ _ _).
  - reflexivity.
  - reflexivity.
  - simpl. auto.
  - unfold unavailable. simpl. discriminate.
Defined.

(** ** Create hold: a label requested twice *)

Lemma heldRows_refl l : Forall2 heldRow l l.
Proof. induction l; constructor; auto. now left. Qed.

Lemma repeated_label (a : string) l :
  ~ NoDup (a :: l) -> In a l \/ ~ NoDup l.
Proof.
  intros H. destruct (in_dec string_dec a l) as [Hin|Hin]; auto.
  right. intros Hnd. apply H. now constructor.
Qed.

(** Once a label has been held in the transaction, the lock on the same
    label returns the seat as [RESERVED]. *)
Lemma lockSeat_after_hold w session label b :
  NoDup (map seat_id (seats w)) ->
  lockSeat w session label = Some b -> seat_status b = AVAILABLE ->
  lockSeat (saveSeat (set_seat_status RESERVED b) w) session label
  = Some (set_seat_status RESERVED b).
Proof.
  intros Hnd Hl Hb. unfold lockSeat in *. simpl.
  assert (Hin : In b (seats w)) by (apply find_some in Hl; tauto).
  pose proof (@heldRows_lock session label _ _
                (heldRows_save _ _ b Hnd (heldRows_refl (seats w)) Hin Hb))
    as H.
  simpl in H. rewrite Hl in H. destruct H as [b' [Hb' Hrel]].
  rewrite Hb'. f_equal.
  apply find_some in Hb'. destruct Hb' as [Hin' _].
  apply update_in in Hin'. destruct Hin' as [?|[_ Hne]]; auto.
  exfalso. apply Hne. simpl. now apply heldRow_id.
Qed.

Lemma reserveSeats_repeated session user expires dbNow labels :
  ~ NoDup labels ->
  forall acc w,
    NoDup (map seat_id (seats w)) ->
    exists e, reserveSeats session user expires dbNow labels acc w = inl e.
Proof.
  induction labels as [|l rest IH]; intros Hdup acc w Hnd.
  - exfalso. apply Hdup. constructor.
  - simpl.
    destruct (lockSeat w (session_id session) l) as [b|] eqn:El; eauto.
    destruct (SeatStatus_eqb (seat_status b) AVAILABLE) eqn:Es; simpl; eauto.
    assert (Hb : seat_status b = AVAILABLE)
      by (destruct (seat_status b); simpl in Es; congruence).
    assert (Hnd' : NoDup (map seat_id (update seat_id (set_seat_status RESERVED b)
                                               (seats w))))
      by (rewrite update_keys; exact Hnd).
    destruct (@repeated_label l rest Hdup) as [Hin|Hrest].
    + eapply reserveSeats_must_fail with
        (s := saveSeat (set_seat_status RESERVED b) w); eauto.
      * unfold unavailable.
        rewrite (@lockSeat_after_hold w (session_id session) l b Hnd El Hb).
        simpl. discriminate.
      * simpl. apply heldRows_refl.
    + apply IH; auto.
Qed.

(** ** The booking-group fingerprint *)

Lemma reserveSeats_expires session user expires dbNow labels :
  forall acc w rs w',
    reserveSeats session user expires dbNow labels acc w = inr (rs, w') ->
    Forall (fun r => rr_expiresAt r = expires) acc ->
    Forall (fun r => rr_expiresAt r = expires) rs.
Proof.
  induction labels as [|l rest IH]; simpl; intros acc w rs w' H Hacc.
  - inversion H. subst. exact Hacc.
  - destruct (lockSeat w (session_id session) l) as [b|]; [|discriminate].
    destruct (SeatStatus_eqb (seat_status b) AVAILABLE); simpl in H;
      [|discriminate].
    eapply IH; [exact H|]. apply Forall_app. split; auto.
Qed.

Lemma createReservation_expires ttl now dbNow dto s s' rs :
  createReservation ttl now dbNow dto s = (s', inr rs) ->
  Forall (fun r => rr_expiresAt r = (now + ttl * 1000)%Z) rs.
Proof.
  unfold createReservation.
  destruct (findSession s (dto_sessionId dto)) as [session|]; [|discriminate].
  destruct (reserveSeats _ _ _ _ _ _ _) as [e|[rs' w]] eqn:E; [discriminate|].
  intros H. inversion H. subst.
  eapply reserveSeats_expires; [exact E|constructor].
Qed.

Lemma lockRelated_in s user session expires r seat ss :
  In (r, seat, ss) (lockRelated s user session expires) ->
  userId r = user /\ sessionId seat = session /\ expiresAt r = expires
  /\ res_status r = PENDING.
Proof.
  unfold lockRelated. intros H. apply filter_In in H. destruct H as [_ H].
  repeat rewrite andb_true_iff in H. destruct H as [[[H1 H2] H3] H4].
  apply String.eqb_eq in H1. apply Nat.eqb_eq in H2. apply Z.eqb_eq in H3.
  repeat split; auto.
  destruct (res_status r); simpl in H4; congruence.
Qed.

(** C9, as the code has it. All reservations of one Create-hold call share
    [expiresAt = now + ttl * 1000], a millisecond value; two calls that read
    different clock values get different [expiresAt], and the sibling lookup
    of Confirm returns only reservations with the fingerprint it is given. *)
Theorem createReservation_fingerprint (ttl : Z) (now1 now2 db1 db2 : Date)
    (dto1 dto2 : CreateReservationDto) (s s1 s2 : Store)
    (rs1 rs2 : list ReservationResponseDto) :
  createReservation ttl now1 db1 dto1 s = (s1, inr rs1) ->
  createReservation ttl now2 db2 dto2 s1 = (s2, inr rs2) ->
  Forall (fun r => rr_expiresAt r = (now1 + ttl * 1000)%Z) rs1
  /\ Forall (fun r => rr_expiresAt r = (now2 + ttl * 1000)%Z) rs2
  /\ (now1 <> now2 ->
      forall r1 r2, In r1 rs1 -> In r2 rs2 ->
                    rr_expiresAt r1 <> rr_expiresAt r2)
  /\ (forall t user session expires r seat ss,
        In (r, seat, ss) (lockRelated t user session expires) ->
        userId r = user /\ sessionId seat = session
        /\ expiresAt r = expires /\ res_status r = PENDING).
Proof.
  intros H1 H2.
  pose proof (createReservation_expires _ _ _ _ _ _ _ H1) as E1.
  pose proof (createReservation_expires _ _ _ _ _ _ _ H2) as E2.
  repeat split; auto.
  - intros Hne r1 r2 Hr1 Hr2.
    rewrite Forall_forall in E1, E2.
    rewrite (E1 _ Hr1), (E2 _ Hr2). lia.
  - eapply lockRelated_in; eauto.
  - eapply lockRelated_in; eauto.
  - eapply lockRelated_in; eauto.
  - eapply lockRelated_in; eauto.
Qed.

Lemma createReservation_fingerprint_witness :
  Forall (fun r => rr_expiresAt r = (5000 + 30 * 1000)%Z)
         [mkReservationResponseDto 1 1 "A1" "u1" PENDING 35000 5001].
Proof.
  refine (proj1 (createReservation_fingerprint 30 5000 5007 5001 5008
            (mkCreateReservationDto 1 ["A1"]%string "u1")
            (mkCreateReservationDto 1 ["A2"]%string "u1")
            demo _ _ _ _ _ _)); reflexivity.
Defined.

(** Two calls by the same user for the same session that read the same
    millisecond get the same [expiresAt]; confirming the reservation of the
    first call then also confirms and sells the seat of the second. *)
Lemma same_millisecond_calls_share_fingerprint :
  let c1 := createReservation 30 5000 5001
              (mkCreateReservationDto 1 ["A1"]%string "u1") demo in
  let c2 := createReservation 30 5000 5002
              (mkCreateReservationDto 1 ["A2"]%string "u1") (fst c1) in
  let paid := confirmPayment 6000 6001 6002 (mkConfirmPaymentDto 1 "u1") (fst c2) in
  snd c1 = inr [mkReservationResponseDto 1 1 "A1" "u1" PENDING 35000 5001]
  /\ snd c2 = inr [mkReservationResponseDto 2 2 "A2" "u1" PENDING 35000 5002]
  /\ reservations (fst paid)
     = [mkReservation 1 1 "u1" CONFIRMED 35000 5001;
        mkReservation 2 2 "u1" CONFIRMED 35000 5002]
  /\ map reservationId (sales (fst paid)) = [1; 2].
Proof. repeat split; reflexivity. Qed.

(** ** Retry with backoff *)

Section RetryFacts.

Import RetryUtil.

Variables E T C : Type.
Variable instOf : E -> C -> bool.
Variable asError : E -> E.
Variable fn : nat -> E + T.
Variable opts : RequiredRetryOptions C.

(** [fn] is invoked at most [maxAttempts] times, every sleep is the capped
    exponential delay, and there is one sleep between two calls. *)
Lemma attempts_bounds remaining : forall attempt lastError slept,
  1 <= attempt ->
  attempt + remaining = r_maxAttempts opts + 1 ->
  List.length slept = attempt - 1 ->
  Forall (fun d => (d <= r_maxDelayMs opts)%Z) slept ->
  let run := attempts instOf asError fn opts remaining attempt lastError slept in
  calls run <= r_maxAttempts opts
  /\ (remaining <> 0 -> List.length (sleeps run) = calls run - 1)
  /\ Forall (fun d => (d <= r_maxDelayMs opts)%Z) (sleeps run).
Proof.
  induction remaining as [|k IH];
    intros attempt lastError slept H1 Hrem Hlen Hcap; simpl.
  - split; [lia|]. split; [congruence|exact Hcap].
  - destruct (fn attempt) as [e|v]; simpl.
    + destruct (negb (List.length (r_retryableErrors opts) =? 0)
                && negb (isRetryable instOf opts (asError e))); simpl.
      * split; [lia|]. split; auto.
      * destruct (r_maxAttempts opts <=? attempt) eqn:Emax; simpl.
        -- split; [lia|]. split; auto.
        -- apply Nat.leb_gt in Emax.
           specialize (IH (S attempt) (Some (asError e))
                          (slept ++ [delayMs opts attempt])).
           simpl in IH. destruct IH as [A [B D]].
           ++ lia.
           ++ lia.
           ++ rewrite length_app. simpl. lia.
           ++ apply Forall_app. split; auto. constructor; auto.
              unfold delayMs. apply Z.le_min_r.
           ++ split; [exact A|]. split; [|exact D].
              intros _. apply B. lia.
    + split; [lia|]. split; auto.
Qed.

(** An error outside a non-empty [retryableErrors] is thrown at once. *)
Lemma attempts_not_retryable remaining attempt lastError slept e :
  fn attempt = inl e ->
  r_retryableErrors opts <> [] ->
  isRetryable instOf opts (asError e) = false ->
  attempts instOf asError fn opts (S remaining) attempt lastError slept
  = mkRun attempt slept (thrown T (Some (asError e))).
Proof.
  intros Hf Hne Hr. simpl. rewrite Hf, Hr.
  destruct (r_retryableErrors opts); [contradiction|]. reflexivity.
Qed.

(** A whole call: at most [maxAttempts] invocations, one sleep between two
    of them, each at most [maxDelayMs]. *)
Lemma retry_bounds :
  1 <= r_maxAttempts opts ->
  let run := attempts instOf asError fn opts (r_maxAttempts opts) 1 None [] in
  calls run <= r_maxAttempts opts
  /\ List.length (sleeps run) = calls run - 1
  /\ Forall (fun d => (d <= r_maxDelayMs opts)%Z) (sleeps run).
Proof.
  intros Hmax.
  destruct (attempts_bounds (r_maxAttempts opts) 1 None []) as [A [B D]];
    auto; try lia.
  cbv zeta. split; [exact A|]. split; [apply B; lia|exact D].
Qed.

End RetryFacts.

(** C7. [retryWithBackoff] with the documented options, on a block that
    always fails with the store's [QueryFailedError]: the block runs three
    times, the sleeps are 100 ms and 200 ms, and the error is thrown after
    the third failure; no 400 ms delay is ever slept.  A [NOT_FOUND] is
    thrown at the first attempt, without sleeping.  With no options the cap
    is 5000 ms and every error is retried. *)
Theorem retryWithBackoff_documented_run :
  RetryUtil.retryWithBackoff instanceOf errorObject
    (fun _ => inl QueryFailedError : Failure + unit) documentedOptions
  = RetryUtil.mkRun 3 [100; 200]%Z (RetryUtil.thrown unit (Some QueryFailedError))
  /\ RetryUtil.retryWithBackoff instanceOf errorObject
       (fun _ => inl (Thrown (NotFoundException (SessionNotFound 7)))
                 : Failure + unit) documentedOptions
     = RetryUtil.mkRun 1 []
         (RetryUtil.thrown unit
            (Some (Thrown (NotFoundException (SessionNotFound 7)))))
  /\ RetryUtil.r_maxDelayMs (RetryUtil.withDefaults (RetryUtil.noOptions ErrorClass))
     = 5000%Z
  /\ RetryUtil.retryWithBackoff instanceOf errorObject
       (fun _ => inl (Thrown (NotFoundException (SessionNotFound 7)))
                 : Failure + unit) (RetryUtil.noOptions ErrorClass)
     = RetryUtil.mkRun 3 [100; 200]%Z
         (RetryUtil.thrown unit
            (Some (Thrown (NotFoundException (SessionNotFound 7))))).
Proof. repeat split; reflexivity. Qed.

(** ** The batched consumer *)

Section BatchFacts.

Import Batch.

Variables M W X : Type.
Variable expire : Id -> W -> W * (X + unit).

Lemma allSettled_length (items : list (BatchMessage Id M)) : forall w,
  List.length (snd (allSettled expire items w)) = List.length items.
Proof.
  induction items as [|i rest IH]; simpl; intros w; auto.
  destruct (expire (data i) w) as [w1 r].
  specialize (IH w1). destruct (allSettled expire rest w1). simpl in *. lia.
Qed.

Lemma no_rejection (results : list (X + unit)) :
  (0 <? List.length (filter (@isRejected X) results))
  = existsb (@isRejected X) results.
Proof.
  induction results as [|r rs IH]; simpl; auto.
  destruct (isRejected r); simpl; auto.
Qed.

(** C8, as the code has it. A flush of an idle, non-empty batch
    acknowledges every message of the batch when every expire call of the
    batch resolved, and otherwise negatively acknowledges every message of
    the batch with re-queue, the ones whose call resolved included. *)
Theorem flush_all_or_nothing (bp : BatchProcessor Id M) (w : W)
    (chan : list (ChannelOp M)) :
  let settled := allSettled expire (batch bp) w in
  flush (processExpirations expire) (bp, w, chan)
  = if processing bp || (List.length (batch bp) =? 0) then (bp, w, chan)
    else (mkBatchProcessor [] false (S (batchNumber bp)) (options bp),
          fst settled,
          chan ++ map (fun item =>
                         if existsb (@isRejected X) (snd settled)
                         then nack (message item) false true
                         else ack (message item))
                      (batch bp)).
Proof.
  simpl. unfold flush, processExpirations.
  destruct (processing bp || (List.length (batch bp) =? 0)); auto.
  destruct (allSettled expire (batch bp) w) as [w' results]. simpl.
  rewrite no_rejection.
  destruct (existsb (@isRejected X) results); reflexivity.
Qed.

(** Without batching the acknowledgement follows the message's own call. *)
Lemma handleReservationExpireSingle_own_outcome id (m : M) w chan :
  handleReservationExpireSingle expire id m (w, chan)
  = (fst (expire id w),
     chan ++ [if isRejected (snd (expire id w))
              then nack m false true else ack m]).
Proof.
  unfold handleReservationExpireSingle.
  destruct (expire id w) as [w' [x|u]]; reflexivity.
Qed.

End BatchFacts.

(** A batch of two expire messages on the held seats, the store aborting
    the transaction on reservation 2: the call for reservation 1 resolves
    and expires it, yet both messages are re-queued and none is
    acknowledged. *)
Lemma mixed_batch_requeues_successes :
  let bp := Batch.mkBatchProcessor
              [Batch.mkBatchMessage 1 101; Batch.mkBatchMessage 2 102]
              false 0 Batch.consumerOptions in
  let '(_, s', chan) :=
    Batch.flush (Batch.processExpirations (expireOrReject [2] 35001))
                (bp, held, []) in
  snd (Batch.allSettled (expireOrReject [2] 35001) (Batch.batch bp) held)
  = [inr tt; inl QueryFailedError]
  /\ map res_status (reservations s') = [EXPIRED; PENDING]
  /\ chan = [Batch.nack 101 false true; Batch.nack 102 false true]
  /\ ~ In (Batch.ack 101) chan.
Proof.
  simpl. repeat split; try reflexivity.
  intros [H|[H|[]]]; discriminate.
Qed.

(** ** The coherent stores *)

Lemma coherent_iff s :
  coherent s = true <->
  NoDup (map seat_id (seats s))
  /\ NoDup (map res_id (reservations s))
  /\ NoDup (map sale_id (sales s))
  /\ (forall x, In x (seats s) -> seatCoherent s x = true)
  /\ (forall x, In x (sales s) -> saleOfConfirmed s x = true).
Proof.
  unfold coherent. repeat rewrite andb_true_iff.
  repeat rewrite uniqueIds_NoDup. repeat rewrite forallb_forall. tauto.
Qed.

Lemma coherent_consistent s : coherent s = true -> consistent s = true.
Proof.
  intros H. apply coherent_iff in H. destruct H as [_ [_ [_ [H _]]]].
  unfold consistent. apply forallb_forall. intros x Hx.
  specialize (H x Hx). unfold seatCoherent, seatConsistent in *.
  destruct (seat_status x); repeat rewrite andb_true_iff in H;
    try rewrite andb_true_iff; tauto.
Qed.

Lemma provisioned_coherent s : provisioned s = true -> coherent s = true.
Proof.
  unfold provisioned. repeat rewrite andb_true_iff.
  intros [[[Hu Ha] Hr] Hs].
  apply Nat.eqb_eq in Hr, Hs.
  destruct (reservations s) eqn:Er; [|discriminate].
  destruct (sales s) eqn:Es; [|discriminate].
  unfold coherent. rewrite Er, Es, Hu. simpl.
  rewrite andb_true_r. apply forallb_forall. intros x Hx.
  rewrite forallb_forall in Ha. specialize (Ha x Hx).
  unfold seatCoherent, pendingOn, confirmedOn. rewrite Er.
  destruct (seat_status x); simpl in *; auto; discriminate.
Qed.

Lemma newId_fresh ids : ~ In (newId ids) ids.
Proof.
  unfold newId. intros H.
  assert (Hle : list_max ids <= list_max ids) by lia.
  apply list_max_le in Hle. rewrite Forall_forall in Hle.
  specialize (Hle _ H). lia.
Qed.

Lemma NoDup_snoc (A : Type) (l : list A) (a : A) :
  NoDup l -> ~ In a l -> NoDup (l ++ [a]).
Proof.
  intros Hl Ha. induction l as [|x l IH]; simpl.
  - constructor; [intros []|constructor].
  - inversion Hl; subst. constructor.
    + intros H. apply in_app_or in H. destruct H as [H|[H|[]]]; auto.
      subst. apply Ha. now left.
    + apply IH; auto. intros H. apply Ha. now right.
Qed.

Section TableUnique.

Variable A : Type.
Variable key : A -> Id.

Lemma lookup_unique l a :
  NoDup (map key l) -> In a l -> lookup key (key a) l = Some a.
Proof.
  unfold lookup. intros Hnd Hin.
  induction l as [|x l IH]; simpl in *; [contradiction|].
  inversion Hnd as [|? ? Hx Hnd']; subst.
  destruct Hin as [->|Hin].
  - now rewrite Nat.eqb_refl.
  - destruct (key x =? key a) eqn:E; auto.
    apply Nat.eqb_eq in E. exfalso. apply Hx. rewrite E. now apply in_map.
Qed.

Lemma unique_row l a b :
  NoDup (map key l) -> In a l -> In b l -> key a = key b -> a = b.
Proof.
  intros Hnd Ha Hb E.
  pose proof (lookup_unique l a Hnd Ha) as H1.
  pose proof (lookup_unique l b Hnd Hb) as H2.
  rewrite E in H1. congruence.
Qed.

Lemma update_at l a a0 :
  NoDup (map key l) -> In a0 l -> key a = key a0 ->
  exists l1 l2, l = l1 ++ a0 :: l2 /\ update key a l = l1 ++ a :: l2.
Proof.
  intros Hnd Hin Hk. apply in_split in Hin. destruct Hin as [l1 [l2 ->]].
  exists l1, l2. split; auto. now apply update_split.
Qed.

End TableUnique.

Lemma filter_length_mid (A : Type) (p : A -> bool) l1 a l2 :
  List.length (filter p (l1 ++ a :: l2))
  = List.length (filter p l1) + (if p a then 1 else 0)
    + List.length (filter p l2).
Proof.
  rewrite filter_app, length_app. simpl. destruct (p a); simpl; lia.
Qed.

Lemma filter_mid_out (A : Type) (p : A -> bool) l1 a a' l2 :
  p a = false -> p a' = false ->
  filter p (l1 ++ a' :: l2) = filter p (l1 ++ a :: l2).
Proof.
  intros H H'. repeat rewrite filter_app. simpl. now rewrite H, H'.
Qed.

Lemma filter_in_length (A : Type) (p : A -> bool) l a :
  In a l -> p a = true -> 1 <= List.length (filter p l).
Proof.
  intros Hin Hp.
  assert (H : In a (filter p l)) by (apply filter_In; auto).
  destruct (filter p l); [destruct H|simpl; lia].
Qed.

Lemma length_zero_nil (A : Type) (l : list A) : List.length l = 0 -> l = [].
Proof. destruct l; simpl; auto; discriminate. Qed.

Lemma status_pending r : isPending r = true <-> res_status r = PENDING.
Proof. unfold isPending. destruct (res_status r); simpl; split; congruence. Qed.

Lemma status_confirmed r : isConfirmed r = true <-> res_status r = CONFIRMED.
Proof. unfold isConfirmed. destruct (res_status r); simpl; split; congruence. Qed.

(** In a coherent store the seat of a [PENDING] reservation is [RESERVED]
    and no sale references the reservation. *)
Lemma pending_seat_reserved s r seat :
  coherent s = true -> In r (reservations s) -> res_status r = PENDING ->
  findSeat s (seatId r) = Some seat -> seat_status seat = RESERVED.
Proof.
  intros Hc Hin Hp Hs. apply coherent_iff in Hc.
  destruct Hc as [_ [_ [_ [Hseat _]]]].
  apply lookup_some in Hs. destruct Hs as [Hsin Hk].
  specialize (Hseat _ Hsin). unfold seatCoherent in Hseat.
  assert (Hone : 1 <= List.length (pendingOn s (seat_id seat))).
  { unfold pendingOn. eapply filter_in_length; [exact Hin|].
    rewrite Hk, Nat.eqb_refl. simpl. now apply status_pending. }
  destruct (seat_status seat); auto;
    repeat rewrite andb_true_iff in Hseat;
    repeat rewrite Nat.eqb_eq in Hseat; lia.
Qed.

Lemma pending_no_sale s r :
  coherent s = true -> In r (reservations s) -> res_status r = PENDING ->
  salesOf s (res_id r) = [].
Proof.
  intros Hc Hin Hp. apply coherent_iff in Hc.
  destruct Hc as [_ [Hnd [_ [_ Hsale]]]].
  unfold salesOf. destruct (filter _ (sales s)) as [|x l] eqn:E; auto.
  exfalso.
  assert (Hx : In x (filter (fun x => reservationId x =? res_id r) (sales s)))
    by (rewrite E; now left).
  apply filter_In in Hx. destruct Hx as [Hx Hid]. apply Nat.eqb_eq in Hid.
  specialize (Hsale _ Hx). unfold saleOfConfirmed in Hsale.
  apply existsb_exists in Hsale. destruct Hsale as [r0 [Hr0 H0]].
  apply andb_true_iff in H0. destruct H0 as [H0 H1].
  apply Nat.eqb_eq in H0. apply status_confirmed in H1.
  assert (r0 = r) by (eapply unique_row; eauto; congruence).
  subst. congruence.
Qed.

(** ** Each write keeps the store coherent *)

Lemma seatCoherent_ext s s' x x' :
  seat_status x' = seat_status x -> seat_id x' = seat_id x ->
  pendingOn s' (seat_id x) = pendingOn s (seat_id x) ->
  confirmedOn s' (seat_id x) = confirmedOn s (seat_id x) ->
  oneSaleEach s' (confirmedOn s (seat_id x))
  = oneSaleEach s (confirmedOn s (seat_id x)) ->
  seatCoherent s' x' = seatCoherent s x.
Proof.
  intros Hst Hid Hp Hc Hs. unfold seatCoherent.
  rewrite Hst, Hid, Hp, Hc, Hs. reflexivity.
Qed.

Lemma saleOfConfirmed_kept s s' x :
  (forall r, In r (reservations s) -> res_status r = CONFIRMED ->
             In r (reservations s')) ->
  saleOfConfirmed s x = true -> saleOfConfirmed s' x = true.
Proof.
  intros Hk H. unfold saleOfConfirmed in *.
  apply existsb_exists in H. destruct H as [r [Hr H]].
  apply existsb_exists. exists r. split; auto.
  apply andb_true_iff in H. destruct H as [_ H].
  apply status_confirmed in H. auto.
Qed.

(** Holding an [AVAILABLE] seat. *)
Lemma hold_coherent w b user expires dbNow :
  coherent w = true -> In b (seats w) -> seat_status b = AVAILABLE ->
  coherent (snd (insertReservation (seat_id b) user PENDING expires dbNow
                   (saveSeat (set_seat_status RESERVED b) w))) = true.
Proof.
  intros Hc Hin Hb. apply coherent_iff in Hc.
  destruct Hc as [Hs [Hr [Hsa [Hseat Hsale]]]].
  apply coherent_iff. unfold insertReservation, saveSeat. cbn [snd seats
    reservations sales sessions].
  set (r := mkReservation (newId (map res_id (reservations w))) (seat_id b)
                          user PENDING expires dbNow).
  set (w' := mkStore _ _ _ _).
  assert (Hp : forall k, pendingOn w' k
                         = pendingOn w k ++ (if seat_id b =? k then [r] else [])).
  { intros k. unfold pendingOn, w'. cbn [reservations].
    rewrite filter_app. f_equal. cbn. destruct (seat_id b =? k); reflexivity. }
  assert (Hcf : forall k, confirmedOn w' k = confirmedOn w k).
  { intros k. unfold confirmedOn, w'. cbn [reservations].
    rewrite filter_app. cbn. rewrite andb_false_r. apply app_nil_r. }
  assert (Hso : forall l, oneSaleEach w' l = oneSaleEach w l) by reflexivity.
  split; [|split; [|split; [|split]]].
  - rewrite update_keys. exact Hs.
  - rewrite map_app. apply NoDup_snoc; auto. apply newId_fresh.
  - exact Hsa.
  - intros x Hx. apply update_in in Hx.
    change (seat_id (set_seat_status RESERVED b)) with (seat_id b) in Hx.
    destruct Hx as [->|[Hx Hne]].
    + specialize (Hseat _ Hin). unfold seatCoherent in *. rewrite Hb in Hseat.
      cbn [seat_status set_seat_status seat_id].
      rewrite Hp, Hcf, Nat.eqb_refl, length_app.
      apply andb_true_iff in Hseat. destruct Hseat as [H1 H2].
      apply Nat.eqb_eq in H1. rewrite H1, H2. reflexivity.
    + rewrite <- (Hseat _ Hx). apply seatCoherent_ext; auto.
      rewrite Hp. destruct (seat_id b =? seat_id x) eqn:E.
      * apply Nat.eqb_eq in E. congruence.
      * apply app_nil_r.
  - intros x Hx. eapply saleOfConfirmed_kept; [|apply Hsale; exact Hx].
    intros r0 Hr0 _. unfold w'. cbn [reservations]. apply in_or_app. now left.
Qed.

(** A [PENDING] reservation of a coherent store, loaded with its seat, leaves
    [PENDING]; its seat takes the matching status. *)
Section Settle.

Variables (w : Store) (r : Reservation) (seat : Seat).
Hypothesis Hc : coherent w = true.
Hypothesis Hin : In r (reservations w).
Hypothesis Hp : res_status r = PENDING.
Hypothesis Hs : findSeat w (seatId r) = Some seat.

Variables (st : ReservationStatus) (sst : SeatStatus) (rest' : list Sale).
Hypothesis Hst : st <> PENDING.

Let w' : Store :=
  mkStore (sessions w)
          (update seat_id (set_seat_status sst seat) (seats w))
          (update res_id (set_res_status st r) (reservations w))
          (sales w ++ rest').

Lemma settle_seat_id : seat_id seat = seatId r.
Proof. apply lookup_some in Hs. tauto. Qed.

Lemma settle_other_seat k :
  k <> seatId r ->
  pendingOn w' k = pendingOn w k /\ confirmedOn w' k = confirmedOn w k.
Proof.
  intros Hk. apply coherent_iff in Hc. destruct Hc as [_ [Hr _]].
  destruct (update_at _ res_id (reservations w) (set_res_status st r) r Hr Hin
              eq_refl) as [l1 [l2 [E1 E2]]].
  unfold pendingOn, confirmedOn, w'. cbn [reservations]. rewrite E2, E1.
  assert (E : (seatId r =? k) = false) by (apply Nat.eqb_neq; auto).
  split; apply filter_mid_out; cbn; rewrite E; reflexivity.
Qed.

Lemma settle_own_seat :
  seat_status seat = RESERVED
  /\ pendingOn w' (seatId r) = []
  /\ confirmedOn w' (seatId r)
     = if ReservationStatus_eqb st CONFIRMED then [set_res_status st r] else [].
Proof.
  pose proof (pending_seat_reserved w r seat Hc Hin Hp Hs) as Hres.
  pose proof settle_seat_id as Hid.
  apply coherent_iff in Hc. destruct Hc as [_ [Hr [_ [Hseat _]]]].
  apply lookup_some in Hs. destruct Hs as [Hsin _].
  specialize (Hseat _ Hsin). unfold seatCoherent in Hseat.
  rewrite Hres, Hid in Hseat. apply andb_true_iff in Hseat.
  destruct Hseat as [H1 H0]. apply Nat.eqb_eq in H1, H0.
  destruct (update_at _ res_id (reservations w) (set_res_status st r) r Hr Hin
              eq_refl) as [l1 [l2 [E1 E2]]].
  unfold pendingOn, confirmedOn in *. unfold w'. cbn [reservations].
  rewrite E1 in H1, H0. rewrite E2.
  rewrite filter_length_mid in H1, H0.
  split; auto. split.
  - apply length_zero_nil. rewrite filter_length_mid.
    cbn [seatId set_res_status] in *. rewrite Nat.eqb_refl in *.
    assert (E : isPending r = true) by (now apply status_pending).
    rewrite E in H1. cbn in H1.
    assert (E' : isPending (set_res_status st r) = false).
    { unfold isPending. cbn. destruct st; auto. contradiction. }
    rewrite E'. cbn. lia.
  - repeat rewrite filter_app. cbn [filter seatId set_res_status].
    rewrite Nat.eqb_refl. cbn [andb].
    assert (Hl1 : filter (fun r0 => (seatId r0 =? seatId r) && isConfirmed r0) l1 = [])
      by (apply length_zero_nil; lia).
    assert (Hl2 : filter (fun r0 => (seatId r0 =? seatId r) && isConfirmed r0) l2 = [])
      by (apply length_zero_nil; lia).
    rewrite Hl1, Hl2. unfold isConfirmed. cbn.
    destruct (ReservationStatus_eqb st CONFIRMED); reflexivity.
Qed.

Lemma settle_confirmed_kept r0 :
  In r0 (reservations w) -> res_status r0 = CONFIRMED ->
  In r0 (reservations w').
Proof.
  intros H0 Hc0. unfold w'. cbn [reservations].
  apply update_other; auto. cbn. intros E.
  apply coherent_iff in Hc. destruct Hc as [_ [Hr _]].
  assert (r0 = r) by (eapply unique_row; eauto).
  subst. congruence.
Qed.

Lemma forallb_ext_in (A : Type) (f g : A -> bool) l :
  (forall x, In x l -> f x = g x) -> forallb f l = forallb g l.
Proof.
  induction l as [|a l IH]; simpl; intros H; auto.
  rewrite (H a), IH; auto.
Qed.

Hypothesis Hmode :
  (st = EXPIRED /\ sst = AVAILABLE /\ rest' = [])
  \/ (st = CONFIRMED /\ sst = SOLD
      /\ exists x, rest' = [x] /\ reservationId x = res_id r
                   /\ sale_id x = newId (map sale_id (sales w))).

Lemma settle_sales_of_others r0 :
  In r0 (reservations w) -> res_status r0 = CONFIRMED ->
  salesOf w' (res_id r0) = salesOf w (res_id r0).
Proof.
  intros H0 Hc0. unfold salesOf, w'. cbn [sales]. rewrite filter_app.
  destruct Hmode as [[_ [_ ->]]|[_ [_ [x [-> [Hx _]]]]]]; cbn.
  - apply app_nil_r.
  - rewrite Hx. destruct (res_id r =? res_id r0) eqn:E; [|apply app_nil_r].
    apply Nat.eqb_eq in E. apply coherent_iff in Hc. destruct Hc as [_ [Hr _]].
    assert (r = r0) by (eapply unique_row; eauto).
    subst. congruence.
Qed.

Lemma settle_coherent : coherent w' = true.
Proof.
  pose proof settle_seat_id as Hid.
  pose proof settle_own_seat as [Hres [Hown Hconf]].
  pose proof (pending_no_sale w r Hc Hin Hp) as Hnone.
  pose proof Hc as Hc'. apply coherent_iff in Hc'.
  destruct Hc' as [Hse [Hr [Hsa [Hseat Hsale]]]].
  apply coherent_iff. unfold w' at 1 2 3. cbn [seats reservations sales].
  split; [|split; [|split; [|split]]].
  - rewrite update_keys. exact Hse.
  - rewrite update_keys. exact Hr.
  - destruct Hmode as [[_ [_ ->]]|[_ [_ [x [-> [_ Hx]]]]]].
    + rewrite app_nil_r. exact Hsa.
    + rewrite map_app. cbn. rewrite Hx. apply NoDup_snoc; auto.
      apply newId_fresh.
  - intros x Hx. apply update_in in Hx.
    change (seat_id (set_seat_status sst seat)) with (seat_id seat) in Hx.
    destruct Hx as [->|[Hx Hne]].
    + unfold seatCoherent. cbn [seat_status set_seat_status seat_id].
      rewrite Hid, Hown, Hconf.
      destruct Hmode as [[-> [-> _]]|[-> [-> [x [E [Hx _]]]]]]; cbn; auto.
      unfold salesOf, w'. cbn [sales]. rewrite filter_app.
      unfold salesOf in Hnone. rewrite Hnone, E. cbn.
      rewrite Hx, Nat.eqb_refl. reflexivity.
    + rewrite <- (Hseat _ Hx).
      assert (Hk : seat_id x <> seatId r) by congruence.
      destruct (settle_other_seat (seat_id x) Hk) as [E1 E2].
      apply seatCoherent_ext; auto.
      unfold oneSaleEach. apply forallb_ext_in. intros r0 Hr0.
      unfold confirmedOn in Hr0. apply filter_In in Hr0.
      destruct Hr0 as [Hr0 Hq]. apply andb_true_iff in Hq.
      destruct Hq as [_ Hq]. apply status_confirmed in Hq.
      now rewrite settle_sales_of_others.
  - intros x Hx. apply in_app_or in Hx. destruct Hx as [Hx|Hx].
    + eapply saleOfConfirmed_kept; [|apply Hsale; exact Hx].
      apply settle_confirmed_kept.
    + destruct Hmode as [[_ [_ ->]]|[-> [_ [y [-> [Hy _]]]]]]; [destruct Hx|].
      destruct Hx as [<-|[]]. unfold saleOfConfirmed.
      apply existsb_exists. exists (set_res_status CONFIRMED r). split.
      * unfold w'. cbn [reservations]. unfold update. apply in_map_iff.
        exists r. split; auto. cbn. now rewrite Nat.eqb_refl.
      * cbn. rewrite Hy, Nat.eqb_refl. reflexivity.
Qed.

End Settle.

(** ** The three operations keep the store coherent *)

Lemma expireReservation_coherent now id s :
  coherent s = true -> coherent (expireReservation now id s) = true.
Proof.
  intros Hc. destruct (expirable now id s) eqn:E.
  - destruct (expireReservation_acts _ _ _ E) as [r [seat [Hl [Hp [_ ->]]]]].
    destruct (lockReservationWithSeat_some _ _ _ _ Hl) as [Hin [_ Hs]].
    pose proof (settle_coherent s r seat Hc Hin Hp Hs EXPIRED AVAILABLE [])
      as H.
    cbn zeta in H. rewrite app_nil_r in H. apply H.
    + discriminate.
    + left. auto.
  - now rewrite (expireReservation_skips _ _ _ E).
Qed.

Lemma reserveSeats_coherent session user expires dbNow labels :
  forall acc w rs w',
    coherent w = true ->
    reserveSeats session user expires dbNow labels acc w = inr (rs, w') ->
    coherent w' = true.
Proof.
  induction labels as [|l rest IH]; simpl; intros acc w rs w' Hc H.
  - inversion H. subst. exact Hc.
  - destruct (lockSeat w (session_id session) l) as [b|] eqn:El;
      [|discriminate].
    destruct (SeatStatus_eqb (seat_status b) AVAILABLE) eqn:Es; simpl in H;
      [|discriminate].
    eapply IH; [|exact H].
    apply (hold_coherent w b user expires dbNow Hc).
    + unfold lockSeat in El. apply find_some in El. tauto.
    + destruct (seat_status b); simpl in Es; congruence.
Qed.

Lemma createReservation_coherent ttl now dbNow dto s :
  coherent s = true ->
  coherent (fst (createReservation ttl now dbNow dto s)) = true.
Proof.
  intros Hc. unfold createReservation.
  destruct (findSession s (dto_sessionId dto)) as [session|]; auto.
  destruct (reserveSeats _ _ _ _ _ _ _) as [e|[rs w]] eqn:E; auto.
  simpl. eapply reserveSeats_coherent; eauto.
Qed.

(** ** One turn of the Confirm loop *)

Lemma length_one_same (A : Type) (l : list A) a b :
  List.length l = 1 -> In a l -> In b l -> a = b.
Proof.
  destruct l as [|x [|y l]]; simpl; try discriminate.
  intros _ [<-|[]] [<-|[]]. reflexivity.
Qed.

Section ConfirmStep.

Variables (paid dbNow : Date) (w : Store).
Variables (r : Reservation) (seat : Seat) (session : Session).
Hypothesis Hc : coherent w = true.
Hypothesis Hl : loadedIn w (r, seat, session).

Let w3 : Store :=
  snd (insertSale (seat_id seat) (userId r) (res_id r) (ticketPrice session)
         paid dbNow
         (saveSeat (set_seat_status SOLD seat)
            (saveReservation (set_res_status CONFIRMED r) w))).

Let savedSale : Sale :=
  fst (insertSale (seat_id seat) (userId r) (res_id r) (ticketPrice session)
         paid dbNow
         (saveSeat (set_seat_status SOLD seat)
            (saveReservation (set_res_status CONFIRMED r) w))).

Lemma confirm_step_coherent : coherent w3 = true.
Proof.
  destruct Hl as [Hin [Hp [Hs _]]].
  apply (settle_coherent w r seat Hc Hin Hp Hs CONFIRMED SOLD [savedSale]).
  - discriminate.
  - right. repeat split; auto. exists savedSale. repeat split; auto.
Qed.

Lemma confirm_step_sessions : sessions w3 = sessions w.
Proof. reflexivity. Qed.

Lemma confirm_step_sales x : In x (sales w) \/ x = savedSale <-> In x (sales w3).
Proof.
  unfold w3. cbn. rewrite in_app_iff. cbn. intuition.
Qed.

Lemma confirm_step_sale : reservationId savedSale = res_id r.
Proof. reflexivity. Qed.

Lemma confirm_step_done : confirmedIn paid w3 (r, seat, session).
Proof.
  destruct Hl as [Hin [Hp [Hs _]]].
  pose proof Hc as Hc'. apply coherent_iff in Hc'.
  destruct Hc' as [_ [Hr _]].
  unfold confirmedIn, w3. cbn. split; [|split].
  - eapply lookup_update_hit; [|reflexivity].
    apply (lookup_unique _ res_id _ _ Hr Hin).
  - unfold findSeat in *.
    apply (lookup_update_hit _ seat_id (seatId r) (seats w) seat
             (set_seat_status SOLD seat) Hs).
    apply lookup_some in Hs. cbn. tauto.
  - eexists. split.
    + unfold salesOf. cbn. rewrite filter_app.
      pose proof (pending_no_sale w r Hc Hin Hp) as Hn. unfold salesOf in Hn.
      rewrite Hn. cbn. rewrite Nat.eqb_refl. reflexivity.
    + repeat split; reflexivity.
Qed.

Lemma confirm_step_stable j : confirmedIn paid w j -> confirmedIn paid w3 j.
Proof.
  destruct Hl as [Hin [Hp [Hs _]]].
  pose proof Hc as Hc'. apply coherent_iff in Hc'.
  destruct Hc' as [_ [Hr _]].
  destruct j as [[g gseat] gss]. unfold confirmedIn.
  intros [H1 [H2 [sale [H3 H4]]]].
  assert (Hid : res_id g <> res_id r).
  { intros E. rewrite E in H1.
    rewrite (lookup_unique _ res_id _ _ Hr Hin) in H1.
    inversion H1 as [E']. rewrite E' in Hp. discriminate. }
  assert (Hseat : seatId g <> seat_id seat).
  { intros E. pose proof (pending_seat_reserved w r seat Hc Hin Hp Hs) as Hres.
    apply lookup_some in Hs as Hk. destruct Hk as [_ Hk].
    rewrite E, Hk in H2. unfold findSeat in Hs. unfold findSeat in H2.
    rewrite Hs in H2. inversion H2 as [E']. rewrite E' in Hres. discriminate. }
  unfold w3, insertSale, saveSeat, saveReservation.
  cbn [snd reservations seats sales sessions]. split; [|split].
  - rewrite lookup_update_miss; auto; cbn; congruence.
  - unfold findSeat in *. cbn [seats].
    rewrite lookup_update_miss; auto; cbn; congruence.
  - exists sale. split; auto. unfold salesOf in *. cbn [sales].
    rewrite filter_app, H3.
    cbn. destruct (res_id r =? res_id g) eqn:E; auto.
    apply Nat.eqb_eq in E. congruence.
Qed.

Lemma confirm_step_loaded j :
  loadedIn w j -> groupId j <> res_id r -> loadedIn w3 j.
Proof.
  destruct Hl as [Hin [Hp [Hs _]]].
  pose proof (pending_seat_reserved w r seat Hc Hin Hp Hs) as Hres.
  pose proof Hc as Hc'. apply coherent_iff in Hc'.
  destruct Hc' as [_ [Hr [_ [Hseat _]]]].
  destruct j as [[g gseat] gss]. unfold loadedIn, groupId. cbn [fst].
  intros [Gin [Gp [Gs Gss]]] Hne.
  unfold w3, insertSale, saveSeat, saveReservation.
  cbn [snd reservations seats sales sessions].
  split; [|split; [|split]]; auto.
  - apply update_other; auto.
  - unfold findSeat in *. cbn [seats]. rewrite lookup_update_miss; auto. cbn.
    intros E. apply Hne.
    apply lookup_some in Hs as Hk. destruct Hk as [Hsin Hk].
    specialize (Hseat _ Hsin). unfold seatCoherent in Hseat.
    rewrite Hres in Hseat. apply andb_true_iff in Hseat.
    destruct Hseat as [H1 _]. apply Nat.eqb_eq in H1.
    f_equal. apply (length_one_same _ _ g r H1); unfold pendingOn;
      apply filter_In; split; auto.
    + rewrite <- E, Nat.eqb_refl. cbn. now apply status_pending.
    + rewrite Hk, Nat.eqb_refl. cbn. now apply status_pending.
Qed.

End ConfirmStep.

(** ** The Confirm loop *)

Lemma confirmAll_spec paid dbNow group : forall acc w,
  coherent w = true -> Forall (loadedIn w) group ->
  NoDup (map groupId group) ->
  let res := confirmAll paid dbNow group acc w in
  coherent (snd res) = true
  /\ sessions (snd res) = sessions w
  /\ Forall (confirmedIn paid (snd res)) group
  /\ (forall j, confirmedIn paid w j -> confirmedIn paid (snd res) j)
  /\ (forall x, In x acc -> In x (fst res))
  /\ (forall j, In j group ->
        exists x, In x (fst res) /\ reservationId x = groupId j
                  /\ In x (sales (snd res)))
  /\ (forall x, In x (sales w) -> In x (sales (snd res)))
  /\ (forall x, In x (fst res) -> In x acc \/ In x (sales (snd res))).
Proof.
  induction group as [|[[r seat] session] rest IH]; intros acc w Hc Hl Hnd.
  - simpl. repeat split; auto. intros j [].
  - inversion Hl as [|? ? Hhead Hrest]; subst.
    inversion Hnd as [|? ? Hfresh Hnd']; subst.
    cbn [confirmAll].
    set (step := insertSale (seat_id seat) (userId r) (res_id r)
                   (ticketPrice session) paid dbNow
                   (saveSeat (set_seat_status SOLD seat)
                      (saveReservation (set_res_status CONFIRMED r) w))).
    assert (Estep : step = (fst step, snd step)) by reflexivity.
    rewrite Estep.
    pose proof (confirm_step_coherent paid dbNow w r seat session Hc Hhead) as Hc3.
    pose proof (confirm_step_done paid dbNow w r seat session Hc Hhead) as Hdone.
    pose proof (confirm_step_stable paid dbNow w r seat session Hc Hhead) as Hst.
    pose proof (confirm_step_loaded paid dbNow w r seat session Hc Hhead) as Hld.
    pose proof (confirm_step_sales paid dbNow w r seat session) as Hsales.
    cbv zeta in Hc3, Hdone, Hst, Hld, Hsales. fold step in Hc3, Hdone, Hst, Hld, Hsales.
    assert (Hrest' : Forall (loadedIn (snd step)) rest).
    { rewrite Forall_forall in *. intros j Hj. apply Hld; auto.
      intros E. apply Hfresh. change (res_id r) with (groupId (r, seat, session)) in E.
      rewrite <- E. now apply in_map. }
    destruct (IH (acc ++ [fst step]) (snd step) Hc3 Hrest' Hnd')
      as [A [B [C [D [F [G [H K]]]]]]].
    split; [exact A|]. split; [rewrite B; reflexivity|].
    split; [constructor; auto|].
    split; [intros j Hj; auto|].
    split; [intros x Hx; apply F, in_or_app; now left|].
    split; [|split].
    + intros j [<-|Hj]; auto.
      exists (fst step). split; [apply F, in_or_app; right; now left|].
      split; [reflexivity|]. apply H, Hsales. now right.
    + intros x Hx. apply H, Hsales. now left.
    + intros x Hx. destruct (K x Hx) as [Hacc|Hin]; auto.
      apply in_app_or in Hacc. destruct Hacc as [Hacc|[<-|[]]]; auto.
      right. apply H, Hsales. now right.
Qed.

Lemma joinSeatSession_in s x j :
  In j (joinSeatSession s x) ->
  exists seat session,
    j = (x, seat, session) /\ findSeat s (seatId x) = Some seat
    /\ findSession s (sessionId seat) = Some session.
Proof.
  unfold joinSeatSession.
  destruct (findSeat s (seatId x)) as [seat|] eqn:Es; [|intros []].
  destruct (findSession s (sessionId seat)) as [session|] eqn:Ess; [|intros []].
  intros [<-|[]]. exists seat, session. auto.
Qed.

Lemma lockRelated_loaded s user session expires :
  Forall (loadedIn s) (lockRelated s user session expires).
Proof.
  apply Forall_forall. intros [[r seat] ss] Hj.
  pose proof (lockRelated_in _ _ _ _ _ _ _ Hj) as [_ [_ [_ Hp]]].
  unfold lockRelated in Hj. apply filter_In in Hj. destruct Hj as [Hj _].
  apply in_flat_map in Hj. destruct Hj as [x [Hx Hj]].
  apply joinSeatSession_in in Hj. destruct Hj as [seat' [ss' [E [Hs Hss]]]].
  inversion E; subst. unfold loadedIn. auto.
Qed.

Lemma lockRelated_unique s user session expires :
  NoDup (map res_id (reservations s)) ->
  NoDup (map groupId (lockRelated s user session expires)).
Proof.
  unfold lockRelated. generalize (reservations s) as l.
  set (q := fun j : Loaded => _).
  induction l as [|x l IH]; intros Hnd; [constructor|].
  inversion Hnd as [|? ? Hx Hnd']; subst.
  cbn [flat_map]. rewrite filter_app, map_app.
  assert (Hsub : forall k, In k (map groupId (filter q (flat_map (joinSeatSession s) l)))
                           -> In k (map res_id l)).
  { intros k Hk. apply in_map_iff in Hk. destruct Hk as [j [<- Hj]].
    apply filter_In in Hj. destruct Hj as [Hj _].
    apply in_flat_map in Hj. destruct Hj as [y [Hy Hj]].
    apply joinSeatSession_in in Hj. destruct Hj as [? [? [-> _]]].
    exact (in_map res_id _ _ Hy). }
  assert (Hhead : map groupId (filter q (joinSeatSession s x)) = []
                  \/ map groupId (filter q (joinSeatSession s x)) = [res_id x]).
  { unfold joinSeatSession.
    destruct (findSeat s (seatId x)) as [seat|]; auto.
    destruct (findSession s (sessionId seat)) as [ss|]; auto.
    cbn [filter]. destruct (q (x, seat, ss)); auto. }
  destruct Hhead as [->| ->]; cbn; auto.
  constructor; auto.
Qed.

Lemma lockReservation_some s id user r seat session :
  lockReservation s id user = Some (r, seat, session) ->
  loadedIn s (r, seat, session) \/ res_status r <> PENDING.
Proof.
  intros H. destruct (ReservationStatus_eqb (res_status r) PENDING) eqn:E.
  - left. unfold lockReservation in H. apply find_some in H.
    destruct H as [Hj _]. apply in_flat_map in Hj. destruct Hj as [x [Hx Hj]].
    apply joinSeatSession_in in Hj. destruct Hj as [seat' [ss' [Ej [Hs Hss]]]].
    inversion Ej; subst. unfold loadedIn. repeat split; auto.
    destruct (res_status x); simpl in E; congruence.
  - right. intros Hp. rewrite Hp in E. discriminate.
Qed.

(** ** Confirm on a pending reservation *)

Lemma find_exists (A : Type) (p : A -> bool) l a :
  In a l -> p a = true -> exists b, find p l = Some b.
Proof.
  induction l as [|x l IH]; simpl; [intros []|].
  intros [->|Hin] Hp.
  - rewrite Hp. eauto.
  - destruct (p x); eauto.
Qed.

Lemma lookup_first (A : Type) (key : A -> Id) k l a rest :
  filter (fun x => key x =? k) l = a :: rest -> lookup key k l = Some a.
Proof.
  unfold lookup. induction l as [|x l IH]; simpl; [discriminate|].
  destruct (key x =? k); auto. congruence.
Qed.

Lemma lockReservation_target s id user r seat session :
  lockReservation s id user = Some (r, seat, session) ->
  res_id r = id /\ userId r = user
  /\ findSeat s (seatId r) = Some seat
  /\ findSession s (sessionId seat) = Some session
  /\ (res_status r = PENDING ->
      In (r, seat, session)
         (lockRelated s (userId r) (sessionId seat) (expiresAt r))).
Proof.
  intros H. unfold lockReservation in H. apply find_some in H.
  destruct H as [Hj Hq]. apply andb_true_iff in Hq. destruct Hq as [Hi Hu].
  apply Nat.eqb_eq in Hi. apply String.eqb_eq in Hu.
  pose proof Hj as Hj'. apply in_flat_map in Hj'. destruct Hj' as [x [Hx Hjx]].
  apply joinSeatSession_in in Hjx. destruct Hjx as [seat' [ss' [E [Hs Hss]]]].
  inversion E; subst. repeat split; auto.
  intros Hp. unfold lockRelated. apply filter_In. split; auto.
  rewrite String.eqb_refl, Nat.eqb_refl, Z.eqb_refl, Hp. reflexivity.
Qed.

(** The row with a given key, loaded through the joins. *)
Lemma lockReservation_by_key s id user r seat session :
  lookup res_id id (reservations s) = Some r -> userId r = user ->
  findSeat s (seatId r) = Some seat ->
  findSession s (sessionId seat) = Some session ->
  lockReservation s id user = Some (r, seat, session).
Proof.
  unfold lockReservation, lookup. intros H Hu Hs Hss.
  induction (reservations s) as [|x l IH]; simpl in *; [discriminate|].
  rewrite find_app. destruct (res_id x =? id) eqn:E.
  - inversion H; subst x. unfold joinSeatSession. rewrite Hs, Hss. simpl.
    rewrite E, Hu, String.eqb_refl. reflexivity.
  - assert (Hx : find (fun j : Loaded => let '(r0, _, _) := j in
                         (res_id r0 =? id) && (userId r0 =? user)%string)
                      (joinSeatSession s x) = None).
    { unfold joinSeatSession. destruct (findSeat s (seatId x)) as [st|]; auto.
      destruct (findSession s (sessionId st)); auto. simpl. now rewrite E. }
    rewrite Hx. auto.
Qed.

Lemma confirmPayment_pending now paid dbNow id user s r seat session :
  coherent s = true ->
  lockReservation s id user = Some (r, seat, session) ->
  res_status r = PENDING -> (now <= expiresAt r)%Z ->
  exists s' sale,
    confirmPayment now paid dbNow (mkConfirmPaymentDto id user) s
    = (s', afterCommit (saleResponse s' sale))
    /\ coherent s' = true
    /\ sessions s' = sessions s
    /\ Forall (confirmedIn paid s')
              (lockRelated s (userId r) (sessionId seat) (expiresAt r))
    /\ salesOf s' (res_id r) = [sale].
Proof.
  intros Hc Hl Hp Hnow.
  destruct (lockReservation_target _ _ _ _ _ _ Hl) as [Hid [Hu [Hs [Hss Hgrp]]]].
  specialize (Hgrp Hp).
  unfold confirmPayment. cbn [cp_reservationId cp_userId]. rewrite Hl, Hp.
  cbn [ReservationStatus_eqb negb].
  destruct (expiresAt r <? now)%Z eqn:El; [apply Z.ltb_lt in El; lia|].
  set (group := lockRelated s (userId r) (sessionId seat) (expiresAt r)) in *.
  pose proof Hc as Hc'. apply coherent_iff in Hc'. destruct Hc' as [_ [Hr _]].
  destruct (confirmAll_spec paid dbNow group [] s Hc
              (lockRelated_loaded _ _ _ _) (lockRelated_unique _ _ _ _ Hr))
    as [A [B [C [_ [_ [G [_ K]]]]]]].
  destruct (confirmAll paid dbNow group [] s) as [newSales s'].
  cbn [fst snd] in *.
  rewrite Forall_forall in C. pose proof (C _ Hgrp) as Hdone.
  destruct Hdone as [_ [_ [sale [Hsale _]]]].
  destruct (G _ Hgrp) as [x [Hx [Hxid _]]].
  destruct (find_exists _ (fun y => reservationId y =? res_id r) newSales x Hx)
    as [x0 Hx0].
  { rewrite Hxid. apply Nat.eqb_refl. }
  unfold findSaleByReservation, lookup. rewrite Hx0.
  apply find_some in Hx0. destruct Hx0 as [Hin0 Hq0].
  destruct (K _ Hin0) as [[]|Hin0'].
  assert (Ex0 : x0 = sale).
  { assert (H0 : In x0 (salesOf s' (res_id r)))
      by (unfold salesOf; apply filter_In; auto).
    rewrite Hsale in H0. destruct H0 as [<-|[]]. reflexivity. }
  subst x0.
  apply coherent_iff in A as A'. destruct A' as [_ [_ [Hsa _]]].
  unfold findSaleById. rewrite (lookup_unique _ sale_id _ _ Hsa Hin0').
  exists s', sale. repeat split; auto. apply Forall_forall. exact C.
Qed.

Lemma confirmPayment_pending_response now paid dbNow id user s r seat session :
  coherent s = true ->
  lockReservation s id user = Some (r, seat, session) ->
  res_status r = PENDING -> (now <= expiresAt r)%Z ->
  exists s' d sale,
    confirmPayment now paid dbNow (mkConfirmPaymentDto id user) s = (s', inr d)
    /\ sr_reservationId d = id /\ sr_amount d = ticketPrice session
    /\ sr_paidAt d = paid /\ sr_seatId d = seat_id seat
    /\ coherent s' = true
    /\ Forall (confirmedIn paid s')
              (lockRelated s (userId r) (sessionId seat) (expiresAt r))
    /\ lockReservation s' id user
       = Some (set_res_status CONFIRMED r, set_seat_status SOLD seat, session)
    /\ findSaleByReservation (sales s') id = Some sale
    /\ saleResponse s' sale = inr d.
Proof.
  intros Hc Hl Hp Hnow.
  destruct (confirmPayment_pending now paid dbNow id user s r seat session
              Hc Hl Hp Hnow) as [s' [sale [E [Hc' [Hss [Hall Hsale]]]]]].
  destruct (lockReservation_target _ _ _ _ _ _ Hl) as [Hid [Hu [Hs [Hse Hgrp]]]].
  specialize (Hgrp Hp).
  rewrite Forall_forall in Hall. pose proof (Hall _ Hgrp) as Hdone.
  destruct Hdone as [H1 [H2 [sale' [Hsale' [Ha [Hpd [Hst Hus]]]]]]].
  rewrite Hsale in Hsale'. inversion Hsale'; subst sale'.
  assert (Hresp : saleResponse s' sale
                  = inr (mkSaleResponseDto (sale_id sale) (sale_seatId sale)
                           (seatNumber seat) (sale_userId sale)
                           (reservationId sale) (amount sale)
                           (movieName session) (startTime session)
                           (roomNumber session) (paidAt sale)
                           (sale_createdAt sale))).
  { unfold saleResponse. apply lookup_some in Hs as Hk. destruct Hk as [_ Hk].
    rewrite Hst, Hk, H2. cbn [sessionId set_seat_status].
    unfold findSession in *. rewrite Hss, Hse. reflexivity. }
  assert (Hrid : reservationId sale = res_id r).
  { assert (H0 : In sale (salesOf s' (res_id r))) by (rewrite Hsale; now left).
    unfold salesOf in H0. apply filter_In in H0. destruct H0 as [_ H0].
    now apply Nat.eqb_eq in H0. }
  assert (Hfind : findSaleByReservation (sales s') id = Some sale).
  { unfold findSaleByReservation. rewrite <- Hid.
    eapply lookup_first. unfold salesOf in Hsale. exact Hsale. }
  eexists s', _, sale. rewrite E, Hresp. split; [reflexivity|].
  cbn [sr_reservationId sr_amount sr_paidAt sr_seatId].
  split; [congruence|]. split; [exact Ha|]. split; [exact Hpd|].
  split; [exact Hst|]. split; [exact Hc'|].
  split; [apply Forall_forall; exact Hall|].
  split; [|split; [exact Hfind|reflexivity]].
  apply lockReservation_by_key; auto.
  - now rewrite <- Hid.
  - unfold findSession in *. cbn [sessionId set_seat_status]. now rewrite Hss.
Qed.

(** ** Confirm: the group, idempotence, coherence *)

Lemma confirmPayment_rollback now paid dbNow dto s s' e :
  coherent s = true ->
  confirmPayment now paid dbNow dto s = (s', inl e) -> s' = s.
Proof.
  intros Hc H. destruct dto as [id user].
  destruct (lockReservation s id user) as [[[r seat] session]|] eqn:Hl.
  - destruct (res_status r) eqn:Est.
    + destruct (expiresAt r <? now)%Z eqn:El.
      * unfold confirmPayment in H. cbn [cp_reservationId cp_userId] in H.
        rewrite Hl, Est in H. cbn in H. rewrite El in H. congruence.
      * apply Z.ltb_ge in El.
        destruct (confirmPayment_pending_response now paid dbNow id user s r
                    seat session Hc Hl Est El) as [s1 [d [sale [E _]]]].
        rewrite E in H. discriminate.
    + unfold confirmPayment in H. cbn [cp_reservationId cp_userId] in H.
      rewrite Hl, Est in H. cbn in H.
      destruct (findSaleByReservation (sales s) (res_id r)); congruence.
    + unfold confirmPayment in H. cbn [cp_reservationId cp_userId] in H.
      rewrite Hl, Est in H. cbn in H. congruence.
    + unfold confirmPayment in H. cbn [cp_reservationId cp_userId] in H.
      rewrite Hl, Est in H. cbn in H. congruence.
  - unfold confirmPayment in H. cbn [cp_reservationId cp_userId] in H.
    rewrite Hl in H. congruence.
Qed.

Lemma confirmPayment_coherent now paid dbNow dto s :
  coherent s = true ->
  coherent (fst (confirmPayment now paid dbNow dto s)) = true.
Proof.
  intros Hc. destruct dto as [id user].
  destruct (lockReservation s id user) as [[[r seat] session]|] eqn:Hl.
  - destruct (res_status r) eqn:Est.
    + destruct (expiresAt r <? now)%Z eqn:El.
      * unfold confirmPayment. cbn [cp_reservationId cp_userId].
        rewrite Hl, Est. cbn. rewrite El. exact Hc.
      * apply Z.ltb_ge in El.
        destruct (confirmPayment_pending_response now paid dbNow id user s r
                    seat session Hc Hl Est El) as [s1 [d [sale [E H]]]].
        rewrite E. cbn. tauto.
    + unfold confirmPayment. cbn [cp_reservationId cp_userId].
      rewrite Hl, Est. cbn.
      destruct (findSaleByReservation (sales s) (res_id r)); exact Hc.
    + unfold confirmPayment. cbn [cp_reservationId cp_userId].
      rewrite Hl, Est. cbn. exact Hc.
    + unfold confirmPayment. cbn [cp_reservationId cp_userId].
      rewrite Hl, Est. cbn. exact Hc.
  - unfold confirmPayment. cbn [cp_reservationId cp_userId].
    rewrite Hl. exact Hc.
Qed.

(** C1. In a coherent store, a Confirm whose target is [PENDING] and not past
    its [expiresAt] succeeds, and in the committed store every reservation
    of the booking group, the target among them, has status [CONFIRMED], its
    seat has status [SOLD], and exactly one sale references it, at the
    session's [ticketPrice] and with the one [paidAt] of the call; a
    Confirm that fails leaves the store as it was. *)
Theorem confirmPayment_group_atomic (now paid dbNow : Date)
    (dto : ConfirmPaymentDto) (s : Store) :
  coherent s = true ->
  (forall s' e, confirmPayment now paid dbNow dto s = (s', inl e) -> s' = s)
  /\ (forall r seat session,
        lockReservation s (cp_reservationId dto) (cp_userId dto)
        = Some (r, seat, session) ->
        res_status r = PENDING -> (now <= expiresAt r)%Z ->
        let group := lockRelated s (userId r) (sessionId seat) (expiresAt r) in
        exists s' d,
          confirmPayment now paid dbNow dto s = (s', inr d)
          /\ sr_reservationId d = cp_reservationId dto
          /\ sr_amount d = ticketPrice session /\ sr_paidAt d = paid
          /\ In (r, seat, session) group
          /\ Forall (confirmedIn paid s') group
          /\ Forall (settled paid s') group).
Proof.
  intros Hc. split.
  - intros s' e. apply confirmPayment_rollback. exact Hc.
  - intros r seat session Hl Hp Hnow group. destruct dto as [id user].
    cbn [cp_reservationId cp_userId] in *.
    destruct (confirmPayment_pending_response now paid dbNow id user s r
                seat session Hc Hl Hp Hnow)
      as [s' [d [sale [E [H1 [H2 [H3 [_ [_ [H4 _]]]]]]]]]].
    exists s', d. split; [exact E|]. split; [exact H1|].
    split; [exact H2|]. split; [exact H3|].
    split; [apply (lockReservation_target _ _ _ _ _ _ Hl); exact Hp|].
    split; [exact H4|].
    apply Forall_forall. intros [[r0 seat0] session0] Hin.
    rewrite Forall_forall in H4. specialize (H4 _ Hin).
    assert (Hkey : seat_id seat0 = seatId r0).
    { unfold group in Hin. unfold lockRelated in Hin.
      apply filter_In in Hin. destruct Hin as [Hin _].
      apply in_flat_map in Hin. destruct Hin as [x [_ Hx]].
      apply joinSeatSession_in in Hx.
      destruct Hx as [seat1 [ss1 [Ex [Hs1 _]]]]. inversion Ex; subst.
      apply lookup_some in Hs1. now destruct Hs1. }
    destruct H4 as [A [B [x [C [D [F [G K]]]]]]].
    split; [|split].
    + exists (set_res_status CONFIRMED r0). split; [exact A|].
      repeat split; reflexivity.
    + exists (set_seat_status SOLD seat0). split; [exact B|].
      repeat split; reflexivity.
    + exists x. split; [exact C|].
      assert (Hx : In x (salesOf s' (res_id r0))) by (rewrite C; now left).
      unfold salesOf in Hx. apply filter_In in Hx. destruct Hx as [_ Hx].
      apply Nat.eqb_eq in Hx. repeat split; auto. congruence.
Qed.

Lemma confirmPayment_group_atomic_witness :
  exists s' d,
    confirmPayment 6000 6001 6002 (mkConfirmPaymentDto 2 "u1") held = (s', inr d)
    /\ sr_reservationId d = 2
    /\ sr_amount d = 2500%Z /\ sr_paidAt d = 6001%Z
    /\ In (mkReservation 2 2 "u1" PENDING 35000 5001,
           mkSeat 2 "A2" "A" RESERVED 1, s16)
          (lockRelated held "u1" 1 35000)
    /\ Forall (confirmedIn 6001 s') (lockRelated held "u1" 1 35000)
    /\ Forall (settled 6001 s') (lockRelated held "u1" 1 35000).
Proof.
  refine (proj2 (confirmPayment_group_atomic 6000 6001 6002
                   (mkConfirmPaymentDto 2 "u1") held _)
                (mkReservation 2 2 "u1" PENDING 35000 5001)
                (mkSeat 2 "A2" "A" RESERVED 1) s16 _ _ _).
  - reflexivity.
  - reflexivity.
  - reflexivity.
  - simpl. lia.
Defined.

(** C2. A Confirm on a reservation that is already [CONFIRMED] and has a
    sale changes nothing and returns the response built from that sale; and
    after a Confirm that succeeded on a coherent store, every further
    Confirm of the same request returns the same response and leaves the
    store as it is.  With no sale the code throws its
    [BadRequestException] only after [commitTransaction], so the caller
    gets the [TransactionNotStartedError] of the rollback that follows, not
    the [BadRequestException]; nothing is written. *)
Theorem confirmPayment_idempotent (dto : ConfirmPaymentDto) (s : Store) :
  (forall now paid dbNow r seat session sale st ss,
     lockReservation s (cp_reservationId dto) (cp_userId dto)
     = Some (r, seat, session) ->
     res_status r = CONFIRMED ->
     findSaleByReservation (sales s) (res_id r) = Some sale ->
     findSeat s (sale_seatId sale) = Some st ->
     findSession s (sessionId st) = Some ss ->
     confirmPayment now paid dbNow dto s
     = (s, inr (mkSaleResponseDto (sale_id sale) (sale_seatId sale)
                  (seatNumber st) (sale_userId sale) (reservationId sale)
                  (amount sale) (movieName ss) (startTime ss) (roomNumber ss)
                  (paidAt sale) (sale_createdAt sale))))
  /\ (forall now paid dbNow r seat session,
        lockReservation s (cp_reservationId dto) (cp_userId dto)
        = Some (r, seat, session) ->
        res_status r = CONFIRMED ->
        findSaleByReservation (sales s) (res_id r) = None ->
        confirmPayment now paid dbNow dto s
        = (s, inl TransactionNotStartedError)
        /\ snd (confirmPayment now paid dbNow dto s)
           <> inl (BadRequestException ConfirmedButSaleMissing))
  /\ (coherent s = true ->
      forall now paid dbNow s1 d,
        confirmPayment now paid dbNow dto s = (s1, inr d) ->
        forall now' paid' dbNow',
          confirmPayment now' paid' dbNow' dto s1 = (s1, inr d)).
Proof.
  destruct dto as [id user]. cbn [cp_reservationId cp_userId].
  split; [|split].
  - intros now paid dbNow r seat session sale st ss Hl Hst Hsale Hseat Hss.
    unfold confirmPayment. cbn [cp_reservationId cp_userId].
    rewrite Hl, Hst. cbn [ReservationStatus_eqb]. rewrite Hsale.
    unfold saleResponse. rewrite Hseat, Hss. reflexivity.
  - intros now paid dbNow r seat session Hl Hst Hsale.
    assert (E : confirmPayment now paid dbNow (mkConfirmPaymentDto id user) s
                = (s, inl TransactionNotStartedError)).
    { unfold confirmPayment. cbn [cp_reservationId cp_userId].
      rewrite Hl, Hst. cbn [ReservationStatus_eqb]. rewrite Hsale.
      reflexivity. }
    split; [exact E|]. rewrite E. cbn [snd]. discriminate.
  - intros Hc now paid dbNow s1 d H now' paid' dbNow'.
    destruct (lockReservation s id user) as [[[r seat] session]|] eqn:Hl.
    + destruct (res_status r) eqn:Est.
      * destruct (expiresAt r <? now)%Z eqn:El.
        -- unfold confirmPayment in H. cbn [cp_reservationId cp_userId] in H.
           rewrite Hl, Est in H. cbn in H. rewrite El in H. congruence.
        -- apply Z.ltb_ge in El.
           destruct (confirmPayment_pending_response now paid dbNow id user s r
                       seat session Hc Hl Est El)
             as [s' [d' [sale [E [_ [_ [_ [_ [_ [_ [Hl' [Hf Hr]]]]]]]]]]]].
           rewrite E in H. inversion H; subst s' d'.
           unfold confirmPayment. cbn [cp_reservationId cp_userId].
           rewrite Hl'. cbn [res_status set_res_status ReservationStatus_eqb res_id].
           destruct (lockReservation_target _ _ _ _ _ _ Hl) as [Hid _].
           rewrite Hid, Hf, Hr. reflexivity.
      * unfold confirmPayment in *. cbn [cp_reservationId cp_userId] in *.
        rewrite Hl, Est in H. cbn [ReservationStatus_eqb] in H.
        destruct (findSaleByReservation (sales s) (res_id r)) as [sale|] eqn:Ef;
          cbn [afterCommit] in H; [|discriminate].
        injection H as Hs1 Hd. subst s1.
        rewrite Hl, Est. cbn [ReservationStatus_eqb]. rewrite Ef, Hd.
        reflexivity.
      * unfold confirmPayment in H. cbn [cp_reservationId cp_userId] in H.
        rewrite Hl, Est in H. cbn in H. congruence.
      * unfold confirmPayment in H. cbn [cp_reservationId cp_userId] in H.
        rewrite Hl, Est in H. cbn in H. congruence.
    + unfold confirmPayment in H. cbn [cp_reservationId cp_userId] in H.
      rewrite Hl in H. congruence.
Qed.

Lemma confirmPayment_idempotent_witness :
  confirmPayment 9000 9001 9002 (mkConfirmPaymentDto 2 "u1")
    (fst (confirmPayment 6000 6001 6002 (mkConfirmPaymentDto 2 "u1") held))
  = (fst (confirmPayment 6000 6001 6002 (mkConfirmPaymentDto 2 "u1") held),
     inr (mkSaleResponseDto 2 2 "A2" "u1" 2 2500 "Dune" 1000 "R1" 6001 6002))
  /\ confirmPayment 9000 9001 9002 (mkConfirmPaymentDto 1 "u1") saleless
     = (saleless, inl TransactionNotStartedError).
Proof.
  split.
  - refine (proj2 (proj2 (confirmPayment_idempotent
                            (mkConfirmPaymentDto 2 "u1") held))
                  _ 6000%Z 6001%Z 6002%Z _ _ _ 9000%Z 9001%Z 9002%Z);
      reflexivity.
  - refine (proj1 (proj1 (proj2 (confirmPayment_idempotent
                                   (mkConfirmPaymentDto 1 "u1") saleless))
                     9000%Z 9001%Z 9002%Z
                     (mkReservation 1 1 "u1" CONFIRMED 35000 5001)
                     (mkSeat 1 "A1" "A" SOLD 1) s16 _ _ _));
      reflexivity.
Defined.

(** ** The invariant along every history *)

Lemma run_coherent ttl s c :
  coherent s = true -> coherent (run ttl s c) = true.
Proof.
  intros Hc. destruct c; simpl.
  - now apply createReservation_coherent.
  - now apply confirmPayment_coherent.
  - now apply expireReservation_coherent.
Qed.

Lemma runAll_coherent ttl history : forall s,
  coherent s = true -> coherent (runAll ttl s history) = true.
Proof.
  unfold runAll. induction history as [|c rest IH]; simpl; intros s Hc; auto.
  apply IH. now apply run_coherent.
Qed.

(** C4, as the code has it. Create hold, Confirm payment and Expire each
    take a coherent store to a coherent store, and a coherent store meets
    the seat / reservation / sale invariant; so the invariant holds after
    every committed transaction of every history that starts from a
    provisioned inventory. *)
Theorem operations_keep_invariant (ttl : Z) (s : Store) :
  (coherent s = true ->
   consistent s = true
   /\ (forall now dbNow dto,
         coherent (fst (createReservation ttl now dbNow dto s)) = true
         /\ consistent (fst (createReservation ttl now dbNow dto s)) = true)
   /\ (forall now paid dbNow dto,
         coherent (fst (confirmPayment now paid dbNow dto s)) = true
         /\ consistent (fst (confirmPayment now paid dbNow dto s)) = true)
   /\ (forall now id,
         coherent (expireReservation now id s) = true
         /\ consistent (expireReservation now id s) = true))
  /\ (provisioned s = true ->
      forall history, consistent (runAll ttl s history) = true).
Proof.
  split.
  - intros Hc. split; [now apply coherent_consistent|].
    split; [|split]; intros.
    + pose proof (createReservation_coherent ttl now dbNow dto s Hc) as H.
      split; [exact H|now apply coherent_consistent].
    + pose proof (confirmPayment_coherent now paid dbNow dto s Hc) as H.
      split; [exact H|now apply coherent_consistent].
    + pose proof (expireReservation_coherent now id s Hc) as H.
      split; [exact H|now apply coherent_consistent].
  - intros Hp history. apply coherent_consistent, runAll_coherent.
    now apply provisioned_coherent.
Qed.

Lemma operations_keep_invariant_witness :
  consistent
    (runAll 30 demo
       [CreateHold 5000 5001 (mkCreateReservationDto 1 ["A2"; "A1"]%string "u1");
        Expire 35001 1;
        ConfirmPayment 6000 6001 6002 (mkConfirmPaymentDto 2 "u1");
        CreateHold 36000 36001 (mkCreateReservationDto 1 ["A1"]%string "u2")])
  = true.
Proof.
  apply (proj2 (operations_keep_invariant 30 demo)). reflexivity.
Defined.

(** The three clauses alone are not preserved. Confirm on [doubled] succeeds
    and leaves the seat [SOLD] with two [CONFIRMED] reservations; Expire on
    [oversold] releases the seat while a [PENDING] reservation still
    references it. *)
Lemma invariant_alone_not_preserved :
  consistent doubled = true
  /\ snd (confirmPayment 6000 6001 6002 (mkConfirmPaymentDto 2 "u1") doubled)
     = inr (mkSaleResponseDto 2 1 "A1" "u1" 2 2500 "Dune" 1000 "R1" 6001 6002)
  /\ reservations
       (fst (confirmPayment 6000 6001 6002 (mkConfirmPaymentDto 2 "u1") doubled))
     = [mkReservation 1 1 "u0" CONFIRMED 100 50;
        mkReservation 2 1 "u1" CONFIRMED 35000 5001]
  /\ consistent
       (fst (confirmPayment 6000 6001 6002 (mkConfirmPaymentDto 2 "u1") doubled))
     = false
  /\ consistent oversold = true
  /\ seats (expireReservation 201 2 oversold) = [mkSeat 1 "A1" "A" AVAILABLE 1]
  /\ map res_status (reservations (expireReservation 201 2 oversold))
     = [CONFIRMED; EXPIRED; PENDING]
  /\ consistent (expireReservation 201 2 oversold) = false.
Proof. repeat split; reflexivity. Qed.

(** * Further properties *)

(** ** The retry helper on any block *)

Section RetryRuns.

Import RetryUtil.

Variables E T C : Type.
Variable instOf : E -> C -> bool.
Variable asError : E -> E.
Variable fn : nat -> E + T.
Variable opts : RequiredRetryOptions C.

Let failing := failing instOf asError fn opts.

Lemma attempts_skip n : forall a remaining lastError slept,
  a + remaining = r_maxAttempts opts + 1 ->
  a + n <= r_maxAttempts opts ->
  failing a n ->
  exists lastError',
    attempts instOf asError fn opts remaining a lastError slept
    = attempts instOf asError fn opts (remaining - n) (a + n) lastError'
               (slept ++ map (delayMs opts) (seq a n)).
Proof.
  induction n as [|n IH]; intros a remaining lastError slept Hrem Hmax Hfail.
  - exists lastError. simpl.
    now rewrite Nat.sub_0_r, Nat.add_0_r, app_nil_r.
  - destruct remaining as [|remaining]; [lia|].
    destruct (Hfail a) as [e [He Hc]]; [lia|].
    assert (Hnot : negb (List.length (r_retryableErrors opts) =? 0)
                   && negb (isRetryable instOf opts (asError e)) = false).
    { unfold canRetry in Hc. apply orb_true_iff in Hc.
      destruct Hc as [Hc|Hc]; rewrite Hc; simpl; auto. apply andb_false_r. }
    assert (Hlast : (r_maxAttempts opts <=? a) = false)
      by (apply Nat.leb_gt; lia).
    destruct (IH (S a) remaining (Some (asError e))
                 (slept ++ [delayMs opts a]))
      as [lastError' H].
    + lia.
    + lia.
    + intros i Hi. apply Hfail. lia.
    + exists lastError'. simpl attempts at 1. rewrite He, Hnot, Hlast, H.
      simpl. rewrite <- app_assoc. simpl.
      now rewrite Nat.add_succ_r.
Qed.

Lemma attempts_reach k :
  1 <= k <= r_maxAttempts opts -> failing 1 (k - 1) ->
  exists lastError remaining,
    attempts instOf asError fn opts (r_maxAttempts opts) 1 None []
    = attempts instOf asError fn opts (S remaining) k lastError (sleepsBefore opts k).
Proof.
  intros Hk Hfail.
  destruct (attempts_skip (k - 1) 1 (r_maxAttempts opts) None [])
    as [lastError H]; auto; try lia.
  exists lastError, (r_maxAttempts opts - k). rewrite H. unfold sleepsBefore.
  replace (r_maxAttempts opts - (k - 1)) with (S (r_maxAttempts opts - k))
    by lia.
  replace (1 + (k - 1)) with k by lia. reflexivity.
Qed.


Lemma attempts_throws k e :
  1 <= k <= r_maxAttempts opts -> failing 1 (k - 1) -> fn k = inl e ->
  canRetry instOf opts (asError e) = false \/ k = r_maxAttempts opts ->
  attempts instOf asError fn opts (r_maxAttempts opts) 1 None []
  = mkRun k (sleepsBefore opts k) (thrown T (Some (asError e))).
Proof.
  intros Hk Hfail He Hstop.
  destruct (attempts_reach k Hk Hfail) as [lastError [remaining ->]].
  simpl. rewrite He.
  destruct (negb (List.length (r_retryableErrors opts) =? 0)
            && negb (isRetryable instOf opts (asError e))) eqn:Hnot; auto.
  destruct Hstop as [Hc|Hlast].
  - unfold canRetry in Hc. apply orb_false_iff in Hc. destruct Hc as [H1 H2].
    rewrite H1, H2 in Hnot. discriminate.
  - rewrite Hlast, Nat.leb_refl. reflexivity.
Qed.

Lemma attempts_all_bounds :
  let run := attempts instOf asError fn opts (r_maxAttempts opts) 1 None [] in
  calls run <= r_maxAttempts opts
  /\ List.length (sleeps run) = calls run - 1
  /\ Forall (fun d => (d <= r_maxDelayMs opts)%Z) (sleeps run)
  /\ (r_maxAttempts opts = 0 -> run = mkRun 0 [] (thrown T None)).
Proof.
  cbv zeta. destruct (r_maxAttempts opts) as [|m] eqn:Em.
  - simpl. repeat split; auto.
  - destruct (retry_bounds E T C instOf asError fn opts) as [A [B D]];
      [lia|]. rewrite Em in *. cbv zeta in A, B, D.
    repeat split; auto. discriminate.
Qed.

End RetryRuns.


(** X2. When the first [k - 1] attempts fail with errors that may be
    retried and attempt [k] rejects with [e], where the error made of [e]
    may not be retried or [k] is the last attempt, then what is thrown,
    after exactly [k] invocations and with no sleep after the last one, is
    the error made of [e]: [e] itself if it is an [Error] object, and
    [new Error(String(e))] otherwise.  Whether an error may be retried is
    decided on the error made of the rejection, not on the rejection. *)
Theorem retryWithBackoff_throws (E T C : Type)
    (instOf : E -> C -> bool) (asError : E -> E) (fn : nat -> E + T)
    (options : RetryUtil.RetryOptions C) (k : nat) (e : E) :
  let opts := RetryUtil.withDefaults options in
  1 <= k <= RetryUtil.r_maxAttempts opts ->
  failing instOf asError fn opts 1 (k - 1) -> fn k = inl e ->
  canRetry instOf opts (asError e) = false
  \/ k = RetryUtil.r_maxAttempts opts ->
  RetryUtil.retryWithBackoff instOf asError fn options
  = RetryUtil.mkRun k (sleepsBefore opts k)
      (RetryUtil.thrown T (Some (asError e))).
Proof.
  intros opts Hk Hfail He Hstop.
  exact (attempts_throws E T C instOf asError fn opts k e Hk Hfail He Hstop).
Qed.

(** X3. Whatever the block does, it is invoked at most [maxAttempts] times,
    the call sleeps once between two invocations and never longer than
    [maxDelayMs], and with [maxAttempts = 0] the block is never invoked and
    [undefined] is thrown. *)
Theorem retryWithBackoff_bounds (E T C : Type)
    (instOf : E -> C -> bool) (asError : E -> E) (fn : nat -> E + T)
    (options : RetryUtil.RetryOptions C) :
  let opts := RetryUtil.withDefaults options in
  let run := RetryUtil.retryWithBackoff instOf asError fn options in
  RetryUtil.calls run <= RetryUtil.r_maxAttempts opts
  /\ List.length (RetryUtil.sleeps run) = RetryUtil.calls run - 1
  /\ Forall (fun d => (d <= RetryUtil.r_maxDelayMs opts)%Z)
            (RetryUtil.sleeps run)
  /\ (RetryUtil.r_maxAttempts opts = 0 ->
      run = RetryUtil.mkRun 0 [] (RetryUtil.thrown T None)).
Proof.
  intros opts. exact (attempts_all_bounds E T C instOf asError fn opts).
Qed.

(** X4. The delay after an attempt never exceeds [maxDelayMs], is
    [initialDelayMs] (capped) after the first attempt, and with a
    non-negative initial delay and a multiplier of at least one never
    shrinks from one attempt to the next. *)
Theorem delayMs_schedule (C : Type) (opts : RetryUtil.RequiredRetryOptions C)
    (a : nat) :
  (RetryUtil.delayMs opts a <= RetryUtil.r_maxDelayMs opts)%Z
  /\ RetryUtil.delayMs opts 1
     = Z.min (RetryUtil.r_initialDelayMs opts) (RetryUtil.r_maxDelayMs opts)
  /\ ((0 <= RetryUtil.r_initialDelayMs opts)%Z ->
      (1 <= RetryUtil.r_backoffMultiplier opts)%Z ->
      1 <= a ->
      (RetryUtil.delayMs opts a <= RetryUtil.delayMs opts (S a))%Z).
Proof.
  unfold RetryUtil.delayMs. split; [apply Z.le_min_r|]. split.
  - simpl. now rewrite Z.mul_1_r.
  - intros Hi Hm Ha. apply Z.min_le_compat_r.
    replace (Z.of_nat (S a - 1)) with (Z.succ (Z.of_nat (a - 1))) by lia.
    rewrite Z.pow_succ_r by lia.
    assert (Hp : (0 <= RetryUtil.r_backoffMultiplier opts ^ Z.of_nat (a - 1))%Z)
      by (apply Z.pow_nonneg; lia).
    nia.
Qed.


Lemma retryWithBackoff_throws_witness :
  RetryUtil.retryWithBackoff instanceOfRejection asErrorObject
    (fun i => if i <? 2 then inl (anError QueryFailedError)
              else inl (aValue "boom")
              : Rejection + unit)
    documentedOptions
  = RetryUtil.mkRun 2 [100]%Z
      (RetryUtil.thrown unit (Some (newError "boom"))).
Proof.
  apply (retryWithBackoff_throws Rejection unit ErrorClass
           instanceOfRejection asErrorObject
           (fun i => if i <? 2 then inl (anError QueryFailedError)
                     else inl (aValue "boom"))
           documentedOptions 2 (aValue "boom")).
  - simpl. lia.
  - intros i Hi. exists (anError QueryFailedError).
    assert (Hc : i = 1) by (simpl in Hi; lia).
    subst i. split; reflexivity.
  - reflexivity.
  - left. reflexivity.
Defined.

(** ** The batch processor on any callback *)

Section BatchRuns.

Import Batch.

Variables D M W X : Type.
Variable processFn : list (BatchMessage D M) -> W -> W * (X + unit).

Lemma flush_keeps_messages (st : State D M W) :
  settledAndBuffered (flush processFn st) = settledAndBuffered st.
Proof.
  destruct st as [[bp w] chan]. unfold settledAndBuffered, flush.
  destruct (processing bp || (List.length (batch bp) =? 0)); auto.
  destruct (processFn (batch bp) w) as [w' [x|u]]; cbn [fst snd batch];
    rewrite map_app, map_map, app_nil_r; reflexivity.
Qed.

(** X5. The processor neither loses, duplicates nor reorders messages: what
    has been acknowledged or negatively acknowledged, followed by what is
    still buffered, is always the messages in the order they were added;
    [flush] only moves buffered messages to the settled ones. *)
Theorem addMessage_keeps_messages (d : D) (m : M) (st : State D M W) :
  settledAndBuffered (addMessage processFn d m st)
  = settledAndBuffered st ++ [m]
  /\ settledAndBuffered (flush processFn st) = settledAndBuffered st.
Proof.
  split; [|apply flush_keeps_messages].
  destruct st as [[bp w] chan]. unfold addMessage.
  cbn [options batch processing batchNumber].
  destruct (batchSize (options bp) <=? _).
  - rewrite flush_keeps_messages. unfold settledAndBuffered.
    cbn [fst snd batch]. now rewrite map_app, app_assoc.
  - unfold settledAndBuffered. cbn [fst snd batch].
    now rewrite map_app, app_assoc.
Qed.

Lemma addMessage_idle_step (d : D) (m : M) (bp : BatchProcessor D M)
    (w : W) (chan : list (ChannelOp M)) :
  processing bp = false -> 1 <= batchSize (options bp) ->
  List.length (batch bp) < batchSize (options bp) ->
  let '(bp', _, chan') := addMessage processFn d m (bp, w, chan) in
  processing bp' = false /\ options bp' = options bp
  /\ List.length (batch bp') < batchSize (options bp)
  /\ (List.length chan' = List.length chan
         /\ List.length (batch bp') = S (List.length (batch bp))
      \/ List.length chan' = List.length chan + batchSize (options bp)
         /\ S (List.length (batch bp)) = batchSize (options bp)
         /\ batch bp' = []).
Proof.
  intros Hidle Hsize Hlen. unfold addMessage.
  cbn [options batch processing batchNumber]. rewrite length_app. simpl.
  destruct (batchSize (options bp) <=? List.length (batch bp) + 1) eqn:Efull.
  - apply Nat.leb_le in Efull. unfold flush.
    cbn [options batch processing batchNumber]. rewrite Hidle, length_app.
    simpl. replace (List.length (batch bp) + 1 =? 0) with false
      by (symmetry; apply Nat.eqb_neq; lia).
    simpl.
    destruct (processFn (batch bp ++ [mkBatchMessage d m]) w) as [w' [x|u]];
      cbn [options batch processing]; repeat split; auto; try lia;
      right; rewrite length_app, length_map, length_app; simpl;
      repeat split; auto; lia.
  - apply Nat.leb_gt in Efull. cbn [options batch processing].
    rewrite length_app. simpl. repeat split; auto; try lia.
Qed.

(** X6. An idle processor with a positive batch size never buffers a full
    batch: after [addMessage] the processor is idle again and its buffer is
    shorter than [batchSize]; either the message was only buffered, or the
    buffer had reached [batchSize] with it and exactly [batchSize] messages
    were settled on the channel. *)
Theorem addMessage_buffer_bound (d : D) (m : M) (bp : BatchProcessor D M)
    (w : W) (chan : list (ChannelOp M)) :
  processing bp = false -> 1 <= batchSize (options bp) ->
  List.length (batch bp) < batchSize (options bp) ->
  let '(bp', _, chan') := addMessage processFn d m (bp, w, chan) in
  processing bp' = false /\ options bp' = options bp
  /\ List.length (batch bp') < batchSize (options bp)
  /\ (List.length chan' = List.length chan
         /\ List.length (batch bp') = S (List.length (batch bp))
      \/ List.length chan' = List.length chan + batchSize (options bp)
         /\ S (List.length (batch bp)) = batchSize (options bp)
         /\ batch bp' = []).
Proof. exact (addMessage_idle_step d m bp w chan). Qed.

End BatchRuns.

Lemma addMessage_buffer_bound_witness :
  let '(bp', _, chan') :=
    Batch.addMessage (Batch.processExpirations (expireOrReject [] 35001)) 2 102
      (Batch.mkBatchProcessor [Batch.mkBatchMessage 1 101] false 0
         (Batch.mkBatchProcessorOptions 2 2000), held, []) in
  Batch.processing bp' = false
  /\ Batch.options bp' = Batch.mkBatchProcessorOptions 2 2000
  /\ List.length (Batch.batch bp') < 2
  /\ (List.length chan' = 0 /\ List.length (Batch.batch bp') = 2
      \/ List.length chan' = 0 + 2 /\ 2 = 2 /\ Batch.batch bp' = []).
Proof.
  apply (addMessage_buffer_bound Id nat Store nat
           (Batch.processExpirations (expireOrReject [] 35001)) 2 102
           (Batch.mkBatchProcessor [Batch.mkBatchMessage 1 101] false 0
              (Batch.mkBatchProcessorOptions 2 2000)) held []).
  - reflexivity.
  - simpl. lia.
  - simpl. lia.
Defined.

(** ** The expiration consumer on any service *)

Section ConsumerRuns.

Import Batch.

Variables M W X : Type.
Variable expire : Id -> W -> W * (X + unit).

Lemma handleReservationExpire_step id (m : M)
    (obp : option (BatchProcessor Id M)) w chan n q :
  idleConsumer obp -> buffered obp < 10 ->
  List.length chan = 10 * q -> n = 10 * q + buffered obp ->
  let '(obp', _, chan') := handleReservationExpire expire id m (obp, w, chan) in
  idleConsumer obp' /\ buffered obp' < 10
  /\ exists q', List.length chan' = 10 * q' /\ S n = 10 * q' + buffered obp'.
Proof.
  intros Hidle Hbuf Hchan Hn. unfold handleReservationExpire.
  set (bp := match obp with
             | Some bp => bp
             | None => mkBatchProcessor [] false 0 consumerOptions
             end).
  assert (Hbp : processing bp = false /\ options bp = consumerOptions
                /\ List.length (batch bp) = buffered obp).
  { unfold bp. destruct obp as [bp0|]; simpl in *; tauto. }
  destruct Hbp as [Hp [Ho Hl]].
  pose proof (addMessage_idle_step Id M W nat (processExpirations expire)
                id m bp w chan Hp) as H.
  rewrite Ho in H. simpl batchSize in H.
  destruct (addMessage (processExpirations expire) id m (bp, w, chan))
    as [[bp' w'] chan'].
  destruct H as [Hp' [Ho' [Hl' Hcase]]]; try lia.
  simpl. repeat split; auto.
  destruct Hcase as [[Hc Hb]|[Hc [Hfull Hb]]].
  - exists q. lia.
  - exists (S q). rewrite Hb. simpl. lia.
Qed.

Lemma deliver_cons id (m : M) rest st :
  deliver expire ((id, m) :: rest) st
  = deliver expire rest (handleReservationExpire expire id m st).
Proof. reflexivity. Qed.

Lemma deliver_invariant messages :
  forall (obp : option (BatchProcessor Id M)) w chan n q,
  idleConsumer obp -> buffered obp < 10 ->
  List.length chan = 10 * q -> n = 10 * q + buffered obp ->
  let '(obp', _, chan') := deliver expire messages (obp, w, chan) in
  idleConsumer obp' /\ buffered obp' < 10
  /\ exists q', List.length chan' = 10 * q'
                /\ n + List.length messages = 10 * q' + buffered obp'.
Proof.
  induction messages as [|[id m] rest IH]; intros obp w chan n q Hi Hb Hc Hn.
  - simpl. repeat split; auto. exists q. lia.
  - rewrite deliver_cons.
    pose proof (handleReservationExpire_step id m obp w chan n q Hi Hb Hc Hn)
      as Hstep.
    destruct (handleReservationExpire expire id m (obp, w, chan))
      as [[obp1 w1] chan1].
    destruct Hstep as [Hi1 [Hb1 [q1 [Hc1 Hn1]]]].
    specialize (IH obp1 w1 chan1 (S n) q1 Hi1 Hb1 Hc1 Hn1).
    destruct (deliver expire rest (obp1, w1, chan1)) as [[obp' w'] chan'].
    destruct IH as [A [B [q' [C D]]]]. repeat split; auto.
    exists q'. split; auto. simpl. lia.
Qed.

(** X7. Starting from a consumer that has seen no message, after [n] expire
    messages exactly the first [10 * (n / 10)] of them have been acknowledged
    or negatively acknowledged and the last [n mod 10] wait in the buffer:
    messages are settled ten at a time, only when the tenth arrives. *)
Theorem deliver_settles_in_tens (messages : list (Id * M)) (w : W) :
  let '(obp', _, chan') := deliver expire messages (None, w, []) in
  List.length chan' = 10 * (List.length messages / 10)
  /\ buffered obp' = List.length messages mod 10
  /\ map (@settledMessage M) chan'
     = map snd (firstn (10 * (List.length messages / 10)) messages).
Proof.
  pose proof (deliver_invariant messages None w [] 0 0 I) as H.
  specialize (H ltac:(simpl; lia) eq_refl eq_refl).
  assert (Hkeep : forall obp w0 chan,
            let st := deliver expire messages (obp, w0, chan) in
            map (@settledMessage M) (snd st)
            ++ match fst (fst st) with
               | Some bp => map (@message Id M) (batch bp)
               | None => []
               end
            = map (@settledMessage M) chan
              ++ match obp with
                 | Some bp => map (@message Id M) (batch bp)
                 | None => []
                 end ++ map snd messages).
  { clear H. induction messages as [|[id m] rest IH]; intros obp w0 chan.
    - simpl. now rewrite app_nil_r.
    - cbv zeta. rewrite deliver_cons.
      destruct (handleReservationExpire expire id m (obp, w0, chan))
        as [[obp1 w1] chan1] eqn:E.
      specialize (IH obp1 w1 chan1). cbv zeta in IH.
      rewrite IH. unfold handleReservationExpire in E.
      set (bp := match obp with
                 | Some bp => bp
                 | None => mkBatchProcessor [] false 0 consumerOptions
                 end) in E.
      pose proof (flush_keeps_messages Id M W nat (processExpirations expire)) as F.
      assert (K : settledAndBuffered
                    (addMessage (processExpirations expire) id m (bp, w0, chan))
                  = settledAndBuffered (bp, w0, chan) ++ [m]).
      { unfold addMessage. cbn [options batch processing batchNumber].
        destruct (batchSize (options bp) <=? _).
        - rewrite F. unfold settledAndBuffered. cbn [fst snd batch].
          now rewrite map_app, app_assoc.
        - unfold settledAndBuffered. cbn [fst snd batch].
          now rewrite map_app, app_assoc. }
      destruct (addMessage (processExpirations expire) id m (bp, w0, chan))
        as [[bp' w'] chan'].
      inversion E; subst. unfold settledAndBuffered in K. cbn [fst snd] in K.
      simpl map. rewrite app_assoc, K.
      assert (Hb : map (@message Id M) (batch bp)
                   = match obp with
                     | Some bp => map (@message Id M) (batch bp)
                     | None => []
                     end) by (unfold bp; destruct obp; reflexivity).
      rewrite Hb. repeat rewrite <- app_assoc. reflexivity. }
  specialize (Hkeep None w []). cbv zeta in Hkeep.
  destruct (deliver expire messages (None, w, [])) as [[obp' w'] chan'].
  destruct H as [_ [Hb [q' [Hc Hn]]]]. simpl in Hkeep.
  assert (Hq : q' = List.length messages / 10)
    by (apply (Nat.div_unique _ 10 q' (buffered obp')); lia).
  assert (Hr : buffered obp' = List.length messages mod 10)
    by (apply (Nat.mod_unique _ 10 q' (buffered obp')); lia).
  subst q'. repeat split; auto.
  assert (Hf : firstn (List.length (map (@settledMessage M) chan'))
                      (map snd messages)
               = map (@settledMessage M) chan').
  { rewrite <- Hkeep. rewrite firstn_app, Nat.sub_diag, firstn_all.
    simpl. apply app_nil_r. }
  rewrite length_map, Hc in Hf. rewrite <- Hf. apply firstn_map.
Qed.

(** X8. The batch callback attempts every expire of the batch, whatever the
    earlier ones did: the world after it is the world after all the calls
    in order, there is one result per message, and it rejects, with the
    number of rejected calls, exactly when at least one call rejected. *)
Theorem processExpirations_attempts_all (items : list (BatchMessage Id M))
    (w : W) :
  let results := snd (allSettled expire items w) in
  fst (processExpirations expire items w)
  = fold_left (fun w0 item => fst (expire (data item) w0)) items w
  /\ List.length results = List.length items
  /\ snd (processExpirations expire items w)
     = if existsb (@isRejected X) results
       then inl (List.length (filter (@isRejected X) results))
       else inr tt.
Proof.
  cbv zeta. split; [|split].
  - unfold processExpirations.
    assert (H : fst (allSettled expire items w)
                = fold_left (fun w0 item => fst (expire (data item) w0)) items w).
    { revert w. induction items as [|i rest IH]; intros w; simpl; auto.
      destruct (expire (data i) w) as [w1 r] eqn:E. rewrite <- IH.
      simpl. destruct (allSettled expire rest w1). reflexivity. }
    destruct (allSettled expire items w) as [w' results]. simpl in *.
    destruct (0 <? _); exact H.
  - apply allSettled_length.
  - unfold processExpirations.
    destruct (allSettled expire items w) as [w' results]. simpl.
    rewrite <- no_rejection. destruct (0 <? _); reflexivity.
Qed.

End ConsumerRuns.

(** ** Create hold: what a successful call leaves *)

Lemma Forall2_trans_rel (A : Type) (R : A -> A -> Prop) :
  (forall a b c, R a b -> R b c -> R a c) ->
  forall l1 l2 l3, Forall2 R l1 l2 -> Forall2 R l2 l3 -> Forall2 R l1 l3.
Proof.
  intros Ht l1 l2 l3 H12. revert l3.
  induction H12 as [|a b l1 l2 Hab H12 IH]; intros l3 H23;
    inversion H23; subst; constructor; eauto.
Qed.

Lemma heldRow_trans a b c : heldRow a b -> heldRow b c -> heldRow a c.
Proof.
  intros [->|[Ha ->]] H; auto.
  destruct H as [->|[Hb _]]; [right; auto|]. simpl in Hb. discriminate.
Qed.

Lemma heldRows_lookup l l' k a :
  Forall2 heldRow l l' -> lookup seat_id k l = Some a ->
  exists b, lookup seat_id k l' = Some b /\ heldRow a b.
Proof.
  unfold lookup. induction 1 as [|x y l l' Hxy H IH]; simpl; [discriminate|].
  rewrite (heldRow_id _ _ Hxy). destruct (seat_id x =? k).
  - intros E. inversion E; subst. eauto.
  - exact IH.
Qed.

Lemma lockSeat_label s session label seat :
  lockSeat s session label = Some seat ->
  In seat (seats s) /\ sessionId seat = session /\ seatNumber seat = label.
Proof.
  unfold lockSeat. intros H. apply find_some in H. destruct H as [Hin H].
  apply andb_true_iff in H. destruct H as [H1 H2].
  apply Nat.eqb_eq in H1. apply String.eqb_eq in H2. auto.
Qed.

Lemma reserveSeats_frame session user expires dbNow labels :
  forall acc w rs w',
    NoDup (map seat_id (seats w)) ->
    reserveSeats session user expires dbNow labels acc w = inr (rs, w') ->
    sessions w' = sessions w /\ sales w' = sales w
    /\ Forall2 heldRow (seats w) (seats w')
    /\ exists added,
         rs = acc ++ added
         /\ reservations w' = reservations w ++ map rowOf added
         /\ map rr_seatNumber added = labels
         /\ Forall (heldBy user expires dbNow) added
         /\ Forall (fun d =>
                      exists seat,
                        findSeat w' (rr_seatId d) = Some seat
                        /\ seat_status seat = RESERVED
                        /\ seatNumber seat = rr_seatNumber d
                        /\ sessionId seat = session_id session) added.
Proof.
  induction labels as [|l rest IH]; simpl; intros acc w rs w' Hnd H.
  - inversion H; subst. repeat split; auto.
    + apply heldRows_refl.
    + exists []. rewrite !app_nil_r. repeat split; auto.
  - destruct (lockSeat w (session_id session) l) as [b|] eqn:El;
      [|discriminate].
    destruct (SeatStatus_eqb (seat_status b) AVAILABLE) eqn:Es; simpl in H;
      [|discriminate].
    assert (Hb : seat_status b = AVAILABLE)
      by (destruct (seat_status b); simpl in Es; congruence).
    destruct (lockSeat_label _ _ _ _ El) as [Hin [Hsess Hlab]].
    pose proof (heldRows_save _ _ b Hnd (heldRows_refl (seats w)) Hin Hb)
      as Hstep.
    apply IH in H; [|simpl; rewrite update_keys; exact Hnd].
    simpl in H. destruct H as [Hs [Hsa [Hseats [added [Hrs [Hres [Hlabs [Hheld Hsold]]]]]]]].
    split; [exact Hs|]. split; [exact Hsa|].
    split; [eapply Forall2_trans_rel; [apply heldRow_trans|exact Hstep|exact Hseats]|].
    eexists (_ :: added). split; [rewrite Hrs, <- app_assoc; reflexivity|].
    split; [rewrite Hres, <- app_assoc; reflexivity|].
    split; [simpl; rewrite Hlab, Hlabs; reflexivity|].
    split; [constructor; [repeat split|exact Hheld]|].
    constructor; [|exact Hsold]. cbn [rr_seatId rr_seatNumber].
    assert (Hk : lookup seat_id (seat_id b)
                   (update seat_id (set_seat_status RESERVED b) (seats w))
                 = Some (set_seat_status RESERVED b)).
    { eapply lookup_update_hit; [|reflexivity].
      apply (lookup_unique _ seat_id _ _ Hnd Hin). }
    destruct (heldRows_lookup _ _ _ _ Hseats Hk) as [c [Hc Hrel]].
    exists c. split; [exact Hc|].
    destruct Hrel as [->|[Hav _]]; [|simpl in Hav; discriminate].
    simpl. auto.
Qed.

(** X9. A Create hold that succeeds returns one [PENDING] reservation per
    requested label, in ascending label order, all for the caller and with
    the one [expiresAt]; the store gains exactly these reservation rows at
    the end of the table, each returned seat is [RESERVED] in the requested
    session, other seats keep their rows or are among the held ones, and
    sessions and sales are untouched. *)
Theorem createReservation_success_frame (ttl : Z) (now dbNow : Date)
    (dto : CreateReservationDto) (s s' : Store)
    (rs : list ReservationResponseDto) :
  uniqueIds (map seat_id (seats s)) = true ->
  createReservation ttl now dbNow dto s = (s', inr rs) ->
  sessions s' = sessions s /\ sales s' = sales s
  /\ reservations s' = reservations s ++ map rowOf rs
  /\ map rr_seatNumber rs = sort (seatNumbers dto)
  /\ Forall (heldBy (dto_userId dto) (now + ttl * 1000)%Z dbNow) rs
  /\ Forall (fun d =>
               exists seat,
                 findSeat s' (rr_seatId d) = Some seat
                 /\ seat_status seat = RESERVED
                 /\ seatNumber seat = rr_seatNumber d
                 /\ sessionId seat = dto_sessionId dto) rs
  /\ Forall2 heldRow (seats s) (seats s').
Proof.
  intros Hu H. apply uniqueIds_NoDup in Hu. unfold createReservation in H.
  destruct (findSession s (dto_sessionId dto)) as [session|] eqn:Efs;
    [|discriminate].
  destruct (reserveSeats _ _ _ _ _ _ _) as [e|[rs' w]] eqn:E; [discriminate|].
  inversion H; subst.
  destruct (reserveSeats_frame _ _ _ _ _ _ _ _ _ Hu E)
    as [Hs [Hsa [Hseats [added [Hrs [Hres [Hlabs [Hheld Hsold]]]]]]]].
  simpl in Hrs. subst added.
  apply lookup_some in Efs. destruct Efs as [_ Eid]. rewrite Eid in Hsold.
  repeat split; auto.
Qed.

Lemma createReservation_success_frame_witness :
  reservations held
  = reservations demo
    ++ map rowOf [mkReservationResponseDto 1 1 "A1" "u1" PENDING 35000 5001;
                  mkReservationResponseDto 2 2 "A2" "u1" PENDING 35000 5001].
Proof.
  refine (proj1 (proj2 (proj2 (createReservation_success_frame 30 5000 5001
            (mkCreateReservationDto 1 ["A2"; "A1"]%string "u1") demo held
            _ _ _)))); reflexivity.
Defined.

(** ** Create hold: when it succeeds *)

Lemma lockSeat_other_label w session label b :
  NoDup (map seat_id (seats w)) -> In b (seats w) ->
  seatNumber b <> label ->
  lockSeat (saveSeat (set_seat_status RESERVED b) w) session label
  = lockSeat w session label.
Proof.
  intros Hnd Hin Hne. unfold lockSeat, saveSeat. cbn [seats].
  destruct (update_at _ seat_id (seats w) (set_seat_status RESERVED b) b
              Hnd Hin eq_refl) as [l1 [l2 [E1 E2]]].
  rewrite E2, E1. rewrite !find_app. destruct (find _ l1); auto.
  assert (Hq : (seatNumber b =? label)%string = false)
    by (apply String.eqb_neq; exact Hne).
  cbn. rewrite Hq, andb_false_r. reflexivity.
Qed.

Lemma reserveSeats_succeeds session user expires dbNow labels :
  forall acc w,
    NoDup (map seat_id (seats w)) -> NoDup labels ->
    allAvailable w (session_id session) labels ->
    exists rs w',
      reserveSeats session user expires dbNow labels acc w = inr (rs, w').
Proof.
  induction labels as [|l rest IH]; intros acc w Hnd Hlabs Hav; simpl; eauto.
  inversion Hlabs as [|? ? Hl Hrest]; subst.
  destruct (Hav l (or_introl eq_refl)) as [b [Eb Hb]].
  rewrite Eb, Hb. simpl.
  destruct (lockSeat_label _ _ _ _ Eb) as [Hin [_ Hlab]].
  apply IH; auto.
  - simpl. rewrite update_keys. exact Hnd.
  - intros l' Hl'. destruct (Hav l' (or_intror Hl')) as [c [Ec Hc]].
    exists c. split; auto.
    change (lockSeat (saveSeat (set_seat_status RESERVED b) w)
                     (session_id session) l' = Some c).
    rewrite lockSeat_other_label; auto.
    rewrite Hlab. intros E. subst l'. contradiction.
Qed.

Lemma labels_distinct_or_not (l : list string) : NoDup l \/ ~ NoDup l.
Proof.
  induction l as [|a l [IH|IH]].
  - left. constructor.
  - destruct (in_dec string_dec a l) as [Hin|Hin].
    + right. intros H. inversion H. contradiction.
    + left. now constructor.
  - right. intros H. inversion H. contradiction.
Qed.

(** X10. With unique seat keys and pairwise distinct seat labels in the
    session, a Create hold succeeds exactly when the session exists, no
    label is requested twice, and every requested label names a seat of the
    session that is [AVAILABLE]; it then returns one reservation per
    requested label. *)
Theorem createReservation_succeeds_iff (ttl : Z) (now dbNow : Date)
    (dto : CreateReservationDto) (s : Store) :
  uniqueIds (map seat_id (seats s)) = true ->
  distinctLabels s (dto_sessionId dto) ->
  ((exists s' rs, createReservation ttl now dbNow dto s = (s', inr rs))
   <-> (exists session,
          findSession s (dto_sessionId dto) = Some session
          /\ NoDup (seatNumbers dto)
          /\ allAvailable s (session_id session) (seatNumbers dto)))
  /\ (forall s' rs, createReservation ttl now dbNow dto s = (s', inr rs) ->
        List.length rs = List.length (seatNumbers dto)).
Proof.
  intros Hu _. pose proof Hu as Hnd. apply uniqueIds_NoDup in Hnd.
  split; [split|].
  - intros [s' [rs H]]. unfold createReservation in H.
    destruct (findSession s (dto_sessionId dto)) as [session|] eqn:Efs;
      [|discriminate].
    exists session. split; [reflexivity|].
    destruct (reserveSeats _ _ _ _ _ _ _) as [e|[rs' w]] eqn:E; [discriminate|].
    split.
    + destruct (labels_distinct_or_not (seatNumbers dto)) as [Hd|Hd]; auto.
      exfalso.
      assert (Hd' : ~ NoDup (sort (seatNumbers dto))).
      { intros Hs. apply Hd.
        eapply Permutation_NoDup; [apply sort_perm|exact Hs]. }
      destruct (reserveSeats_repeated session (dto_userId dto)
                  (now + ttl * 1000)%Z dbNow _ Hd' [] s Hnd) as [e He].
      congruence.
    + intros label Hin.
      assert (Hin' : In label (sort (seatNumbers dto)))
        by (eapply Permutation_in; [apply Permutation_sym, sort_perm|exact Hin]).
      destruct (lockSeat s (session_id session) label) as [seat|] eqn:El.
      * exists seat. split; auto.
        destruct (seat_status seat) eqn:Est; auto; exfalso;
          (destruct (reserveSeats_must_fail session (dto_userId dto)
                       (now + ttl * 1000)%Z dbNow s label _ Hin'
                       ltac:(unfold unavailable; rewrite El, Est; discriminate)
                       [] s Hnd (heldRows_refl _)) as [e He]; congruence).
      * exfalso.
        destruct (reserveSeats_must_fail session (dto_userId dto)
                    (now + ttl * 1000)%Z dbNow s label _ Hin'
                    ltac:(unfold unavailable; rewrite El; exact I)
                    [] s Hnd (heldRows_refl _)) as [e He]; congruence.
  - intros [session [Efs [Hlabs Hav]]]. unfold createReservation. rewrite Efs.
    destruct (reserveSeats_succeeds session (dto_userId dto)
                (now + ttl * 1000)%Z dbNow (sort (seatNumbers dto)) [] s Hnd)
      as [rs [w' E]].
    + eapply Permutation_NoDup; [apply Permutation_sym, sort_perm|exact Hlabs].
    + intros label Hin. apply Hav.
      eapply Permutation_in; [apply sort_perm|exact Hin].
    + rewrite E. eauto.
  - intros s' rs H. unfold createReservation in H.
    destruct (findSession s (dto_sessionId dto)) as [session|]; [|discriminate].
    destruct (reserveSeats _ _ _ _ _ _ _) as [e|[rs' w]] eqn:E; [discriminate|].
    inversion H; subst.
    destruct (reserveSeats_frame _ _ _ _ _ _ _ _ _ Hnd E)
      as [_ [_ [_ [added [Hrs [_ [Hlabs _]]]]]]].
    simpl in Hrs. subst added.
    rewrite <- (length_map rr_seatNumber), Hlabs.
    apply Permutation_length, sort_perm.
Qed.

Lemma createReservation_succeeds_iff_witness :
  exists s' rs,
    createReservation 30 5000 5001
      (mkCreateReservationDto 1 ["A3"; "A1"]%string "u1") demo = (s', inr rs).
Proof.
  assert (Hlabels : distinctLabels demo 1)
    by (unfold distinctLabels; simpl; repeat constructor; simpl;
        intuition discriminate).
  apply (proj1 (createReservation_succeeds_iff 30 5000 5001
                  (mkCreateReservationDto 1 ["A3"; "A1"]%string "u1") demo
                  eq_refl Hlabels)).
  exists s16. split; [reflexivity|]. split.
  - repeat constructor; simpl; intuition congruence.
  - intros label [<-|[<-|[]]]; eexists; split; reflexivity.
Defined.

(** ** The lock order *)

Lemma string_compare_refl s : String.compare s s = Eq.
Proof.
  induction s as [|c s IH]; simpl; auto.
  unfold Ascii.compare. now rewrite N.compare_refl.
Qed.

Lemma string_leb_refl s : String.leb s s = true.
Proof. unfold String.leb. now rewrite string_compare_refl. Qed.

Lemma string_leb_trans a : forall b c,
  String.leb a b = true -> String.leb b c = true -> String.leb a c = true.
Proof.
  unfold String.leb.
  induction a as [|x a IH]; intros [|y b] [|z c]; simpl; auto;
    try discriminate.
  unfold Ascii.compare.
  destruct (N.compare_spec (Ascii.N_of_ascii x) (Ascii.N_of_ascii y)) as [Exy|Exy|Exy];
    destruct (N.compare_spec (Ascii.N_of_ascii y) (Ascii.N_of_ascii z)) as [Eyz|Eyz|Eyz];
    try discriminate; intros H1 H2.
  - rewrite Exy, Eyz, N.compare_refl. eapply IH; eauto.
  - rewrite Exy. apply N.compare_lt_iff in Eyz. now rewrite Eyz.
  - rewrite <- Eyz. apply N.compare_lt_iff in Exy. now rewrite Exy.
  - assert (H : (Ascii.N_of_ascii x < Ascii.N_of_ascii z)%N) by lia.
    apply N.compare_lt_iff in H. now rewrite H.
Qed.

Lemma insert_sorted_ascending x l :
  ascending l -> ascending (insert_sorted x l).
Proof.
  induction l as [|y l IH]; simpl; [auto|].
  intros [Hy Hl]. destruct (String.leb x y) eqn:E; simpl.
  - split; [|auto]. constructor; auto.
    eapply Forall_impl; [|exact Hy]. intros z Hz.
    eapply string_leb_trans; eauto.
  - split; [|auto].
    assert (Hyx : String.leb y x = true)
      by (destruct (String.leb_total x y); congruence).
    eapply Permutation_Forall; [apply Permutation_sym, insert_sorted_perm|].
    constructor; auto.
Qed.

Lemma sort_ascending l : ascending (sort l).
Proof.
  induction l as [|x l IH]; simpl; auto. now apply insert_sorted_ascending.
Qed.

Lemma ascending_unique l1 : forall l2,
  ascending l1 -> ascending l2 -> Permutation l1 l2 -> l1 = l2.
Proof.
  induction l1 as [|x t1 IH]; intros l2 H1 H2 Hp.
  - apply Permutation_nil in Hp. now subst.
  - destruct l2 as [|y t2];
      [apply Permutation_sym, Permutation_nil in Hp; discriminate|].
    destruct H1 as [Hx Ht1]. destruct H2 as [Hy Ht2].
    assert (Exy : x = y).
    { assert (Hxy : String.leb x y = true).
      { assert (Hin : In y (x :: t1))
          by (eapply Permutation_in; [apply Permutation_sym; exact Hp|now left]).
        destruct Hin as [->|Hin]; [apply string_leb_refl|].
        rewrite Forall_forall in Hx. auto. }
      assert (Hyx : String.leb y x = true).
      { assert (Hin : In x (y :: t2))
          by (eapply Permutation_in; [exact Hp|now left]).
        destruct Hin as [->|Hin]; [apply string_leb_refl|].
        rewrite Forall_forall in Hy. auto. }
      now apply String.leb_antisym. }
    subst y. f_equal. apply IH; auto.
    eapply Permutation_cons_inv; eauto.
Qed.

(** X11. The seat labels are locked in an order that depends only on which
    labels are requested: the sorted copy is ascending, holds the requested
    labels with their multiplicities, and two requests that name the same
    labels in any order lock them in the same order. *)
Theorem sort_lock_order (l : list string) :
  ascending (sort l)
  /\ Permutation (sort l) l
  /\ (forall l', Permutation l l' -> sort l' = sort l).
Proof.
  split; [apply sort_ascending|]. split; [apply sort_perm|].
  intros l' Hp. apply ascending_unique; try apply sort_ascending.
  eapply perm_trans; [apply sort_perm|].
  eapply perm_trans; [apply Permutation_sym; exact Hp|].
  apply Permutation_sym, sort_perm.
Qed.

(** ** Confirm: what it may change *)

Lemma Forall2_refl_rel (A : Type) (R : A -> A -> Prop) l :
  (forall a, R a a) -> Forall2 R l l.
Proof. intros H. induction l; constructor; auto. Qed.

Lemma Forall2_update (A : Type) (key : A -> Id) (R : A -> A -> Prop) l a a0 :
  NoDup (map key l) -> In a0 l -> key a = key a0 ->
  (forall x, R x x) -> R a0 a ->
  Forall2 R l (update key a l).
Proof.
  intros Hnd Hin Hk Hrefl Hr.
  destruct (update_at _ key l a a0 Hnd Hin Hk) as [l1 [l2 [E1 E2]]].
  rewrite E2, E1. apply Forall2_app; [now apply Forall2_refl_rel|].
  constructor; [exact Hr|now apply Forall2_refl_rel].
Qed.

Lemma confirmedRow_trans user a b c :
  confirmedRow user a b -> confirmedRow user b c -> confirmedRow user a c.
Proof.
  intros [->|[Ha [Hu ->]]] H; auto.
  destruct H as [->|[Hb _]]; [right; auto|]. simpl in Hb. discriminate.
Qed.

Lemma soldRow_trans a b c : soldRow a b -> soldRow b c -> soldRow a c.
Proof.
  intros [->|[Ha ->]] H; auto.
  destruct H as [->|[Hb _]]; [right; auto|]. simpl in Hb. discriminate.
Qed.

Lemma confirmAll_frame user paid dbNow s group : forall acc w,
  coherent w = true -> Forall (loadedIn w) group ->
  NoDup (map groupId group) ->
  (forall r seat session, In (r, seat, session) group ->
     userId r = user /\ In r (reservations s) /\ res_status r = PENDING
     /\ findSeat s (seatId r) = Some seat
     /\ findSession s (sessionId seat) = Some session) ->
  let w' := snd (confirmAll paid dbNow group acc w) in
  Forall2 (confirmedRow user) (reservations w) (reservations w')
  /\ Forall2 soldRow (seats w) (seats w')
  /\ exists news, sales w' = sales w ++ news
                  /\ Forall (saleWritten s user paid dbNow) news.
Proof.
  induction group as [|[[r seat] session] rest IH];
    intros acc w Hc Hl Hnd Hgrp.
  - simpl. split; [|split].
    + apply Forall2_refl_rel. now left.
    + apply Forall2_refl_rel. now left.
    + exists []. now rewrite app_nil_r.
  - inversion Hl as [|? ? Hhead Hrest]; subst.
    inversion Hnd as [|? ? Hfresh Hnd']; subst.
    cbn [confirmAll].
    set (step := insertSale (seat_id seat) (userId r) (res_id r)
                   (ticketPrice session) paid dbNow
                   (saveSeat (set_seat_status SOLD seat)
                      (saveReservation (set_res_status CONFIRMED r) w))).
    assert (Estep : step = (fst step, snd step)) by reflexivity.
    rewrite Estep.
    pose proof (confirm_step_coherent paid dbNow w r seat session Hc Hhead) as Hc3.
    pose proof (confirm_step_loaded paid dbNow w r seat session Hc Hhead) as Hld.
    cbv zeta in Hc3, Hld. fold step in Hc3, Hld.
    assert (Hrest' : Forall (loadedIn (snd step)) rest).
    { rewrite Forall_forall in *. intros j Hj. apply Hld; auto.
      intros E. apply Hfresh.
      change (res_id r) with (groupId (r, seat, session)) in E.
      rewrite <- E. now apply in_map. }
    destruct (IH (acc ++ [fst step]) (snd step) Hc3 Hrest' Hnd')
      as [A [B [news [C D]]]].
    { intros r0 seat0 session0 Hin. apply Hgrp. now right. }
    destruct Hhead as [Hin [Hp [Hs Hss]]].
    destruct (Hgrp r seat session (or_introl eq_refl))
      as [Hu [Hin0 [_ [Hs0 Hss0]]]].
    pose proof Hc as Hc'. apply coherent_iff in Hc'.
    destruct Hc' as [Hseats [Hres _]].
    pose proof (pending_seat_reserved w r seat Hc Hin Hp Hs) as Hreserved.
    apply lookup_some in Hs as Hk. destruct Hk as [Hsin Hk].
    split; [|split].
    + eapply Forall2_trans_rel; [apply confirmedRow_trans| |exact A].
      unfold step. cbn [snd insertSale saveSeat saveReservation reservations].
      apply (Forall2_update _ res_id _ _ (set_res_status CONFIRMED r) r Hres Hin
               eq_refl);
        [now left|right; auto].
    + eapply Forall2_trans_rel; [apply soldRow_trans| |exact B].
      unfold step. cbn [snd insertSale saveSeat saveReservation seats].
      apply (Forall2_update _ seat_id _ _ (set_seat_status SOLD seat) seat Hseats
               Hsin eq_refl);
        [now left|right; auto].
    + exists (fst step :: news). split.
      * rewrite C. unfold step.
        cbn [fst snd insertSale saveSeat saveReservation sales].
        now rewrite <- app_assoc.
      * constructor; [|exact D]. unfold step, saleWritten.
        cbn [fst insertSale sale_userId paidAt sale_createdAt reservationId
               sale_seatId amount].
        repeat split; auto.
        exists r, seat, session. repeat split; auto.
Qed.

Lemma confirmPayment_cases now paid dbNow dto s :
  fst (confirmPayment now paid dbNow dto s) = s
  \/ exists r seat session,
       lockReservation s (cp_reservationId dto) (cp_userId dto)
       = Some (r, seat, session)
       /\ fst (confirmPayment now paid dbNow dto s)
          = snd (confirmAll paid dbNow
                   (lockRelated s (userId r) (sessionId seat) (expiresAt r))
                   [] s).
Proof.
  destruct dto as [id user]. unfold confirmPayment.
  cbn [cp_reservationId cp_userId].
  destruct (lockReservation s id user) as [[[r seat] session]|] eqn:Hl;
    [|now left].
  destruct (ReservationStatus_eqb (res_status r) CONFIRMED).
  { destruct (findSaleByReservation (sales s) (res_id r)); now left. }
  destruct (negb (ReservationStatus_eqb (res_status r) PENDING)); [now left|].
  destruct (expiresAt r <? now)%Z; [now left|].
  right. exists r, seat, session. split; [reflexivity|].
  destruct (confirmAll paid dbNow _ [] s) as [newSales w]. cbn [snd].
  destruct (findSaleByReservation newSales (res_id r)); [|reflexivity].
  destruct (findSaleById (sales w) (sale_id s0)); reflexivity.
Qed.

Lemma confirmGroup_frame paid dbNow s id user r seat session :
  coherent s = true ->
  lockReservation s id user = Some (r, seat, session) ->
  let w := snd (confirmAll paid dbNow
                  (lockRelated s (userId r) (sessionId seat) (expiresAt r))
                  [] s) in
  sessions w = sessions s
  /\ Forall2 (confirmedRow user) (reservations s) (reservations w)
  /\ Forall2 soldRow (seats s) (seats w)
  /\ exists news, sales w = sales s ++ news
                  /\ Forall (saleWritten s user paid dbNow) news.
Proof.
  intros Hc Hl w.
  destruct (lockReservation_target _ _ _ _ _ _ Hl) as [_ [Hu _]].
  pose proof Hc as Hc'. apply coherent_iff in Hc'. destruct Hc' as [_ [Hr _]].
  pose proof (confirmAll_spec paid dbNow
                (lockRelated s (userId r) (sessionId seat) (expiresAt r)) [] s
                Hc (lockRelated_loaded _ _ _ _)
                (lockRelated_unique _ _ _ _ Hr)) as [_ [Hss _]].
  split; [exact Hss|].
  apply (confirmAll_frame user paid dbNow s
           (lockRelated s (userId r) (sessionId seat) (expiresAt r)) [] s
           Hc (lockRelated_loaded _ _ _ _) (lockRelated_unique _ _ _ _ Hr)).
  intros r0 seat0 session0 Hin.
  pose proof (lockRelated_in _ _ _ _ _ _ _ Hin) as [Hu0 _].
  pose proof (lockRelated_loaded s (userId r) (sessionId seat) (expiresAt r))
    as Hall.
  rewrite Forall_forall in Hall. specialize (Hall _ Hin).
  destruct Hall as [A [B [C D]]]. repeat split; auto. congruence.
Qed.

(** X12. On a coherent store a Confirm changes nothing but this: [PENDING]
    reservations of the caller become [CONFIRMED], [RESERVED] seats become
    [SOLD], and sales are appended, each for the caller, with the call's
    [paidAt], at the [ticketPrice] of the session of its seat, and for a
    reservation that was [PENDING]; sessions, all other rows and all earlier
    sales stay as they are. *)
Theorem confirmPayment_frame (now paid dbNow : Date)
    (dto : ConfirmPaymentDto) (s : Store) :
  coherent s = true ->
  let s' := fst (confirmPayment now paid dbNow dto s) in
  sessions s' = sessions s
  /\ Forall2 (confirmedRow (cp_userId dto)) (reservations s) (reservations s')
  /\ Forall2 soldRow (seats s) (seats s')
  /\ exists news, sales s' = sales s ++ news
                  /\ Forall (saleWritten s (cp_userId dto) paid dbNow) news.
Proof.
  intros Hc s'.
  destruct (confirmPayment_cases now paid dbNow dto s)
    as [E|[r [seat [session [Hl E]]]]]; unfold s'; rewrite E.
  - split; [reflexivity|]. split; [apply Forall2_refl_rel; now left|].
    split; [apply Forall2_refl_rel; now left|].
    exists []. now rewrite app_nil_r.
  - exact (confirmGroup_frame paid dbNow s _ _ r seat session Hc Hl).
Qed.

Lemma confirmPayment_frame_witness :
  exists news,
    sales (fst (confirmPayment 6000 6001 6002 (mkConfirmPaymentDto 2 "u1") held))
    = sales held ++ news
    /\ Forall (saleWritten held "u1" 6001 6002) news.
Proof.
  apply (confirmPayment_frame 6000 6001 6002 (mkConfirmPaymentDto 2 "u1") held).
  reflexivity.
Defined.

(** ** Histories: what is never undone *)

Lemma resKept_refl a : resKept a a.
Proof. unfold resKept. tauto. Qed.

Lemma seatKept_refl a : seatKept a a.
Proof. unfold seatKept. tauto. Qed.

Lemma resKept_trans a b c : resKept a b -> resKept b c -> resKept a c.
Proof.
  intros [A1 [A2 [A3 [A4 [A5 Hb]]]]] [B1 [B2 [B3 [B4 [B5 Hc]]]]].
  repeat split; try congruence.
  intros Ha. rewrite Hc; [auto|]. rewrite (Hb Ha). exact Ha.
Qed.

Lemma seatKept_trans a b c : seatKept a b -> seatKept b c -> seatKept a c.
Proof.
  intros [A1 [A2 [A3 [A4 Hb]]]] [B1 [B2 [B3 [B4 Hc]]]].
  repeat split; try congruence. auto.
Qed.

Lemma confirmedRow_kept user a b : confirmedRow user a b -> resKept a b.
Proof.
  intros [->|[Hp [_ ->]]]; [apply resKept_refl|].
  repeat split. intros H. now destruct H.
Qed.

Lemma expiredRow_kept id a b : expiredRow id a b -> resKept a b.
Proof.
  intros [->|[Hp [_ ->]]]; [apply resKept_refl|].
  repeat split. intros H. now destruct H.
Qed.

Lemma heldRow_kept a b : heldRow a b -> seatKept a b.
Proof.
  intros [->|[Hp ->]]; [apply seatKept_refl|].
  repeat split. rewrite Hp. discriminate.
Qed.

Lemma soldRow_kept a b : soldRow a b -> seatKept a b.
Proof.
  intros [->|[Hp ->]]; [apply seatKept_refl|].
  repeat split.
Qed.

Lemma releasedRow_kept a b : releasedRow a b -> seatKept a b.
Proof.
  intros [->|[Hp ->]]; [apply seatKept_refl|].
  repeat split. rewrite Hp. discriminate.
Qed.

Lemma continues_refl s : continues s s.
Proof.
  split; [reflexivity|]. split; [exists []; now rewrite app_nil_r|].
  split.
  - exists (reservations s), []. rewrite app_nil_r. split; [reflexivity|].
    apply Forall2_refl_rel, resKept_refl.
  - apply Forall2_refl_rel, seatKept_refl.
Qed.

Lemma continues_trans s1 s2 s3 :
  continues s1 s2 -> continues s2 s3 -> continues s1 s3.
Proof.
  intros [A1 [[n1 B1] [[o1 [m1 [C1 D1]]] E1]]]
         [A2 [[n2 B2] [[o2 [m2 [C2 D2]]] E2]]].
  split; [congruence|]. split; [|split].
  - exists (n1 ++ n2). rewrite B2, B1. now rewrite app_assoc.
  - rewrite C1 in D2. apply Forall2_app_inv_l in D2.
    destruct D2 as [oa [ob [Da [Db Eo]]]].
    exists oa, (ob ++ m2). split.
    + rewrite C2, Eo. now rewrite app_assoc.
    + exact (Forall2_trans_rel _ _ resKept_trans _ _ _ D1 Da).
  - exact (Forall2_trans_rel _ _ seatKept_trans _ _ _ E1 E2).
Qed.

Lemma expireReservation_changes now id s :
  coherent s = true ->
  let s' := expireReservation now id s in
  sessions s' = sessions s /\ sales s' = sales s
  /\ Forall2 (expiredRow id) (reservations s) (reservations s')
  /\ Forall2 releasedRow (seats s) (seats s').
Proof.
  intros Hc s'. unfold s'. destruct (expirable now id s) eqn:E.
  - destruct (expireReservation_acts _ _ _ E) as [r [seat [Hl [Hp [_ ->]]]]].
    destruct (lockReservationWithSeat_some _ _ _ _ Hl) as [Hin [Hid Hs]].
    pose proof (pending_seat_reserved s r seat Hc Hin Hp Hs) as Hreserved.
    apply coherent_iff in Hc. destruct Hc as [Hseats [Hres _]].
    apply lookup_some in Hs. destruct Hs as [Hsin Hk].
    cbn [saveReservation saveSeat sessions sales reservations seats].
    split; [reflexivity|]. split; [reflexivity|]. split.
    + apply (Forall2_update _ res_id _ _ (set_res_status EXPIRED r) r Hres Hin
               eq_refl); [now left|right; auto].
    + apply (Forall2_update _ seat_id _ _ (set_seat_status AVAILABLE seat) seat
               Hseats Hsin eq_refl); [now left|right; auto].
  - rewrite (expireReservation_skips _ _ _ E).
    split; [reflexivity|]. split; [reflexivity|].
    split; apply Forall2_refl_rel; now left.
Qed.

Lemma run_continues ttl s c :
  coherent s = true -> continues s (run ttl s c).
Proof.
  intros Hc. destruct c as [now dbNow dto|now paid dbNow dto|now id];
    cbn [run].
  - unfold createReservation.
    destruct (findSession s (dto_sessionId dto)) as [session|];
      [|apply continues_refl].
    destruct (reserveSeats _ _ _ _ _ _ _) as [e|[rs w]] eqn:E;
      [apply continues_refl|]. cbn [fst].
    apply coherent_iff in Hc. destruct Hc as [Hseats _].
    destruct (reserveSeats_frame _ _ _ _ _ _ _ _ _ Hseats E)
      as [A [B [C [added [_ [D _]]]]]].
    split; [exact A|]. split; [exists []; now rewrite app_nil_r|]. split.
    + exists (reservations s), (map rowOf added). split; [exact D|].
      apply Forall2_refl_rel, resKept_refl.
    + exact (Forall2_impl _ heldRow_kept C).
  - destruct (confirmPayment_cases now paid dbNow dto s)
      as [E|[r [seat [session [Hl E]]]]]; rewrite E; [apply continues_refl|].
    destruct (confirmGroup_frame paid dbNow s _ _ r seat session Hc Hl)
      as [A [B [C D]]].
    split; [exact A|]. split; [destruct D as [news [D _]]; eauto|]. split.
    + exists (reservations (snd (confirmAll paid dbNow
                (lockRelated s (userId r) (sessionId seat) (expiresAt r))
                [] s))), [].
      rewrite app_nil_r. split; [reflexivity|].
      exact (Forall2_impl _ (confirmedRow_kept (cp_userId dto)) B).
    + exact (Forall2_impl _ soldRow_kept C).
  - destruct (expireReservation_changes now id s Hc) as [A [B [C D]]].
    split; [exact A|]. split; [exists []; now rewrite app_nil_r|]. split.
    + exists (reservations (expireReservation now id s)), [].
      rewrite app_nil_r. split; [reflexivity|].
      exact (Forall2_impl _ (expiredRow_kept id) C).
    + exact (Forall2_impl _ releasedRow_kept D).
Qed.

(** X13. Along every history of Create hold, Confirm payment and Expire that
    starts from a coherent store no row is deleted: the sessions stay, the
    sales of the start are a prefix of the final ones, the reservations of
    the start keep their places ahead of the new ones with their [id],
    [seatId], [userId], [expiresAt] and [createdAt], the seats keep their
    places with their [id], [seatNumber], [row] and [sessionId], a
    reservation that had left [PENDING] keeps its status, and a [SOLD] seat
    stays [SOLD].  (Of [updatedAt], which a save rewrites, nothing is
    said.) *)
Theorem history_keeps_records (ttl : Z) (history : list Command) (s : Store) :
  coherent s = true -> continues s (runAll ttl s history).
Proof.
  unfold runAll. revert s.
  induction history as [|c rest IH]; intros s Hc; cbn [fold_left].
  - apply continues_refl.
  - apply (continues_trans s (run ttl s c)).
    + now apply run_continues.
    + apply IH. now apply run_coherent.
Qed.

Lemma history_keeps_records_witness :
  continues held
    (runAll 30 held
       [ConfirmPayment 6000 6001 6002 (mkConfirmPaymentDto 2 "u1");
        Expire 99000 1;
        CreateHold 99001 99002 (mkCreateReservationDto 1 ["A3"%string] "u2")]).
Proof.
  apply (history_keeps_records 30 _ held). reflexivity.
Defined.

(** ** A seat is sold at most once *)

Lemma Forall2_in_l (A B : Type) (R : A -> B -> Prop) l l' a :
  Forall2 R l l' -> In a l -> exists b, In b l' /\ R a b.
Proof.
  induction 1 as [|x y l l' Hxy H IH]; simpl; [contradiction|].
  intros [->|Hin]; [eauto|]. destruct (IH Hin) as [b [Hb Hr]]. eauto.
Qed.

Lemma saleMatches_iff s x :
  saleMatches s x = true <->
  exists r, In r (reservations s) /\ res_id r = reservationId x
            /\ seatId r = sale_seatId x /\ res_status r = CONFIRMED.
Proof.
  unfold saleMatches. rewrite existsb_exists. split.
  - intros [r [Hin H]]. repeat rewrite andb_true_iff in H.
    repeat rewrite Nat.eqb_eq in H. rewrite status_confirmed in H.
    exists r. tauto.
  - intros [r [Hin [A [B C]]]]. exists r. split; [exact Hin|].
    repeat rewrite andb_true_iff. repeat rewrite Nat.eqb_eq.
    rewrite status_confirmed. tauto.
Qed.

Lemma continues_saleMatches s s' x :
  continues s s' -> saleMatches s x = true -> saleMatches s' x = true.
Proof.
  intros [_ [_ [[old [news [E H]]] _]]] Hx.
  apply saleMatches_iff in Hx. destruct Hx as [r [Hin [A [B C]]]].
  destruct (Forall2_in_l _ _ _ _ _ _ H Hin)
    as [b [Hb [E1 [E2 [_ [_ [_ Hst]]]]]]].
  apply saleMatches_iff. exists b. split.
  - rewrite E. apply in_or_app. now left.
  - assert (Hs : res_status b = CONFIRMED).
    { rewrite Hst; [exact C|]. rewrite C. discriminate. }
    repeat split; congruence.
Qed.

Lemma salesMatch_step s s' news :
  continues s s' -> sales s' = sales s ++ news ->
  salesMatch s = true -> Forall (fun x => saleMatches s' x = true) news ->
  salesMatch s' = true.
Proof.
  intros Hk E Hm Hn. unfold salesMatch in *. rewrite E, forallb_app.
  apply andb_true_iff. split.
  - rewrite forallb_forall in *. intros x Hx.
    apply (continues_saleMatches s s' x Hk). now apply Hm.
  - apply forallb_forall. now apply Forall_forall.
Qed.

Lemma run_salesMatch ttl s c :
  coherent s = true -> salesMatch s = true -> salesMatch (run ttl s c) = true.
Proof.
  intros Hc Hm. pose proof (run_continues ttl s c Hc) as Hk.
  pose proof (run_coherent ttl s c Hc) as Hc'.
  destruct c as [now dbNow dto|now paid dbNow dto|now id]; cbn [run] in *.
  - apply (salesMatch_step s _ [] Hk); auto.
    rewrite app_nil_r. unfold createReservation.
    destruct (findSession s (dto_sessionId dto)) as [session|]; auto.
    destruct (reserveSeats _ _ _ _ _ _ _) as [e|[rs w]] eqn:E; auto.
    apply coherent_iff in Hc. destruct Hc as [Hseats _].
    destruct (reserveSeats_frame _ _ _ _ _ _ _ _ _ Hseats E) as [_ [B _]].
    exact B.
  - destruct (confirmPayment_cases now paid dbNow dto s)
      as [E|[r [seat [session [Hl E]]]]]; rewrite E in *; [exact Hm|].
    destruct (confirmGroup_frame paid dbNow s _ _ r seat session Hc Hl)
      as [_ [B [_ [news [D F]]]]].
    apply (salesMatch_step s _ news Hk D Hm).
    apply Forall_forall. intros x Hx.
    rewrite Forall_forall in F.
    destruct (F x Hx) as [_ [_ [_ [r0 [_ [_ [Hin [_ [Hid [Hseat _]]]]]]]]]].
    destruct (Forall2_in_l _ _ _ _ _ _ B Hin) as [b [Hb Hrow]].
    apply coherent_iff in Hc'. destruct Hc' as [_ [Hres [_ [_ Hsales]]]].
    assert (Hxs : In x (sales (snd (confirmAll paid dbNow
                     (lockRelated s (userId r) (sessionId seat) (expiresAt r))
                     [] s)))).
    { rewrite D. apply in_or_app. now right. }
    specialize (Hsales x Hxs). unfold saleOfConfirmed in Hsales.
    apply existsb_exists in Hsales. destruct Hsales as [r' [Hr' Hcond]].
    apply andb_true_iff in Hcond. destruct Hcond as [Hk' Hconf].
    apply Nat.eqb_eq in Hk'. apply status_confirmed in Hconf.
    assert (Hbid : res_id b = res_id r0 /\ seatId b = seatId r0).
    { destruct Hrow as [->|[_ [_ ->]]]; auto. }
    assert (r' = b).
    { apply (unique_row _ res_id _ r' b Hres Hr' Hb). destruct Hbid. congruence. }
    subst r'. apply saleMatches_iff. exists b. destruct Hbid.
    repeat split; auto; congruence.
  - apply (salesMatch_step s _ [] Hk); auto.
    rewrite app_nil_r.
    now destruct (expireReservation_changes now id s Hc) as [_ [B _]].
Qed.

Lemma runAll_salesMatch ttl history : forall s,
  coherent s = true -> salesMatch s = true ->
  salesMatch (runAll ttl s history) = true.
Proof.
  unfold runAll. induction history as [|c rest IH]; cbn [fold_left];
    intros s Hc Hm; auto.
  apply IH; [now apply run_coherent|now apply run_salesMatch].
Qed.

Lemma sales_of_seat s seat :
  coherent s = true -> salesMatch s = true -> In seat (seats s) ->
  List.length (salesOfSeat s (seat_id seat))
  = if SeatStatus_eqb (seat_status seat) SOLD then 1 else 0.
Proof.
  intros Hc Hm Hin. apply coherent_iff in Hc.
  destruct Hc as [_ [Hres [_ [Hseat _]]]]. specialize (Hseat _ Hin).
  unfold salesMatch in Hm. rewrite forallb_forall in Hm.
  assert (Hconf : forall x, In x (sales s) ->
            sale_seatId x = seat_id seat ->
            exists r, In r (confirmedOn s (seat_id seat))
                      /\ res_id r = reservationId x).
  { intros x Hx Hk. destruct (proj1 (saleMatches_iff s x) (Hm x Hx))
      as [r [Hr [A [B C]]]].
    exists r. split; auto. unfold confirmedOn. apply filter_In. split; auto.
    rewrite B, Hk, Nat.eqb_refl. now apply status_confirmed. }
  assert (Hnone : List.length (confirmedOn s (seat_id seat)) = 0 ->
                  salesOfSeat s (seat_id seat) = []).
  { intros H0. apply length_zero_nil in H0.
    destruct (salesOfSeat s (seat_id seat)) as [|x l] eqn:E; auto.
    assert (Hx : In x (salesOfSeat s (seat_id seat))) by (rewrite E; now left).
    unfold salesOfSeat in Hx. apply filter_In in Hx. destruct Hx as [Hx Hk].
    apply Nat.eqb_eq in Hk. destruct (Hconf x Hx Hk) as [r [Hr _]].
    rewrite H0 in Hr. destruct Hr. }
  unfold seatCoherent in Hseat.
  destruct (seat_status seat); cbn [SeatStatus_eqb];
    repeat rewrite andb_true_iff in Hseat; repeat rewrite Nat.eqb_eq in Hseat.
  - rewrite Hnone; [reflexivity|tauto].
  - rewrite Hnone; [reflexivity|tauto].
  - destruct Hseat as [[_ Hone] Hsale].
    destruct (confirmedOn s (seat_id seat)) as [|r0 [|]] eqn:Ec;
      try discriminate.
    unfold oneSaleEach in Hsale. cbn [forallb] in Hsale.
    rewrite andb_true_r in Hsale. apply Nat.eqb_eq in Hsale.
    rewrite <- Hsale. unfold salesOfSeat, salesOf. f_equal.
    apply filter_ext_in. intros x Hx.
    assert (Hr0 : In r0 (confirmedOn s (seat_id seat))) by (rewrite Ec; now left).
    unfold confirmedOn in Hr0. apply filter_In in Hr0.
    destruct Hr0 as [Hr0 Hcond]. apply andb_true_iff in Hcond.
    destruct Hcond as [Hk0 _]. apply Nat.eqb_eq in Hk0.
    destruct (sale_seatId x =? seat_id seat) eqn:E1;
      destruct (reservationId x =? res_id r0) eqn:E2; auto.
    + apply Nat.eqb_eq in E1. apply Nat.eqb_neq in E2.
      destruct (Hconf x Hx E1) as [r [[<-|[]] Hid]]. congruence.
    + apply Nat.eqb_neq in E1. apply Nat.eqb_eq in E2.
      destruct (proj1 (saleMatches_iff s x) (Hm x Hx)) as [r [Hr [A [B C]]]].
      assert (r = r0).
      { apply (unique_row _ res_id _ r r0 Hres Hr Hr0). congruence. }
      subst r. congruence.
Qed.

(** X14. After every history of Create hold, Confirm payment and Expire on a
    freshly provisioned inventory a seat has exactly one sale if it is [SOLD]
    and none otherwise: no seat is ever sold twice, and no sale exists for a
    seat that is [AVAILABLE] or [RESERVED]. *)
Theorem seat_sold_at_most_once (ttl : Z) (history : list Command)
    (s0 : Store) (seat : Seat) :
  provisioned s0 = true ->
  In seat (seats (runAll ttl s0 history)) ->
  List.length (salesOfSeat (runAll ttl s0 history) (seat_id seat))
  = if SeatStatus_eqb (seat_status seat) SOLD then 1 else 0.
Proof.
  intros Hp Hin. apply provisioned_coherent in Hp as Hc.
  apply sales_of_seat; auto.
  - now apply runAll_coherent.
  - apply runAll_salesMatch; auto.
    unfold provisioned in Hp. repeat rewrite andb_true_iff in Hp.
    destruct Hp as [_ Hs]. apply Nat.eqb_eq, length_zero_nil in Hs.
    unfold salesMatch. now rewrite Hs.
Qed.

Lemma seat_sold_at_most_once_witness :
  List.length
    (salesOfSeat
       (runAll 30 demo
          [CreateHold 5000 5001
             (mkCreateReservationDto 1 ["A2"; "A1"]%string "u1");
           ConfirmPayment 6000 6001 6002 (mkConfirmPaymentDto 2 "u1");
           CreateHold 7000 7001 (mkCreateReservationDto 1 ["A1"%string] "u2");
           Expire 99000 1])
       1) = 1.
Proof.
  apply (seat_sold_at_most_once 30 _ demo (mkSeat 1 "A1" "A" SOLD 1)).
  - reflexivity.
  - vm_compute. auto.
Defined.

(** ** Availability accounting *)

Lemma filter_filter (A : Type) (p q : A -> bool) l :
  filter q (filter p l) = filter (fun x => p x && q x) l.
Proof.
  induction l as [|x l IH]; simpl; auto.
  destruct (p x); simpl; [destruct (q x)|]; now rewrite IH.
Qed.

Lemma count_update (A : Type) (key : A -> Id) (p : A -> bool) l a a0 :
  NoDup (map key l) -> In a0 l -> key a = key a0 ->
  List.length (filter p (update key a l)) + (if p a0 then 1 else 0)
  = List.length (filter p l) + (if p a then 1 else 0).
Proof.
  intros Hnd Hin Hk.
  destruct (update_at _ key l a a0 Hnd Hin Hk) as [l1 [l2 [E1 E2]]].
  rewrite E2, E1. repeat rewrite filter_app. cbn [filter].
  repeat rewrite length_app. destruct (p a), (p a0); simpl; lia.
Qed.

Lemma availability_of s k a :
  getSessionAvailability s k = inr a ->
  totalSeats a = List.length (seatsOf s k)
  /\ availableSeats a
     = List.length (filter (fun x => (sessionId x =? k) && available x)
                           (seats s)).
Proof.
  unfold getSessionAvailability.
  destruct (findSession s k) as [session|] eqn:E; [|discriminate].
  apply lookup_some in E. destruct E as [_ E]. rewrite E.
  intros H. inversion H; subst. cbn [totalSeats availableSeats].
  split; [reflexivity|]. unfold seatsOf. now rewrite filter_filter.
Qed.

Lemma availability_exists s s' k a :
  sessions s' = sessions s -> getSessionAvailability s k = inr a ->
  exists a', getSessionAvailability s' k = inr a'.
Proof.
  unfold getSessionAvailability, findSession. intros ->.
  destruct (lookup session_id k (sessions s)); [eauto|discriminate].
Qed.

Lemma saveSeat_counts k seat seat' w :
  NoDup (map seat_id (seats w)) -> In seat (seats w) ->
  seat_id seat' = seat_id seat -> sessionId seat' = sessionId seat ->
  List.length (seatsOf (saveSeat seat' w) k) = List.length (seatsOf w k)
  /\ List.length (filter (fun x => (sessionId x =? k) && available x)
                         (seats (saveSeat seat' w)))
     + (if (sessionId seat =? k) && available seat then 1 else 0)
     = List.length (filter (fun x => (sessionId x =? k) && available x)
                           (seats w))
       + (if (sessionId seat =? k) && available seat' then 1 else 0).
Proof.
  intros Hnd Hin Hid Hs. unfold seatsOf. cbn [saveSeat seats]. split.
  - pose proof (count_update _ seat_id (fun x => sessionId x =? k) _ seat' seat
                  Hnd Hin Hid) as H.
    cbv beta in H. rewrite Hs in H. lia.
  - pose proof (count_update _ seat_id
                  (fun x => (sessionId x =? k) && available x) _ seat' seat
                  Hnd Hin Hid) as H.
    cbv beta in H. rewrite Hs in H. exact H.
Qed.

Lemma reserveSeats_counts session user expires dbNow k labels :
  forall acc w rs w',
    NoDup (map seat_id (seats w)) ->
    reserveSeats session user expires dbNow labels acc w = inr (rs, w') ->
    List.length (seatsOf w' k) = List.length (seatsOf w k)
    /\ List.length (filter (fun x => (sessionId x =? k) && available x)
                           (seats w'))
       + (if session_id session =? k then List.length labels else 0)
       = List.length (filter (fun x => (sessionId x =? k) && available x)
                             (seats w)).
Proof.
  induction labels as [|label rest IH]; intros acc w rs w' Hnd H.
  - simpl in H. inversion H; subst. split; [reflexivity|].
    destruct (session_id session =? k); simpl; lia.
  - cbn [reserveSeats] in H.
    destruct (lockSeat w (session_id session) label) as [seat|] eqn:El;
      [|discriminate].
    destruct (SeatStatus_eqb (seat_status seat) AVAILABLE) eqn:Es;
      cbn [negb] in H; [|discriminate].
    destruct (lockSeat_label _ _ _ _ El) as [Hin [Hsess _]].
    cbn [insertReservation] in H.
    apply IH in H.
    2:{ cbn [seats saveSeat]. now rewrite update_keys. }
    unfold seatsOf in H. cbn [saveSeat seats] in H.
    destruct (saveSeat_counts k seat (set_seat_status RESERVED seat) w Hnd Hin
                eq_refl eq_refl) as [A B].
    assert (Ha : available seat = true) by exact Es.
    assert (Hb : available (set_seat_status RESERVED seat) = false)
      by reflexivity.
    rewrite Ha, Hb, Hsess, andb_false_r, andb_true_r in B.
    unfold seatsOf in A. cbn [saveSeat seats] in A, B.
    destruct H as [H1 H2]. unfold seatsOf. split; [lia|].
    cbn [List.length]. destruct (session_id session =? k); lia.
Qed.

Lemma soldRow_counts k l l' :
  Forall2 soldRow l l' ->
  List.length (filter (fun x => sessionId x =? k) l')
  = List.length (filter (fun x => sessionId x =? k) l)
  /\ List.length (filter (fun x => (sessionId x =? k) && available x) l')
     = List.length (filter (fun x => (sessionId x =? k) && available x) l).
Proof.
  induction 1 as [|a b l l' Hab H [IH1 IH2]]; [auto|].
  cbn [filter].
  assert (E : sessionId b = sessionId a /\ available b = available a).
  { destruct Hab as [->|[Hr ->]]; [auto|]. split; [reflexivity|].
    unfold available. cbn [set_seat_status seat_status]. now rewrite Hr. }
  destruct E as [-> ->].
  destruct (sessionId a =? k); cbn [andb]; [|auto].
  destruct (available a); cbn [List.length]; auto.
Qed.

Lemma sort_length l : List.length (sort l) = List.length l.
Proof. apply Permutation_length, sort_perm. Qed.

(** X15. Availability accounting. On a coherent store, for every session
    [k] that [getSessionAvailability] finds, it still finds it after any
    Create hold, Confirm payment or Expire, with the same [totalSeats]; a
    successful Create hold on [k] lowers [availableSeats] by the number of
    requested labels, an Expire that acts on a reservation of a seat of [k]
    raises it by one, and nothing else changes it: a failed call, a call on
    another session and every Confirm leave it as it was. *)
Theorem availability_accounting (ttl : Z) (s : Store) (c : Command) (k : Id)
    (a : SessionAvailabilityDto) :
  coherent s = true ->
  getSessionAvailability s k = inr a ->
  exists a',
    getSessionAvailability (run ttl s c) k = inr a'
    /\ totalSeats a' = totalSeats a
    /\ availableSeats a' + taken ttl s k c
       = availableSeats a + givenBack s k c.
Proof.
  intros Hc Ha.
  assert (Hsess : sessions (run ttl s c) = sessions s).
  { now destruct (run_continues ttl s c Hc) as [H _]. }
  destruct (availability_exists s _ k a Hsess Ha) as [a' Ha'].
  exists a'. split; [exact Ha'|].
  destruct (availability_of _ _ _ Ha) as [T A].
  destruct (availability_of _ _ _ Ha') as [T' A'].
  rewrite T, T', A, A'. clear T T' A A' Ha Ha' Hsess.
  pose proof Hc as Hc'. apply coherent_iff in Hc'.
  destruct Hc' as [Hseats _].
  destruct c as [now dbNow dto|now paid dbNow dto|now id];
    cbn [run taken givenBack].
  - unfold createReservation.
    destruct (findSession s (dto_sessionId dto)) as [session|] eqn:Ef;
      cbn [fst snd]; [|lia].
    destruct (reserveSeats _ _ _ _ _ _ _) as [e|[rs w]] eqn:E;
      cbn [fst snd]; [lia|].
    apply lookup_some in Ef. destruct Ef as [_ Ef].
    destruct (reserveSeats_counts _ _ _ _ k _ _ _ _ _ Hseats E) as [H1 H2].
    rewrite sort_length, Ef in H2. lia.
  - destruct (confirmPayment_cases now paid dbNow dto s)
      as [E|[r [seat [session [Hl E]]]]]; rewrite E; [lia|].
    destruct (confirmGroup_frame paid dbNow s _ _ r seat session Hc Hl)
      as [_ [_ [C _]]].
    destruct (soldRow_counts k _ _ C) as [H1 H2]. unfold seatsOf. lia.
  - destruct (expirable now id s) eqn:E.
    + destruct (expireReservation_acts _ _ _ E) as [r [seat [Hl [Hp [_ ->]]]]].
      rewrite Hl. cbn [andb].
      destruct (lockReservationWithSeat_some _ _ _ _ Hl) as [Hin [_ Hs]].
      pose proof (pending_seat_reserved s r seat Hc Hin Hp Hs) as Hr.
      apply lookup_some in Hs. destruct Hs as [Hsin _].
      destruct (saveSeat_counts k seat (set_seat_status AVAILABLE seat) s
                  Hseats Hsin eq_refl eq_refl) as [H1 H2].
      assert (Hb : available seat = false)
        by (unfold available; now rewrite Hr).
      assert (Hb' : available (set_seat_status AVAILABLE seat) = true)
        by reflexivity.
      rewrite Hb, Hb', andb_false_r, andb_true_r in H2.
      unfold seatsOf in *. cbn [saveReservation saveSeat seats] in *.
      destruct (sessionId seat =? k); lia.
    + rewrite (expireReservation_skips _ _ _ E).
      destruct (lockReservationWithSeat s id) as [[r seat]|]; cbn [andb]; lia.
Qed.

Lemma availability_accounting_witness :
  exists a',
    getSessionAvailability (run 30 held (Expire 99000 1)) 1 = inr a'
    /\ totalSeats a' = 3
    /\ availableSeats a' + 0 = 1 + 1.
Proof.
  apply (availability_accounting 30 held (Expire 99000 1) 1
           (mkSessionAvailabilityDto 1 "Dune" 1000 "R1" 2500 3 1
              [mkSeatAvailabilityDto "A1" "A" RESERVED false;
               mkSeatAvailabilityDto "A2" "A" RESERVED false;
               mkSeatAvailabilityDto "A3" "A" AVAILABLE true]));
    reflexivity.
Defined.

(** ** Seat generation *)

Lemma distinct_NoDup l : distinct l = true -> NoDup l.
Proof.
  induction l as [|x l IH]; simpl; [constructor|].
  rewrite andb_true_iff, negb_true_iff. intros [Hx Hl].
  constructor; auto. intros Hin.
  assert (existsb (String.eqb x) l = true); [|congruence].
  apply existsb_exists. exists x. split; auto. apply String.eqb_refl.
Qed.

Lemma NoDup_map_injective (A B : Type) (f : A -> B) l x y :
  NoDup (map f l) -> In x l -> In y l -> f x = f y -> x = y.
Proof.
  induction l as [|a l IH]; simpl; [contradiction|].
  intros Hnd Hx Hy E. inversion Hnd as [|? ? Ha Hl]; subst.
  destruct Hx as [->|Hx], Hy as [->|Hy]; auto.
  - exfalso. apply Ha. rewrite E. now apply in_map.
  - exfalso. apply Ha. rewrite <- E. now apply in_map.
Qed.

Lemma generateSeats_labels n k :
  map ps_seatNumber (generateSeats n k)
  = map (fun i => ps_seatNumber (generatedSeat 0 i)) (seq 0 n).
Proof. unfold generateSeats. rewrite map_map. reflexivity. Qed.

Lemma generated_within_rows :
  distinct (map (fun i => ps_seatNumber (generatedSeat 0 i)) (seq 0 208))
  = true
  /\ forallb (fun i => match ps_row (generatedSeat 0 i) with
                       | Some _ => true
                       | None => false
                       end) (seq 0 208) = true.
Proof. split; vm_compute; reflexivity. Qed.

(** X16. [generateSeats n k] makes [n] seats, all [AVAILABLE] and of session
    [k]. Up to 208 seats (26 rows of 8) every seat has a row letter and the
    labels are pairwise distinct; past that [rows[rowIndex]] is [undefined]:
    seat 209 has no row and the label undefined1, and from 217 seats on two
    seats carry the same label. *)
Theorem generateSeats_within_alphabet (n : nat) (k : Id) :
  List.length (generateSeats n k) = n
  /\ Forall (fun x => ps_status x = AVAILABLE /\ ps_sessionId x = k)
            (generateSeats n k)
  /\ (n <= 208 ->
      NoDup (map ps_seatNumber (generateSeats n k))
      /\ Forall (fun x => ps_row x <> None) (generateSeats n k))
  /\ (208 < n ->
      exists x, In x (generateSeats n k) /\ ps_row x = None
                /\ ps_seatNumber x = "undefined1"%string)
  /\ (216 < n -> ~ NoDup (map ps_seatNumber (generateSeats n k))).
Proof.
  destruct generated_within_rows as [Hd Hr].
  split; [|split; [|split; [|split]]].
  - unfold generateSeats. now rewrite length_map, length_seq.
  - unfold generateSeats. apply Forall_forall. intros x Hx.
    apply in_map_iff in Hx. destruct Hx as [i [<- _]]. split; reflexivity.
  - intros Hn.
    assert (Hs : seq 0 208 = seq 0 n ++ seq n (208 - n)).
    { rewrite <- seq_app. f_equal. lia. }
    split.
    + rewrite generateSeats_labels. apply distinct_NoDup in Hd.
      rewrite Hs, map_app in Hd. now apply NoDup_app_remove_r in Hd.
    + unfold generateSeats. apply Forall_forall. intros x Hx.
      apply in_map_iff in Hx. destruct Hx as [i [<- Hi]].
      rewrite forallb_forall in Hr.
      assert (Hi' : In i (seq 0 208)).
      { apply in_seq. apply in_seq in Hi. lia. }
      specialize (Hr i Hi'). cbn [generatedSeat ps_row] in *.
      destruct (charAt (i / seatsPerRow) rows); [discriminate|discriminate].
  - intros Hn. exists (generatedSeat k 208). split; [|split; reflexivity].
    unfold generateSeats. apply in_map. apply in_seq. lia.
  - intros Hn Hnd. rewrite generateSeats_labels in Hnd.
    assert (H : 208 = 216); [|discriminate].
    apply (NoDup_map_injective _ _ _ _ 208 216 Hnd).
    + apply in_seq. lia.
    + apply in_seq. lia.
    + reflexivity.
Qed.

(** ** Listing after a hold *)

Lemma insertByCreatedAt_perm r l : Permutation (insertByCreatedAt r l) (r :: l).
Proof.
  induction l as [|x l IH]; simpl; auto.
  destruct (res_createdAt x <=? res_createdAt r)%Z; auto.
  eapply perm_trans; [apply perm_skip, IH|apply perm_swap].
Qed.

Lemma orderByCreatedAtDesc_perm l : Permutation (orderByCreatedAtDesc l) l.
Proof.
  induction l as [|r l IH]; simpl; auto.
  eapply perm_trans; [apply insertByCreatedAt_perm|now apply perm_skip].
Qed.

Lemma insertByCreatedAt_descending r l :
  descending (map res_createdAt l) ->
  descending (map res_createdAt (insertByCreatedAt r l)).
Proof.
  induction l as [|x l IH]; simpl; [auto|].
  intros [Hx Hl].
  destruct (res_createdAt x <=? res_createdAt r)%Z eqn:E; simpl.
  - apply Z.leb_le in E. split; [|auto]. constructor; [exact E|].
    eapply Forall_impl; [|exact Hx]. simpl. intros; lia.
  - apply Z.leb_gt in E. split; [|auto].
    apply Forall_forall. intros y Hy.
    apply (Permutation_in y (Permutation_map res_createdAt
                               (insertByCreatedAt_perm r l))) in Hy.
    simpl in Hy. destruct Hy as [<-|Hy]; [lia|].
    rewrite Forall_forall in Hx. auto.
Qed.

Lemma orderByCreatedAtDesc_descending l :
  descending (map res_createdAt (orderByCreatedAtDesc l)).
Proof.
  induction l as [|r l IH]; simpl; auto.
  now apply insertByCreatedAt_descending.
Qed.

Lemma mapAll_perm (A B : Type) (f : A -> option B) l1 l2 :
  Permutation l1 l2 -> forall r1, mapAll f l1 = Some r1 ->
  exists r2, mapAll f l2 = Some r2 /\ Permutation r1 r2.
Proof.
  induction 1 as [|a l1 l2 H IH|a b l|l1 l2 l3 H12 IH12 H23 IH23];
    simpl; intros r1 E.
  - inversion E. eauto.
  - destruct (f a) as [b|]; [|discriminate].
    destruct (mapAll f l1) as [bs|]; [|discriminate]. inversion E; subst.
    destruct (IH bs eq_refl) as [r2 [-> Hp]]. eauto.
  - destruct (f b) as [b'|]; [|discriminate].
    destruct (f a) as [a'|]; [|discriminate].
    destruct (mapAll f l) as [bs|]; [|discriminate]. inversion E; subst.
    eexists. split; [reflexivity|apply perm_swap].
  - destruct (IH12 _ E) as [r2 [E2 P12]].
    destruct (IH23 _ E2) as [r3 [E3 P23]].
    exists r3. split; [exact E3|]. eapply perm_trans; eauto.
Qed.

Lemma mapAll_app (A B : Type) (f : A -> option B) l1 l2 r1 r2 :
  mapAll f l1 = Some r1 -> mapAll f l2 = Some r2 ->
  mapAll f (l1 ++ l2) = Some (r1 ++ r2).
Proof.
  revert r1. induction l1 as [|a l1 IH]; simpl; intros r1 E1 E2.
  - inversion E1. exact E2.
  - destruct (f a) as [b|]; [|discriminate].
    destruct (mapAll f l1) as [bs|]; [|discriminate]. inversion E1; subst.
    now rewrite (IH bs eq_refl E2).
Qed.

Lemma mapAll_ext (A B : Type) (f g : A -> option B) l r :
  (forall a b, In a l -> f a = Some b -> g a = Some b) ->
  mapAll f l = Some r -> mapAll g l = Some r.
Proof.
  revert r. induction l as [|a l IH]; simpl; intros r H E; [exact E|].
  destruct (f a) as [b|] eqn:Ea; [|discriminate].
  destruct (mapAll f l) as [bs|]; [|discriminate]. inversion E; subst.
  rewrite (H a b (or_introl eq_refl) Ea).
  rewrite (IH bs); auto.
Qed.

Lemma mapAll_total (A B : Type) (f : A -> option B) (g : B -> A) l :
  (forall b, In b l -> f (g b) = Some b) ->
  mapAll f (map g l) = Some l.
Proof.
  induction l as [|b l IH]; simpl; intros H; [reflexivity|].
  rewrite (H b (or_introl eq_refl)). rewrite IH; auto.
Qed.

Lemma reservationResponse_createdAt s l : forall r,
  mapAll (reservationResponse s) l = Some r ->
  map rr_createdAt r = map res_createdAt l.
Proof.
  induction l as [|a l IH]; simpl; intros r E.
  - inversion E. reflexivity.
  - unfold reservationResponse in E at 1.
    destruct (findSeat s (seatId a)) as [seat|]; [|discriminate].
    destruct (mapAll (reservationResponse s) l) as [bs|]; [|discriminate].
    inversion E; subst. simpl. now rewrite (IH bs eq_refl).
Qed.

Lemma heldRows_response s s' :
  Forall2 heldRow (seats s) (seats s') ->
  forall r d, reservationResponse s r = Some d ->
              reservationResponse s' r = Some d.
Proof.
  intros H r d. unfold reservationResponse.
  destruct (findSeat s (seatId r)) as [seat|] eqn:E; [|discriminate].
  destruct (heldRows_lookup _ _ _ _ H E) as [b [Eb Hb]].
  unfold findSeat. rewrite Eb.
  assert (Hn : seatNumber b = seatNumber seat).
  { destruct Hb as [->|[_ ->]]; reflexivity. }
  now rewrite Hn.
Qed.

Lemma filter_own_rows user owner rs :
  Forall (fun d => rr_userId d = owner) rs ->
  filter (fun r => (userId r =? user)%string) (map rowOf rs)
  = map rowOf (if (owner =? user)%string then rs else []).
Proof.
  induction 1 as [|d rs Hd H IH]; simpl.
  - now destruct (owner =? user)%string.
  - rewrite Hd, IH. destruct (owner =? user)%string; reflexivity.
Qed.

(** X17. Read after write. With unique seat keys, when a Create hold
    succeeds and the listing of a user worked before it, the listing of that
    user afterwards works too and shows exactly the entries it showed
    before, unchanged, together with the entries the call returned if the
    call was the user's own, newest first; the holds of one user never show
    up in, or alter, the listing of another. *)
Theorem getUserReservations_after_hold (ttl now dbNow : Date)
    (dto : CreateReservationDto) (s s' : Store)
    (rs l : list ReservationResponseDto) (user : string) :
  uniqueIds (map seat_id (seats s)) = true ->
  createReservation ttl now dbNow dto s = (s', inr rs) ->
  getUserReservations s user = Some l ->
  exists l',
    getUserReservations s' user = Some l'
    /\ Permutation l'
         ((if (dto_userId dto =? user)%string then rs else []) ++ l)
    /\ descending (map rr_createdAt l').
Proof.
  intros Hu H Hl. apply uniqueIds_NoDup in Hu.
  unfold createReservation in H.
  destruct (findSession s (dto_sessionId dto)) as [session|]; [|discriminate].
  destruct (reserveSeats _ _ _ _ _ _ _) as [e|[rs0 w]] eqn:E; [discriminate|].
  inversion H; subst w rs0. clear H.
  destruct (reserveSeats_frame _ _ _ _ _ _ _ _ _ Hu E)
    as [_ [_ [C [added [Ea [D [_ [Hheld Hseat]]]]]]]].
  cbn [app] in Ea. subst added.
  unfold getUserReservations in *. cbv zeta in *.
  set (own := fun r : Reservation => (userId r =? user)%string) in *.
  set (mine := if (dto_userId dto =? user)%string then rs else []).
  destruct (mapAll_perm _ _ _ _ _ (orderByCreatedAtDesc_perm _) _ Hl)
    as [l0 [E0 P0]].
  assert (E1 : mapAll (reservationResponse s') (filter own (reservations s))
               = Some l0).
  { apply (mapAll_ext _ _ (reservationResponse s)); [|exact E0].
    intros a b _. apply heldRows_response. exact C. }
  assert (E2 : mapAll (reservationResponse s') (map rowOf mine) = Some mine).
  { apply mapAll_total. intros b Hb.
    assert (Hin : In b rs).
    { unfold mine in Hb. destruct (dto_userId dto =? user)%string;
        [exact Hb|destruct Hb]. }
    rewrite Forall_forall in Hseat.
    destruct (Hseat b Hin) as [seat [Hs [_ [Hn _]]]].
    unfold reservationResponse. cbn [rowOf seatId]. rewrite Hs, Hn.
    now destruct b. }
  assert (E3 : filter own (reservations s')
               = filter own (reservations s) ++ map rowOf mine).
  { rewrite D, filter_app. f_equal. apply filter_own_rows.
    eapply Forall_impl; [|exact Hheld]. intros d Hd. apply Hd. }
  pose proof (mapAll_app _ _ _ _ _ _ _ E1 E2) as E4. rewrite <- E3 in E4.
  destruct (mapAll_perm _ _ _ _ _
              (Permutation_sym (orderByCreatedAtDesc_perm _)) _ E4)
    as [l' [E5 P5]].
  exists l'. split; [exact E5|]. split.
  - eapply perm_trans; [apply Permutation_sym, P5|].
    eapply perm_trans; [apply Permutation_app_comm|].
    apply Permutation_app_head. now apply Permutation_sym.
  - rewrite (reservationResponse_createdAt _ _ _ E5).
    apply orderByCreatedAtDesc_descending.
Qed.

Lemma getUserReservations_after_hold_witness :
  exists l',
    getUserReservations held "u1" = Some l'
    /\ Permutation l'
         ([mkReservationResponseDto 1 1 "A1" "u1" PENDING 35000 5001;
           mkReservationResponseDto 2 2 "A2" "u1" PENDING 35000 5001] ++ [])
    /\ descending (map rr_createdAt l').
Proof.
  apply (getUserReservations_after_hold 30 5000 5001
           (mkCreateReservationDto 1 ["A2"; "A1"]%string "u1") demo held
           [mkReservationResponseDto 1 1 "A1" "u1" PENDING 35000 5001;
            mkReservationResponseDto 2 2 "A2" "u1" PENDING 35000 5001]
           [] "u1"); reflexivity.
Defined.

(** ** The expiration consumer: timer and shutdown *)

Section ConsumerShutdown.

Import Batch.

Variables M W X : Type.
Variable expire : Id -> W -> W * (X + unit).

Lemma allSettled_world items : forall w,
  fst (allSettled expire items w)
  = expireAll expire (map (@data Id M) items) w.
Proof.
  unfold expireAll. induction items as [|i rest IH]; intros w; simpl; auto.
  destruct (expire (data i) w) as [w1 r] eqn:E. rewrite <- IH. simpl.
  destruct (allSettled expire rest w1). reflexivity.
Qed.

Lemma flush_expirations (bp : BatchProcessor Id M) w chan :
  processing bp = false ->
  let '(bp', w', chan') := flush (processExpirations expire) (bp, w, chan) in
  batch bp' = [] /\ processing bp' = false /\ options bp' = options bp
  /\ w' = expireAll expire (map (@data Id M) (batch bp)) w
  /\ map (@settledMessage M) chan'
     = map (@settledMessage M) chan ++ map (@message Id M) (batch bp).
Proof.
  intros Hp. unfold flush. rewrite Hp. cbn [orb].
  destruct (List.length (batch bp) =? 0) eqn:E.
  - apply Nat.eqb_eq, length_zero_nil in E. rewrite E. simpl.
    rewrite app_nil_r. auto.
  - pose proof (allSettled_world (batch bp) w) as Hw.
    unfold processExpirations.
    destruct (allSettled expire (batch bp) w) as [w1 results].
    cbn [fst] in Hw.
    destruct (0 <? _); cbn [batch processing options];
      rewrite map_app, map_map; cbn [settledMessage]; auto.
Qed.

Lemma handleReservationExpire_keeps id (m : M) obp w chan seen w0 :
  idleConsumer obp ->
  map (@settledMessage M) chan ++ map (@message Id M) (bufferedItems obp)
  = map snd seen ->
  expireAll expire (map (@data Id M) (bufferedItems obp)) w
  = expireAll expire (map fst seen) w0 ->
  let '(obp', w', chan') := handleReservationExpire expire id m (obp, w, chan) in
  idleConsumer obp'
  /\ map (@settledMessage M) chan' ++ map (@message Id M) (bufferedItems obp')
     = map snd (seen ++ [(id, m)])
  /\ expireAll expire (map (@data Id M) (bufferedItems obp')) w'
     = expireAll expire (map fst (seen ++ [(id, m)])) w0.
Proof.
  intros Hidle Hmsg Hw. unfold handleReservationExpire.
  set (bp := match obp with
             | Some bp => bp
             | None => mkBatchProcessor [] false 0 consumerOptions
             end).
  assert (Hbp : processing bp = false /\ options bp = consumerOptions
                /\ batch bp = bufferedItems obp).
  { unfold bp. destruct obp as [bp0|]; simpl in *; tauto. }
  destruct Hbp as [Hp [Ho Hb]]. rewrite <- Hb in Hmsg, Hw.
  repeat rewrite map_app. cbn [map fst snd].
  unfold expireAll in *. rewrite fold_left_app, <- Hw, <- Hmsg.
  unfold addMessage. cbn [options batch processing batchNumber].
  destruct (batchSize (options bp) <=? _).
  - pose proof (flush_expirations
                  (mkBatchProcessor (batch bp ++ [mkBatchMessage id m])
                     (processing bp) (batchNumber bp) (options bp))
                  w chan Hp) as H.
    destruct (flush (processExpirations expire) _) as [[bp' w'] chan'].
    cbn [options batch processing] in H.
    destruct H as [Hb' [Hp' [Ho' [Hw' Hc']]]].
    cbn [idleConsumer bufferedItems]. rewrite Hb', Hc', Hw'.
    split; [split; congruence|]. unfold expireAll.
    rewrite map_app, map_app, fold_left_app. simpl.
    rewrite app_nil_r, <- app_assoc. auto.
  - cbn [idleConsumer bufferedItems options batch processing].
    split; [auto|]. rewrite map_app, map_app, fold_left_app. simpl.
    rewrite <- app_assoc. auto.
Qed.

Lemma deliver_keeps messages w0 :
  let '(obp, w, chan) := deliver expire messages (None, w0, []) in
  idleConsumer obp
  /\ map (@settledMessage M) chan ++ map (@message Id M) (bufferedItems obp)
     = map snd messages
  /\ expireAll expire (map (@data Id M) (bufferedItems obp)) w
     = expireAll expire (map fst messages) w0.
Proof.
  induction messages as [|[id m] seen IH] using rev_ind.
  - simpl. auto.
  - unfold deliver in *. rewrite fold_left_app. cbn [fold_left fst snd].
    destruct (fold_left _ seen (None, w0, [])) as [[obp w] chan].
    destruct IH as [A [B C]].
    exact (handleReservationExpire_keeps id m obp w chan seen w0 A B C).
Qed.

(** X18. Whatever the service does, once the flush timer has fired or the
    consumer has been shut down, every expire message delivered so far has
    been acknowledged or negatively acknowledged exactly once, in delivery
    order, nothing is left in the buffer, and the service has been called
    exactly once per message, in delivery order. *)
Theorem shutdown_settles_every_message (messages : list (Id * M)) (w : W) :
  (let '(obp', w', chan') :=
     onModuleDestroy expire (deliver expire messages (None, w, [])) in
   buffered obp' = 0
   /\ map (@settledMessage M) chan' = map snd messages
   /\ w' = expireAll expire (map fst messages) w)
  /\ (let '(obp', w', chan') :=
        onFlushTimer expire (deliver expire messages (None, w, [])) in
      buffered obp' = 0
      /\ map (@settledMessage M) chan' = map snd messages
      /\ w' = expireAll expire (map fst messages) w).
Proof.
  pose proof (deliver_keeps messages w) as H.
  destruct (deliver expire messages (None, w, [])) as [[obp w1] chan].
  destruct H as [Hidle [Hmsg Hw]].
  destruct obp as [bp|]; cbn [onModuleDestroy onFlushTimer].
  - cbn [idleConsumer bufferedItems] in *. destruct Hidle as [Hp _].
    pose proof (flush_expirations bp w1 chan Hp) as H.
    assert (Hfinal : let '(bp', w', chan') :=
                       flush (processExpirations expire) (bp, w1, chan) in
                     buffered (Some bp') = 0
                     /\ map (@settledMessage M) chan' = map snd messages
                     /\ w' = expireAll expire (map fst messages) w).
    { destruct (flush (processExpirations expire) (bp, w1, chan))
        as [[bp' w'] chan'].
      destruct H as [Hb [_ [_ [Hw' Hc]]]]. cbn [buffered].
      rewrite Hb, Hc, Hw'. auto. }
    clear H. split.
    + unfold stop.
      destruct (flush (processExpirations expire) (bp, w1, chan))
        as [[bp' w'] chan'].
      exact Hfinal.
    + unfold tick. destruct (0 <? List.length (batch bp)) eqn:E.
      * destruct (flush (processExpirations expire) (bp, w1, chan))
          as [[bp' w'] chan'].
        exact Hfinal.
      * apply Nat.ltb_ge in E.
        assert (Hnil : batch bp = []) by (apply length_zero_nil; lia).
        clear Hfinal. rewrite Hnil in Hmsg, Hw. cbn [buffered]. rewrite Hnil.
        cbn [map] in Hmsg, Hw. rewrite app_nil_r in Hmsg.
        unfold expireAll in Hw at 1. simpl in Hw. auto.
  - cbn [bufferedItems buffered map] in *. rewrite app_nil_r in Hmsg.
    unfold expireAll in Hw at 1. simpl in Hw. auto.
Qed.

End ConsumerShutdown.

(** ** Any sequence of Expire calls *)

Lemma lookup_map (A : Type) (key : A -> Id) (f : A -> A) k l :
  (forall x, key (f x) = key x) ->
  lookup key k (map f l) = option_map f (lookup key k l).
Proof.
  intros Hk. unfold lookup. induction l as [|x l IH]; simpl; auto.
  rewrite Hk. destruct (key x =? k); auto.
Qed.

Lemma existsb_orb_split (A : Type) (f g : A -> bool) l :
  existsb (fun x => f x || g x) l = existsb f l || existsb g l.
Proof.
  induction l as [|x l IH]; simpl; auto. rewrite IH.
  destruct (f x), (g x), (existsb f l), (existsb g l); reflexivity.
Qed.

Lemma existsb_none (A : Type) (f : A -> bool) l :
  (forall x, In x l -> f x = false) -> existsb f l = false.
Proof.
  induction l as [|x l IH]; simpl; auto. intros H.
  rewrite (H x (or_introl eq_refl)). simpl. auto.
Qed.

Lemma existsb_same (A : Type) (f : A -> bool) l l' :
  (forall x, In x l <-> In x l') -> existsb f l = existsb f l'.
Proof.
  intros H. apply eq_true_iff_eq. repeat rewrite existsb_exists.
  split; intros [x [Hx Hf]]; exists x; split; auto; now apply H.
Qed.

Lemma existsb_map_compose (A B : Type) (f : A -> B) (p : B -> bool) l :
  existsb p (map f l) = existsb (fun x => p (f x)) l.
Proof. induction l as [|x l IH]; simpl; auto. now rewrite IH. Qed.

Lemma existsb_ext_eq (A : Type) (f g : A -> bool) l :
  (forall x, f x = g x) -> existsb f l = existsb g l.
Proof.
  intros H. induction l as [|x l IH]; simpl; auto. now rewrite H, IH.
Qed.

Lemma lock_finds s r seat :
  NoDup (map res_id (reservations s)) -> In r (reservations s) ->
  findSeat s (seatId r) = Some seat ->
  lockReservationWithSeat s (res_id r) = Some (r, seat).
Proof.
  unfold lockReservationWithSeat. intros Hnd Hin Hs.
  induction (reservations s) as [|x l IH]; simpl in *; [contradiction|].
  inversion Hnd as [|? ? Hx Hnd']; subst. rewrite find_app.
  destruct Hin as [->|Hin].
  - unfold joinSeat. rewrite Hs. simpl. now rewrite Nat.eqb_refl.
  - assert (Hne : (res_id x =? res_id r) = false).
    { apply Nat.eqb_neq. intros E. apply Hx. rewrite E. now apply in_map. }
    unfold joinSeat at 1. destruct (findSeat s (seatId x)); simpl.
    + rewrite Hne. auto.
    + auto.
Qed.

Lemma lapses_one now id s r :
  lapses [(now, id)] s r
  = isPending r && hasSeat s r && (id =? res_id r) && (expiresAt r <? now)%Z.
Proof.
  unfold lapses, named. simpl. rewrite orb_false_r.
  now rewrite andb_assoc.
Qed.

Lemma expire_one now id s :
  NoDup (map seat_id (seats s)) -> NoDup (map res_id (reservations s)) ->
  expireReservation now id s = afterCalls [(now, id)] s.
Proof.
  intros Hseats Hres. destruct (expirable now id s) eqn:E.
  - destruct (expireReservation_acts _ _ _ E) as [r [seat [Hl [Hp [Ht ->]]]]].
    destruct (lockReservationWithSeat_some _ _ _ _ Hl) as [Hin [Hid Hs]].
    pose proof Hs as Hs'. apply lookup_some in Hs'. destruct Hs' as [Hsin Hk].
    assert (Hr : lapses [(now, id)] s r = true).
    { rewrite lapses_one. unfold hasSeat. rewrite Hs, Hid, Nat.eqb_refl.
      apply status_pending in Hp. rewrite Hp. simpl. now apply Z.ltb_lt. }
    assert (Hothers : forall y, In y (reservations s) ->
              lapses [(now, id)] s y = true -> y = r).
    { intros y Hy H. rewrite lapses_one in H.
      repeat rewrite andb_true_iff in H. destruct H as [[[_ _] H] _].
      apply Nat.eqb_eq in H.
      apply (unique_row _ res_id _ y r Hres Hy Hin). congruence. }
    unfold afterCalls, saveReservation, saveSeat. cbn [sessions seats
      reservations sales]. f_equal.
    + unfold update. apply map_ext_in. intros x Hx.
      cbn [set_seat_status seat_id]. unfold release, releases.
      destruct (seat_id x =? seat_id seat) eqn:Ex.
      * apply Nat.eqb_eq in Ex.
        assert (x = seat) by (apply (unique_row _ seat_id _ x seat Hseats Hx Hsin Ex)).
        subst x.
        assert (Hex : existsb (fun r0 => lapses [(now, id)] s r0
                                         && (seatId r0 =? seat_id seat))
                              (reservations s) = true).
        { apply existsb_exists. exists r. split; [exact Hin|].
          rewrite Hr, Hk. simpl. apply Nat.eqb_refl. }
        now rewrite Hex.
      * rewrite existsb_none; [reflexivity|]. intros y Hy.
        destruct (lapses [(now, id)] s y) eqn:Ey; [|reflexivity].
        rewrite (Hothers y Hy Ey), <- Hk, Nat.eqb_sym. exact Ex.
    + unfold update. apply map_ext_in. intros y Hy.
      cbn [set_res_status res_id]. unfold lapse.
      destruct (res_id y =? res_id r) eqn:Ey.
      * apply Nat.eqb_eq in Ey.
        assert (y = r) by (apply (unique_row _ res_id _ y r Hres Hy Hin Ey)).
        subst y. now rewrite Hr.
      * destruct (lapses [(now, id)] s y) eqn:El; [|reflexivity].
        rewrite (Hothers y Hy El), Nat.eqb_refl in Ey. discriminate.
  - rewrite (expireReservation_skips _ _ _ E).
    assert (Hnone : forall y, In y (reservations s) ->
              lapses [(now, id)] s y = false).
    { intros y Hy. destruct (lapses [(now, id)] s y) eqn:El; [|reflexivity].
      rewrite lapses_one in El. repeat rewrite andb_true_iff in El.
      destruct El as [[[Hp Hs] Hid] Ht]. apply Nat.eqb_eq in Hid.
      unfold hasSeat in Hs.
      destruct (findSeat s (seatId y)) as [seat|] eqn:Ef; [|discriminate].
      pose proof (lock_finds s y seat Hres Hy Ef) as Hl.
      unfold expirable in E. rewrite Hid, Hl, Hp, Ht in E. discriminate. }
    unfold afterCalls. destruct s as [ss st rt sl].
    cbn [sessions seats reservations sales] in *. f_equal.
    + rewrite <- (map_id st) at 1. apply map_ext_in. intros x Hx.
      unfold release, releases. cbn [reservations].
      rewrite existsb_none; [reflexivity|]. intros y Hy.
      now rewrite (Hnone y Hy).
    + rewrite <- (map_id rt) at 1. apply map_ext_in. intros y Hy.
      unfold lapse. now rewrite (Hnone y Hy).
Qed.

Lemma hasSeat_afterCalls calls s r :
  hasSeat (afterCalls calls s) r = hasSeat s r.
Proof.
  unfold hasSeat, findSeat, afterCalls. cbn [seats].
  rewrite lookup_map.
  - destruct (lookup seat_id (seatId r) (seats s)); reflexivity.
  - intros x. unfold release. destruct (releases calls s x); reflexivity.
Qed.

Lemma lapses_cons c rest s r :
  lapses (c :: rest) s r
  = lapses [c] s r || lapses rest (afterCalls [c] s) (lapse [c] s r).
Proof.
  assert (Hn : named (c :: rest) r = named [c] r || named rest r).
  { unfold named. simpl. now rewrite orb_false_r. }
  unfold lapse. destruct (lapses [c] s r) eqn:E; cbn [orb].
  - unfold lapses in *. rewrite Hn.
    destruct (isPending r), (hasSeat s r), (named [c] r); simpl in *;
      try discriminate; reflexivity.
  - unfold lapses in *. rewrite hasSeat_afterCalls, Hn.
    destruct (isPending r), (hasSeat s r), (named [c] r); simpl in *;
      try discriminate; reflexivity.
Qed.

Lemma afterCalls_cons c rest s :
  afterCalls rest (afterCalls [c] s) = afterCalls (c :: rest) s.
Proof.
  unfold afterCalls at 1 3.
  change (seats (afterCalls [c] s)) with (map (release [c] s) (seats s)).
  change (reservations (afterCalls [c] s))
    with (map (lapse [c] s) (reservations s)).
  change (sessions (afterCalls [c] s)) with (sessions s).
  change (sales (afterCalls [c] s)) with (sales s).
  f_equal.
  - rewrite map_map. apply map_ext. intros x.
    assert (Hrel : releases rest (afterCalls [c] s) (release [c] s x)
                   = existsb (fun r => lapses rest (afterCalls [c] s)
                                              (lapse [c] s r)
                                       && (seatId r =? seat_id x))
                             (reservations s)).
    { unfold releases at 1. cbn [afterCalls reservations].
      rewrite existsb_map_compose. apply existsb_ext_eq. intros r.
      f_equal. assert (Hs : seatId (lapse [c] s r) = seatId r).
      { unfold lapse. destruct (lapses [c] s r); reflexivity. }
      assert (Hx : seat_id (release [c] s x) = seat_id x).
      { unfold release. destruct (releases [c] s x); reflexivity. }
      now rewrite Hs, Hx. }
    assert (Hall : releases (c :: rest) s x
                   = releases [c] s x
                     || releases rest (afterCalls [c] s) (release [c] s x)).
    { rewrite Hrel. unfold releases. rewrite <- existsb_orb_split.
      apply existsb_ext_eq. intros r. rewrite lapses_cons.
      destruct (lapses [c] s r), (lapses rest (afterCalls [c] s) (lapse [c] s r)),
        (seatId r =? seat_id x); reflexivity. }
    unfold release at 1 3. rewrite Hall. clear Hrel Hall.
    generalize (releases rest (afterCalls [c] s) (release [c] s x)).
    intros b. unfold release.
    destruct (releases [c] s x), b; reflexivity.
  - rewrite map_map. apply map_ext. intros r.
    unfold lapse at 1 3. rewrite lapses_cons.
    unfold lapse. destruct (lapses [c] s r) eqn:E; simpl.
    + unfold lapses. reflexivity.
    + reflexivity.
Qed.

Lemma afterCalls_nil s : afterCalls [] s = s.
Proof.
  assert (Hl : forall r, lapses [] s r = false).
  { intros r. unfold lapses, named. simpl. apply andb_false_r. }
  unfold afterCalls. destruct s as [ss st rt sl].
  cbn [sessions seats reservations sales]. f_equal.
  - transitivity (map (fun x : Seat => x) st); [|apply map_id].
    apply map_ext. intros x.
    unfold release, releases. rewrite existsb_none; [reflexivity|].
    intros r _. now rewrite Hl.
  - transitivity (map (fun r : Reservation => r) rt); [|apply map_id].
    apply map_ext. intros r. unfold lapse. now rewrite Hl.
Qed.

Lemma afterCalls_keys calls s :
  map seat_id (seats (afterCalls calls s)) = map seat_id (seats s)
  /\ map res_id (reservations (afterCalls calls s))
     = map res_id (reservations s).
Proof.
  unfold afterCalls. cbn [seats reservations]. repeat rewrite map_map.
  split; apply map_ext; intros a.
  - unfold release. destruct (releases calls s a); reflexivity.
  - unfold lapse. destruct (lapses calls s a); reflexivity.
Qed.

Lemma expireCalls_afterCalls calls : forall s,
  NoDup (map seat_id (seats s)) -> NoDup (map res_id (reservations s)) ->
  expireCalls calls s = afterCalls calls s.
Proof.
  unfold expireCalls.
  induction calls as [|[now id] rest IH]; intros s Hseats Hres;
    cbn [fold_left fst snd].
  - now rewrite afterCalls_nil.
  - rewrite (expire_one now id s Hseats Hres).
    destruct (afterCalls_keys [(now, id)] s) as [K1 K2].
    rewrite IH; [apply afterCalls_cons| |]; congruence.
Qed.

Lemma afterCalls_same calls calls' s :
  (forall c, In c calls <-> In c calls') ->
  afterCalls calls' s = afterCalls calls s.
Proof.
  intros H.
  assert (Hl : forall r, lapses calls' s r = lapses calls s r).
  { intros r. unfold lapses, named. f_equal. apply existsb_same.
    intros c. symmetry. apply H. }
  unfold afterCalls. f_equal.
  - apply map_ext. intros x. unfold release, releases.
    rewrite (existsb_ext_eq _ _
               (fun r => lapses calls s r && (seatId r =? seat_id x)));
      [reflexivity|]. intros r. now rewrite Hl.
  - apply map_ext. intros r. unfold lapse. now rewrite Hl.
Qed.

(** X19. With unique seat and reservation keys, any sequence of Expire calls
    leaves exactly this: the status of a reservation is [EXPIRED] if it was
    [PENDING], has its seat row, and some call named it with a clock past its
    deadline, and is as before otherwise; the status of a seat is
    [AVAILABLE] if such a reservation references it, and is as before
    otherwise; the other columns, the sessions and the sales are untouched.
    So the outcome does not depend on the order of the calls nor on how
    often a call is repeated: redelivered expire messages change nothing. *)
Theorem expireCalls_outcome (calls : list (Date * Id)) (s : Store) :
  uniqueIds (map seat_id (seats s)) = true ->
  uniqueIds (map res_id (reservations s)) = true ->
  expireCalls calls s = afterCalls calls s
  /\ map res_status (reservations (expireCalls calls s))
     = map (fun r => if lapses calls s r then EXPIRED else res_status r)
           (reservations s)
  /\ map seat_status (seats (expireCalls calls s))
     = map (fun x => if releases calls s x then AVAILABLE else seat_status x)
           (seats s)
  /\ forall calls', (forall c, In c calls <-> In c calls') ->
                    expireCalls calls' s = expireCalls calls s.
Proof.
  intros Hseats Hres. apply uniqueIds_NoDup in Hseats, Hres.
  split; [now apply expireCalls_afterCalls|].
  split; [|split].
  - rewrite expireCalls_afterCalls by assumption.
    unfold afterCalls. cbn [reservations]. rewrite map_map.
    apply map_ext. intros r. unfold lapse.
    destruct (lapses calls s r); reflexivity.
  - rewrite expireCalls_afterCalls by assumption.
    unfold afterCalls. cbn [seats]. rewrite map_map.
    apply map_ext. intros x. unfold release.
    destruct (releases calls s x); reflexivity.
  - intros calls' H.
    repeat rewrite expireCalls_afterCalls by assumption.
    now apply afterCalls_same.
Qed.

Lemma expireCalls_outcome_witness :
  expireCalls [(99000%Z, 1); (99000%Z, 2); (99000%Z, 1)] held
  = afterCalls [(99000%Z, 1); (99000%Z, 2); (99000%Z, 1)] held
  /\ map res_status
       (reservations
          (expireCalls [(99000%Z, 1); (99000%Z, 2); (99000%Z, 1)] held))
     = [EXPIRED; EXPIRED]
  /\ map seat_status
       (seats (expireCalls [(99000%Z, 1); (99000%Z, 2); (99000%Z, 1)] held))
     = [AVAILABLE; AVAILABLE; AVAILABLE]
  /\ expireCalls [(99000%Z, 2); (99000%Z, 1)] held
     = expireCalls [(99000%Z, 1); (99000%Z, 2); (99000%Z, 1)] held.
Proof.
  destruct (expireCalls_outcome [(99000%Z, 1); (99000%Z, 2); (99000%Z, 1)] held
              eq_refl eq_refl) as [H1 [H2 [H3 H4]]].
  split; [exact H1|]. split; [exact H2|]. split; [exact H3|].
  apply H4. intros c. simpl. tauto.
Defined.

(** ** Confirm against Expire *)

Lemma lockReservation_in s id user r seat session :
  lockReservation s id user = Some (r, seat, session) ->
  In r (reservations s).
Proof.
  intros H. unfold lockReservation in H. apply find_some in H.
  destruct H as [Hj _]. apply in_flat_map in Hj. destruct Hj as [x [Hx Hjx]].
  apply joinSeatSession_in in Hjx. destruct Hjx as [seat' [ss' [E _]]].
  inversion E; subst. exact Hx.
Qed.

Lemma lockReservation_with_seat s id user r seat session :
  NoDup (map res_id (reservations s)) ->
  lockReservation s id user = Some (r, seat, session) ->
  lockReservationWithSeat s id = Some (r, seat).
Proof.
  intros Hres Hl.
  destruct (lockReservation_target _ _ _ _ _ _ Hl) as [Hid [_ [Hs _]]].
  rewrite <- Hid. apply lock_finds; auto.
  exact (lockReservation_in _ _ _ _ _ _ Hl).
Qed.

(** X20. Confirm and Expire exclude each other. For a [PENDING] reservation
    of the caller on a coherent store and one clock reading [now]: past the
    deadline Confirm is rejected as expired and changes nothing, Expire
    leaves the reservation with status [EXPIRED] and its seat with status
    [AVAILABLE], and every later Confirm is rejected because the reservation
    is [EXPIRED]; up to and including the deadline Expire leaves the store
    as it is, Confirm succeeds and leaves the seat with status [SOLD], and
    afterwards no Expire, whatever its clock, changes the store: a paid
    seat is never released. *)
Theorem confirm_expire_exclusive (now paid dbNow later : Date) (id : Id)
    (user : string) (s : Store) (r : Reservation) (seat : Seat)
    (session : Session) :
  coherent s = true ->
  lockReservation s id user = Some (r, seat, session) ->
  res_status r = PENDING ->
  ((expiresAt r < now)%Z ->
   confirmPayment now paid dbNow (mkConfirmPaymentDto id user) s
   = (s, inl (BadRequestException ReservationHasExpired))
   /\ (exists r' seat',
         lockReservationWithSeat (expireReservation now id s) id
         = Some (r', seat')
         /\ res_status r' = EXPIRED /\ seat_status seat' = AVAILABLE
         /\ res_id r' = id /\ seat_id seat' = seat_id seat)
   /\ confirmPayment later paid dbNow (mkConfirmPaymentDto id user)
        (expireReservation now id s)
      = (expireReservation now id s,
         inl (BadRequestException (ReservationNotPending EXPIRED))))
  /\ ((now <= expiresAt r)%Z ->
      expireReservation now id s = s
      /\ exists s' d,
           confirmPayment now paid dbNow (mkConfirmPaymentDto id user) s
           = (s', inr d)
           /\ (exists r' seat',
                 lockReservationWithSeat s' id = Some (r', seat')
                 /\ res_status r' = CONFIRMED /\ seat_status seat' = SOLD
                 /\ res_id r' = id /\ seat_id seat' = seat_id seat)
           /\ forall clock, expireReservation clock id s' = s').
Proof.
  intros Hc Hl Hp.
  pose proof Hc as Hc'. apply coherent_iff in Hc'.
  destruct Hc' as [Hseats [Hres _]].
  pose proof (lockReservation_with_seat _ _ _ _ _ _ Hres Hl) as Hw.
  destruct (lockReservation_target _ _ _ _ _ _ Hl) as [Hid [Hu [Hs [Hss _]]]].
  pose proof (lockReservation_in _ _ _ _ _ _ Hl) as Hin.
  split.
  - intros Hlate.
    assert (E : expirable now id s = true).
    { unfold expirable. rewrite Hw. apply status_pending in Hp. rewrite Hp.
      simpl. now apply Z.ltb_lt. }
    destruct (expireReservation_acts _ _ _ E) as [r0 [seat0 [Hl0 [_ [_ Es]]]]].
    rewrite Hw in Hl0. inversion Hl0; subst r0 seat0.
    split; [|split].
    + unfold confirmPayment. cbn [cp_reservationId cp_userId].
      rewrite Hl, Hp. cbn [ReservationStatus_eqb negb].
      apply Z.ltb_lt in Hlate. now rewrite Hlate.
    + exists (set_res_status EXPIRED r), (set_seat_status AVAILABLE seat).
      rewrite Es. split; [now apply expireReservation_locks_expired|].
      repeat split; auto.
    + rewrite Es.
      assert (Hl1 : lockReservation
                      (saveReservation (set_res_status EXPIRED r)
                         (saveSeat (set_seat_status AVAILABLE seat) s))
                      id user
                    = Some (set_res_status EXPIRED r,
                            set_seat_status AVAILABLE seat, session)).
      { apply lockReservation_by_key; auto.
        - cbn [saveReservation saveSeat reservations].
          apply (lookup_update_hit _ res_id id _ r); auto.
          rewrite <- Hid. now apply lookup_unique.
        - cbn [set_res_status seatId]. unfold findSeat.
          cbn [saveReservation saveSeat seats].
          apply (lookup_update_hit _ seat_id _ _ seat); auto.
          apply lookup_some in Hs. now destruct Hs. }
      unfold confirmPayment. cbn [cp_reservationId cp_userId].
      rewrite Hl1. reflexivity.
  - intros Hnow. split.
    + apply expireReservation_skips. unfold expirable. rewrite Hw.
      assert (Ht : (expiresAt r <? now)%Z = false) by (apply Z.ltb_ge; lia).
      rewrite Ht. apply andb_false_r.
    + destruct (confirmPayment_pending_response now paid dbNow id user s r
                  seat session Hc Hl Hp Hnow)
        as [s' [d [sale [E [_ [_ [_ [_ [Hc1 [_ [Hl' _]]]]]]]]]]].
      apply coherent_iff in Hc1. destruct Hc1 as [_ [Hres' _]].
      pose proof (lockReservation_with_seat _ _ _ _ _ _ Hres' Hl') as Hw'.
      exists s', d. split; [exact E|]. split.
      * exists (set_res_status CONFIRMED r), (set_seat_status SOLD seat).
        split; [exact Hw'|]. repeat split; auto.
      * intros clock. apply expireReservation_skips. unfold expirable.
        now rewrite Hw'.
Qed.

Lemma confirm_expire_exclusive_witness :
  (confirmPayment 99000 6001 6002 (mkConfirmPaymentDto 2 "u1") held
   = (held, inl (BadRequestException ReservationHasExpired))
   /\ (exists r' seat',
         lockReservationWithSeat (expireReservation 99000 2 held) 2
         = Some (r', seat')
         /\ res_status r' = EXPIRED /\ seat_status seat' = AVAILABLE
         /\ res_id r' = 2 /\ seat_id seat' = 2)
   /\ confirmPayment 99500 6001 6002 (mkConfirmPaymentDto 2 "u1")
        (expireReservation 99000 2 held)
      = (expireReservation 99000 2 held,
         inl (BadRequestException (ReservationNotPending EXPIRED))))
  /\ (expireReservation 6000 2 held = held
      /\ exists s' d,
           confirmPayment 6000 6001 6002 (mkConfirmPaymentDto 2 "u1") held
           = (s', inr d)
           /\ (exists r' seat',
                 lockReservationWithSeat s' 2 = Some (r', seat')
                 /\ res_status r' = CONFIRMED /\ seat_status seat' = SOLD
                 /\ res_id r' = 2 /\ seat_id seat' = 2)
           /\ forall clock, expireReservation clock 2 s' = s').
Proof.
  split.
  - apply (proj1 (confirm_expire_exclusive 99000 6001 6002 99500 2 "u1" held
                    (mkReservation 2 2 "u1" PENDING 35000 5001)
                    (mkSeat 2 "A2" "A" RESERVED 1) s16
                    eq_refl eq_refl eq_refl)).
    reflexivity.
  - apply (proj2 (confirm_expire_exclusive 6000 6001 6002 99500 2 "u1" held
                    (mkReservation 2 2 "u1" PENDING 35000 5001)
                    (mkSeat 2 "A2" "A" RESERVED 1) s16
                    eq_refl eq_refl eq_refl)).
    discriminate.
Defined.

(** ** Confirm: the errors it can answer with *)

Lemma confirmed_has_sale s r seat :
  coherent s = true -> salesMatch s = true ->
  In r (reservations s) -> res_status r = CONFIRMED ->
  findSeat s (seatId r) = Some seat ->
  exists sale,
    findSaleByReservation (sales s) (res_id r) = Some sale
    /\ reservationId sale = res_id r /\ sale_seatId sale = seatId r.
Proof.
  intros Hc Hm Hin Hst Hs. apply coherent_iff in Hc.
  destruct Hc as [_ [Hres [_ [Hseat _]]]].
  apply lookup_some in Hs. destruct Hs as [Hsin Hk].
  specialize (Hseat _ Hsin).
  assert (Hr : In r (confirmedOn s (seat_id seat))).
  { unfold confirmedOn. apply filter_In. split; auto.
    rewrite Hk, Nat.eqb_refl. now apply status_confirmed. }
  assert (Hsale : List.length (salesOf s (res_id r)) = 1).
  { unfold seatCoherent in Hseat.
    destruct (seat_status seat);
      repeat rewrite andb_true_iff in Hseat;
      repeat rewrite Nat.eqb_eq in Hseat.
    - destruct Hseat as [_ H0]. apply length_zero_nil in H0.
      rewrite H0 in Hr. destruct Hr.
    - destruct Hseat as [_ H0]. apply length_zero_nil in H0.
      rewrite H0 in Hr. destruct Hr.
    - destruct Hseat as [_ Hone]. unfold oneSaleEach in Hone.
      rewrite forallb_forall in Hone. apply Nat.eqb_eq. now apply Hone. }
  unfold salesOf in Hsale.
  destruct (filter (fun x => reservationId x =? res_id r) (sales s))
    as [|sale [|]] eqn:Ef; try discriminate.
  exists sale. unfold findSaleByReservation.
  split; [now apply (lookup_first _ reservationId _ _ sale [])|].
  assert (Hx : In sale (filter (fun x => reservationId x =? res_id r)
                               (sales s))) by (rewrite Ef; now left).
  apply filter_In in Hx. destruct Hx as [Hx Hid]. apply Nat.eqb_eq in Hid.
  split; [exact Hid|].
  unfold salesMatch in Hm. rewrite forallb_forall in Hm.
  destruct (proj1 (saleMatches_iff s sale) (Hm sale Hx)) as [r' [Hr' [A [B _]]]].
  assert (r' = r).
  { apply (unique_row _ res_id _ r' r Hres Hr' Hin). congruence. }
  subst r'. now rewrite B.
Qed.

Lemma confirmPayment_answers now paid dbNow dto s :
  coherent s = true -> salesMatch s = true ->
  match snd (confirmPayment now paid dbNow dto s) with
  | inr d => sr_reservationId d = cp_reservationId dto
  | inl e =>
    e = NotFoundException (ReservationNotFound (cp_reservationId dto))
    \/ e = BadRequestException ReservationHasExpired
    \/ exists st, st <> PENDING /\ st <> CONFIRMED
                  /\ e = BadRequestException (ReservationNotPending st)
  end.
Proof.
  intros Hc Hm. destruct dto as [id user]. cbn [cp_reservationId].
  destruct (lockReservation s id user) as [[[r seat] session]|] eqn:Hl.
  2:{ unfold confirmPayment. cbn [cp_reservationId cp_userId].
      rewrite Hl. cbn [snd]. now left. }
  destruct (lockReservation_target _ _ _ _ _ _ Hl) as [Hid [Hu [Hs [Hss _]]]].
  pose proof (lockReservation_in _ _ _ _ _ _ Hl) as Hin.
  destruct (res_status r) eqn:Est.
  - destruct (expiresAt r <? now)%Z eqn:El.
    + unfold confirmPayment. cbn [cp_reservationId cp_userId].
      rewrite Hl, Est. cbn [ReservationStatus_eqb negb]. rewrite El.
      cbn [snd]. right. now left.
    + apply Z.ltb_ge in El.
      destruct (confirmPayment_pending_response now paid dbNow id user s r
                  seat session Hc Hl Est El) as [s' [d [sale [E [H1 _]]]]].
      rewrite E. exact H1.
  - destruct (confirmed_has_sale s r seat Hc Hm Hin Est Hs)
      as [sale [Hf [Hrid Hsid]]].
    unfold confirmPayment. cbn [cp_reservationId cp_userId].
    rewrite Hl, Est. cbn [ReservationStatus_eqb]. rewrite Hf. cbn [snd].
    unfold saleResponse. rewrite Hsid, Hs, Hss.
    cbn [afterCommit sr_reservationId]. congruence.
  - unfold confirmPayment. cbn [cp_reservationId cp_userId].
    rewrite Hl, Est. cbn [ReservationStatus_eqb negb snd].
    right. right. exists EXPIRED. repeat split; discriminate || reflexivity.
  - unfold confirmPayment. cbn [cp_reservationId cp_userId].
    rewrite Hl, Est. cbn [ReservationStatus_eqb negb snd].
    right. right. exists CANCELLED. repeat split; discriminate || reflexivity.
Qed.

(** X21. After any history of Create hold, Confirm payment and Expire on a
    freshly provisioned inventory, a Confirm either returns the sale of the
    reservation it was asked for or is rejected with one of three answers:
    reservation not found, reservation has expired, or reservation no longer
    pending.  The internal failures of the code (confirmed but sale record
    not found, primary sale not found, sale not found after creation, a
    missing relation) cannot occur. *)
Theorem confirmPayment_never_fails_internally (ttl : Z)
    (history : list Command) (s0 : Store) (now paid dbNow : Date)
    (dto : ConfirmPaymentDto) :
  provisioned s0 = true ->
  match snd (confirmPayment now paid dbNow dto (runAll ttl s0 history)) with
  | inr d => sr_reservationId d = cp_reservationId dto
  | inl e =>
    e = NotFoundException (ReservationNotFound (cp_reservationId dto))
    \/ e = BadRequestException ReservationHasExpired
    \/ exists st, st <> PENDING /\ st <> CONFIRMED
                  /\ e = BadRequestException (ReservationNotPending st)
  end.
Proof.
  intros Hp. apply provisioned_coherent in Hp as Hc.
  apply confirmPayment_answers.
  - now apply runAll_coherent.
  - apply runAll_salesMatch; auto.
    unfold provisioned in Hp. repeat rewrite andb_true_iff in Hp.
    destruct Hp as [_ Hs]. apply Nat.eqb_eq, length_zero_nil in Hs.
    unfold salesMatch. now rewrite Hs.
Qed.

Lemma confirmPayment_never_fails_internally_witness :
  match snd (confirmPayment 7000 7001 7002 (mkConfirmPaymentDto 1 "u1")
               (runAll 30 demo
                  [CreateHold 5000 5001
                     (mkCreateReservationDto 1 ["A2"; "A1"]%string "u1");
                   ConfirmPayment 6000 6001 6002 (mkConfirmPaymentDto 2 "u1")]))
  with
  | inr d => sr_reservationId d = 1
  | inl e =>
    e = NotFoundException (ReservationNotFound 1)
    \/ e = BadRequestException ReservationHasExpired
    \/ exists st, st <> PENDING /\ st <> CONFIRMED
                  /\ e = BadRequestException (ReservationNotPending st)
  end.
Proof.
  apply (confirmPayment_never_fails_internally 30
           [CreateHold 5000 5001
              (mkCreateReservationDto 1 ["A2"; "A1"]%string "u1");
            ConfirmPayment 6000 6001 6002 (mkConfirmPaymentDto 2 "u1")]
           demo 7000 7001 7002 (mkConfirmPaymentDto 1 "u1")).
  reflexivity.
Defined.

(** ** The scheduled expiration of a hold *)

Lemma created_rows ttl now dbNow dto s s' rs :
  coherent s = true ->
  createReservation ttl now dbNow dto s = (s', inr rs) ->
  forall d, In d rs ->
    rr_status d = PENDING /\ rr_expiresAt d = (now + ttl * 1000)%Z
    /\ exists seat,
         lockReservationWithSeat s' (rr_id d) = Some (rowOf d, seat)
         /\ seat_id seat = rr_seatId d.
Proof.
  intros Hc H d Hd.
  pose proof (createReservation_coherent ttl now dbNow dto s Hc) as Hc'.
  rewrite H in Hc'. cbn [fst] in Hc'.
  apply coherent_iff in Hc. destruct Hc as [Hseats _].
  apply coherent_iff in Hc'. destruct Hc' as [_ [Hres' _]].
  unfold createReservation in H.
  destruct (findSession s (dto_sessionId dto)) as [session|]; [|discriminate].
  destruct (reserveSeats _ _ _ _ _ _ _) as [e|[rs0 w]] eqn:E; [discriminate|].
  inversion H; subst w rs0. clear H.
  destruct (reserveSeats_frame _ _ _ _ _ _ _ _ _ Hseats E)
    as [_ [_ [_ [added [Ea [D [_ [Hheld Hseat]]]]]]]].
  cbn [app] in Ea. subst added.
  rewrite Forall_forall in Hheld, Hseat.
  destruct (Hheld d Hd) as [Hst [_ [Hex _]]].
  destruct (Hseat d Hd) as [seat [Hs _]].
  split; [exact Hst|]. split; [exact Hex|]. exists seat. split.
  - change (rr_id d) with (res_id (rowOf d)). apply lock_finds; auto.
    rewrite D. apply in_or_app. right. now apply in_map.
  - apply lookup_some in Hs. now destruct Hs.
Qed.

Lemma scheduleExpirations_ids ttl rs :
  map pub_reservationId (scheduleExpirations ttl true rs) = map rr_id rs
  /\ scheduleExpirations ttl false rs = [].
Proof.
  unfold scheduleExpirations. induction rs as [|d l [IH1 IH2]]; simpl; auto.
  split; [now f_equal|exact IH2].
Qed.

(** X22. The expire message of a hold. After a successful Create hold with
    the channel up, one message per created reservation is published, each
    with a TTL of [ttl * 1000] ms. If the message is published no earlier
    than the call read its clock and handled no earlier than its TTL after
    that, then the Expire it triggers on the store the call left leaves the
    reservation with status [EXPIRED] and its seat with status [AVAILABLE],
    unless it reads exactly the deadline [now + ttl * 1000]: then the
    deadline test [new Date() <= expiresAt] skips, the store is unchanged
    and the hold stays [PENDING]. *)
Theorem scheduled_expiration (ttl now dbNow : Date)
    (dto : CreateReservationDto) (s s' : Store)
    (rs : list ReservationResponseDto) (m : Published)
    (published handled : Date) :
  coherent s = true ->
  createReservation ttl now dbNow dto s = (s', inr rs) ->
  In m (scheduleExpirations ttl true rs) ->
  (now <= published)%Z ->
  (published + pub_expiration m <= handled)%Z ->
  map pub_reservationId (scheduleExpirations ttl true rs) = map rr_id rs
  /\ scheduleExpirations ttl false rs = []
  /\ pub_expiration m = (ttl * 1000)%Z
  /\ expirable handled (pub_reservationId m) s'
     = negb (handled =? now + ttl * 1000)%Z
  /\ (handled = (now + ttl * 1000)%Z ->
      expireReservation handled (pub_reservationId m) s' = s')
  /\ (handled <> (now + ttl * 1000)%Z ->
      exists d r' seat',
        In d rs /\ rr_id d = pub_reservationId m
        /\ lockReservationWithSeat
             (expireReservation handled (pub_reservationId m) s')
             (pub_reservationId m) = Some (r', seat')
        /\ res_status r' = EXPIRED /\ seat_status seat' = AVAILABLE
        /\ userId r' = rr_userId d /\ seatId r' = rr_seatId d
        /\ seat_id seat' = rr_seatId d
        /\ findSeat (expireReservation handled (pub_reservationId m) s')
                    (rr_seatId d) = Some seat').
Proof.
  intros Hc H Hm Hpub Hhandled.
  pose proof (scheduleExpirations_ids ttl rs) as [Hids Hoff].
  unfold scheduleExpirations in Hm. apply in_flat_map in Hm.
  destruct Hm as [d [Hd Hm]]. simpl in Hm. destruct Hm as [<-|[]].
  cbn [pub_reservationId pub_expiration] in *.
  destruct (created_rows ttl now dbNow dto s s' rs Hc H d Hd)
    as [Hst [Hex [seat [Hl Hk]]]].
  assert (E : expirable handled (rr_id d) s'
              = negb (handled =? now + ttl * 1000)%Z).
  { unfold expirable. rewrite Hl. unfold isPending.
    cbn [rowOf res_status expiresAt]. rewrite Hst, Hex. cbn [ReservationStatus_eqb andb].
    destruct (handled =? now + ttl * 1000)%Z eqn:Eq; cbn [negb].
    - apply Z.eqb_eq in Eq. apply Z.ltb_ge. lia.
    - apply Z.eqb_neq in Eq. apply Z.ltb_lt. lia. }
  split; [exact Hids|]. split; [exact Hoff|]. split; [reflexivity|].
  split; [exact E|]. split.
  - intros Heq. apply expireReservation_skips. rewrite E.
    apply Z.eqb_eq in Heq. now rewrite Heq.
  - intros Hne. apply Z.eqb_neq in Hne. rewrite Hne in E. cbn [negb] in E.
    destruct (expireReservation_acts _ _ _ E) as [r0 [seat0 [Hl0 [_ [_ ->]]]]].
    rewrite Hl in Hl0. inversion Hl0; subst r0 seat0.
    destruct (lockReservationWithSeat_some _ _ _ _ Hl) as [Hin [_ Hs]].
    exists d, (set_res_status EXPIRED (rowOf d)),
      (set_seat_status AVAILABLE seat).
    split; [exact Hd|]. split; [reflexivity|].
    split; [now apply expireReservation_locks_expired|].
    repeat split; auto.
    unfold findSeat. cbn [saveReservation saveSeat seats].
    apply (lookup_update_hit _ seat_id _ _ seat); auto.
Qed.

Lemma scheduled_expiration_witness :
  expireReservation 35000 2 held = held
  /\ exists d r' seat',
       In d [mkReservationResponseDto 1 1 "A1" "u1" PENDING 35000 5001;
             mkReservationResponseDto 2 2 "A2" "u1" PENDING 35000 5001]
       /\ rr_id d = 2
       /\ lockReservationWithSeat (expireReservation 35001 2 held) 2
          = Some (r', seat')
       /\ res_status r' = EXPIRED /\ seat_status seat' = AVAILABLE
       /\ userId r' = rr_userId d /\ seatId r' = rr_seatId d
       /\ seat_id seat' = rr_seatId d
       /\ findSeat (expireReservation 35001 2 held) (rr_seatId d)
          = Some seat'.
Proof.
  split.
  - refine (proj1 (proj2 (proj2 (proj2 (proj2
             (scheduled_expiration 30 5000 5001
                (mkCreateReservationDto 1 ["A2"; "A1"]%string "u1") demo held
                [mkReservationResponseDto 1 1 "A1" "u1" PENDING 35000 5001;
                 mkReservationResponseDto 2 2 "A2" "u1" PENDING 35000 5001]
                (mkPublished 2 30000) 5000 35000 eq_refl eq_refl
                (or_intror (or_introl eq_refl)) _ _))))) eq_refl);
      discriminate.
  - refine (proj2 (proj2 (proj2 (proj2 (proj2
             (scheduled_expiration 30 5000 5001
                (mkCreateReservationDto 1 ["A2"; "A1"]%string "u1") demo held
                [mkReservationResponseDto 1 1 "A1" "u1" PENDING 35000 5001;
                 mkReservationResponseDto 2 2 "A2" "u1" PENDING 35000 5001]
                (mkPublished 2 30000) 5001 35001 eq_refl eq_refl
                (or_intror (or_introl eq_refl)) _ _))))) _);
      discriminate.
Defined.

(** ** The availability view against Create hold *)

Lemma find_filter (A : Type) (p q : A -> bool) l :
  find (fun x => p x && q x) l = find q (filter p l).
Proof.
  induction l as [|x l IH]; simpl; auto.
  destruct (p x); simpl; auto. now rewrite IH.
Qed.

Lemma find_label l x :
  NoDup (map seatNumber l) -> In x l ->
  find (fun y => (seatNumber y =? seatNumber x)%string) l = Some x.
Proof.
  induction l as [|y l IH]; simpl; [contradiction|].
  intros Hnd Hin. inversion Hnd as [|? ? Hy Hl]; subst.
  destruct Hin as [->|Hin].
  - now rewrite String.eqb_refl.
  - destruct (seatNumber y =? seatNumber x)%string eqn:E; auto.
    apply String.eqb_eq in E. exfalso. apply Hy. rewrite E. now apply in_map.
Qed.

(** X23. The availability view tells what Create hold will do. When the seat
    labels of a session are pairwise distinct, a request for the one seat of
    an entry of [getSessionAvailability] succeeds with a [PENDING] hold of
    that seat for the caller if the entry says [isAvailable], and otherwise
    is rejected, leaving the store as it is, with the seat-not-available
    answer that names the status the entry shows. *)
Theorem available_entry_can_be_held (ttl now dbNow : Date) (s : Store)
    (k : Id) (a : SessionAvailabilityDto) (e : SeatAvailabilityDto)
    (user : string) :
  getSessionAvailability s k = inr a ->
  NoDup (map sa_seatNumber (av_seats a)) ->
  In e (av_seats a) ->
  let dto := mkCreateReservationDto k [sa_seatNumber e] user in
  (isAvailable e = true ->
   exists s' d,
     createReservation ttl now dbNow dto s = (s', inr [d])
     /\ rr_seatNumber d = sa_seatNumber e /\ rr_userId d = user
     /\ rr_status d = PENDING
     /\ rr_expiresAt d = (now + ttl * 1000)%Z)
  /\ (isAvailable e = false ->
      createReservation ttl now dbNow dto s
      = (s, inl (BadRequestException
                   (SeatNotAvailable (sa_seatNumber e) (sa_status e))))).
Proof.
  intros Ha Hnd He dto. unfold getSessionAvailability in Ha.
  destruct (findSession s k) as [session|] eqn:Ef; [|discriminate].
  pose proof Ef as Ek. apply lookup_some in Ek. destruct Ek as [_ Ek].
  inversion Ha; subst a. clear Ha. cbn [av_seats] in *.
  rewrite Ek in *. rewrite map_map in Hnd. cbn [sa_seatNumber] in Hnd.
  apply in_map_iff in He. destruct He as [x [<- Hx]].
  cbn [sa_seatNumber sa_status isAvailable].
  assert (Hl : lockSeat s k (seatNumber x) = Some x).
  { unfold lockSeat. rewrite find_filter. now apply find_label. }
  unfold createReservation, dto.
  cbn [dto_sessionId seatNumbers dto_userId sort insert_sorted
         sa_seatNumber].
  rewrite Ef. cbn [reserveSeats]. rewrite Ek, Hl. unfold available. split.
  - intros Hav. rewrite Hav. cbn [negb insertReservation app].
    eexists. eexists. split; [reflexivity|].
    cbn [rr_seatNumber rr_userId rr_status rr_expiresAt set_seat_status
           seatNumber userId res_status expiresAt]. auto.
  - intros Hav. rewrite Hav. reflexivity.
Qed.

Lemma available_entry_can_be_held_witness :
  (exists s' d,
     createReservation 30 7000 7001 (mkCreateReservationDto 1 ["A3"%string] "u2")
       held = (s', inr [d])
     /\ rr_seatNumber d = "A3"%string /\ rr_userId d = "u2"%string
     /\ rr_status d = PENDING
     /\ rr_expiresAt d = (7000 + 30 * 1000)%Z)
  /\ createReservation 30 7000 7001
       (mkCreateReservationDto 1 ["A1"%string] "u2") held
     = (held, inl (BadRequestException (SeatNotAvailable "A1" RESERVED))).
Proof.
  assert (Hlabels : NoDup ["A1"; "A2"; "A3"]%string)
    by (repeat constructor; simpl; intuition discriminate).
  split.
  - apply (proj1 (available_entry_can_be_held 30 7000 7001 held 1
             (mkSessionAvailabilityDto 1 "Dune" 1000 "R1" 2500 3 1
                [mkSeatAvailabilityDto "A1" "A" RESERVED false;
                 mkSeatAvailabilityDto "A2" "A" RESERVED false;
                 mkSeatAvailabilityDto "A3" "A" AVAILABLE true])
             (mkSeatAvailabilityDto "A3" "A" AVAILABLE true) "u2"
             eq_refl Hlabels (or_intror (or_intror (or_introl eq_refl))))).
    reflexivity.
  - apply (proj2 (available_entry_can_be_held 30 7000 7001 held 1
             (mkSessionAvailabilityDto 1 "Dune" 1000 "R1" 2500 3 1
                [mkSeatAvailabilityDto "A1" "A" RESERVED false;
                 mkSeatAvailabilityDto "A2" "A" RESERVED false;
                 mkSeatAvailabilityDto "A3" "A" AVAILABLE true])
             (mkSeatAvailabilityDto "A1" "A" RESERVED false) "u2"
             eq_refl Hlabels (or_introl eq_refl))).
    reflexivity.
Defined.

(** ** No double booking *)

Lemma reserveSeats_holds session user expires dbNow labels :
  forall acc w rs w',
    NoDup (map seat_id (seats w)) ->
    reserveSeats session user expires dbNow labels acc w = inr (rs, w') ->
    forall label, In label labels ->
      exists c, lockSeat w' (session_id session) label = Some c
                /\ seat_status c = RESERVED.
Proof.
  induction labels as [|l rest IH]; intros acc w rs w' Hnd H label Hin;
    [destruct Hin|].
  cbn [reserveSeats] in H.
  destruct (lockSeat w (session_id session) l) as [b|] eqn:El; [|discriminate].
  destruct (SeatStatus_eqb (seat_status b) AVAILABLE) eqn:Es;
    cbn [negb] in H; [|discriminate].
  assert (Hb : seat_status b = AVAILABLE)
    by (destruct (seat_status b); simpl in Es; congruence).
  cbn [insertReservation] in H.
  match type of H with
  | reserveSeats _ _ _ _ _ _ ?w2 = _ =>
    assert (Hnd' : NoDup (map seat_id (seats w2)))
      by (cbn [saveSeat seats]; rewrite update_keys; exact Hnd);
    pose proof (reserveSeats_frame _ _ _ _ _ _ _ _ _ Hnd' H) as Hframe
  end.
  destruct (string_dec label l) as [->|Hne].
  - pose proof (lockSeat_after_hold w (session_id session) l b Hnd El Hb) as Hl.
    destruct Hframe as [_ [_ [C _]]].
    cbn [seats saveSeat] in C.
    pose proof (heldRows_lock (session_id session) l _ _ C) as Hlock.
    cbv zeta in Hlock. unfold lockSeat in Hl. cbn [seats saveSeat] in Hl.
    rewrite Hl in Hlock. destruct Hlock as [c [Hc Hrel]].
    exists c. split; [exact Hc|].
    destruct Hrel as [->|[Hav _]]; [reflexivity|]. simpl in Hav. discriminate.
  - destruct Hin as [->|Hin]; [congruence|].
    exact (IH _ _ _ _ Hnd' H label Hin).
Qed.

(** X24. No double booking. With unique seat keys and pairwise distinct
    seat labels in the session, once a Create hold has succeeded, every
    Create hold on the same session that asks for one of the labels it holds
    is rejected, whoever asks and whatever else it asks for, with the seat
    loop's answer for one of its labels (seat not found, or seat not
    available with a status other than [AVAILABLE]), and leaves the store
    untouched. *)
Theorem held_label_cannot_be_held_again (ttl now dbNow now2 dbNow2 : Date)
    (dto dto2 : CreateReservationDto) (s s' : Store)
    (rs : list ReservationResponseDto) (label : string) :
  uniqueIds (map seat_id (seats s)) = true ->
  distinctLabels s (dto_sessionId dto) ->
  createReservation ttl now dbNow dto s = (s', inr rs) ->
  dto_sessionId dto2 = dto_sessionId dto ->
  In label (seatNumbers dto) -> In label (seatNumbers dto2) ->
  exists e,
    createReservation ttl now2 dbNow2 dto2 s' = (s', inl e)
    /\ seatFailure (dto_sessionId dto2) (seatNumbers dto2) e.
Proof.
  intros Hu _ H Hsame Hin Hin2. apply uniqueIds_NoDup in Hu.
  unfold createReservation in H.
  destruct (findSession s (dto_sessionId dto)) as [session|] eqn:Ef;
    [|discriminate].
  destruct (reserveSeats _ _ _ _ _ _ _) as [e0|[rs0 w]] eqn:E; [discriminate|].
  inversion H; subst w rs0. clear H.
  destruct (reserveSeats_frame _ _ _ _ _ _ _ _ _ Hu E) as [Hss [_ [C _]]].
  assert (Hu' : NoDup (map seat_id (seats s')))
    by (rewrite (heldRows_ids _ _ C); exact Hu).
  assert (Hs : In label (sort (seatNumbers dto)))
    by (eapply Permutation_in; [apply Permutation_sym, sort_perm|exact Hin]).
  destruct (reserveSeats_holds _ _ _ _ _ _ _ _ _ Hu E label Hs)
    as [c [Hc Hst]].
  assert (Hbad : unavailable s' (session_id session) label).
  { unfold unavailable. rewrite Hc, Hst. discriminate. }
  assert (Hs2 : In label (sort (seatNumbers dto2)))
    by (eapply Permutation_in; [apply Permutation_sym, sort_perm|exact Hin2]).
  destruct (reserveSeats_must_fail session (dto_userId dto2)
              (now2 + ttl * 1000)%Z dbNow2 s' label _ Hs2 Hbad [] s' Hu'
              (heldRows_refl _)) as [e He].
  pose proof Ef as Ek. apply lookup_some in Ek. destruct Ek as [_ Ek].
  unfold createReservation, findSession. rewrite Hsame, Hss.
  unfold findSession in Ef. rewrite Ef, He.
  exists e. split; [reflexivity|].
  apply reserveSeats_error in He. rewrite Ek in He.
  assert (Hf : seatFailure (dto_sessionId dto) (seatNumbers dto2) e).
  { destruct He as [l [Hl Hcase]]. exists l. split; auto.
    eapply Permutation_in; [apply sort_perm|exact Hl]. }
  exact Hf.
Qed.

Lemma held_label_cannot_be_held_again_witness :
  exists e,
    createReservation 30 7000 7001
      (mkCreateReservationDto 1 ["A3"; "A1"]%string "u2") held = (held, inl e)
    /\ seatFailure 1 ["A3"; "A1"]%string e.
Proof.
  apply (held_label_cannot_be_held_again 30 5000 5001 7000 7001
           (mkCreateReservationDto 1 ["A2"; "A1"]%string "u1")
           (mkCreateReservationDto 1 ["A3"; "A1"]%string "u2") demo held
           [mkReservationResponseDto 1 1 "A1" "u1" PENDING 35000 5001;
            mkReservationResponseDto 2 2 "A2" "u1" PENDING 35000 5001]
           "A1"%string).
  - reflexivity.
  - unfold distinctLabels. simpl. repeat constructor; simpl;
      intuition discriminate.
  - reflexivity.
  - reflexivity.
  - simpl. auto.
  - simpl. auto.
Defined.

(** ** Create hold: the answer to a label requested twice *)

Lemma reserveSeats_first_rejected s session user expires dbNow labels :
  forall pre acc w e,
    NoDup (map seat_id (seats w)) -> NoDup pre ->
    (forall l, In l pre ->
       exists a, lockSeat s (session_id session) l = Some a
                 /\ seat_status a = AVAILABLE
                 /\ lockSeat w (session_id session) l
                    = Some (set_seat_status RESERVED a)) ->
    (forall l, ~ In l pre ->
       lockSeat w (session_id session) l = lockSeat s (session_id session) l) ->
    reserveSeats session user expires dbNow labels acc w = inl e ->
    exists mid label post,
      labels = mid ++ label :: post
      /\ NoDup (pre ++ mid)
      /\ allAvailable s (session_id session) (pre ++ mid)
      /\ rejectedAt s (session_id session) (pre ++ mid) label e.
Proof.
  induction labels as [|l rest IH]; intros pre acc w e Hnd Hpre Hheld Hfree H;
    [discriminate|].
  assert (Hav : allAvailable s (session_id session) pre).
  { intros l0 Hl0. destruct (Hheld l0 Hl0) as [a [A [B _]]]. eauto. }
  cbn [reserveSeats] in H.
  destruct (in_dec string_dec l pre) as [Hin|Hout].
  - destruct (Hheld l Hin) as [a [Ha [Hst Hw]]]. rewrite Hw in H.
    cbn [set_seat_status seat_status SeatStatus_eqb negb] in H.
    inversion H; subst e. exists [], l, rest. rewrite app_nil_r.
    repeat split; auto. unfold rejectedAt. rewrite Ha, Hst. cbn. auto.
  - rewrite (Hfree l Hout) in H.
    destruct (lockSeat s (session_id session) l) as [b|] eqn:El.
    + destruct (SeatStatus_eqb (seat_status b) AVAILABLE) eqn:Es;
        cbn [negb] in H.
      * assert (Hb : seat_status b = AVAILABLE)
          by (destruct (seat_status b); simpl in Es; congruence).
        assert (Elw : lockSeat w (session_id session) l = Some b)
          by (rewrite (Hfree l Hout); exact El).
        destruct (lockSeat_label _ _ _ _ Elw) as [Hbin [_ Hlab]].
        cbn [insertReservation] in H.
        apply (IH (pre ++ [l])) in H.
        -- destruct H as [mid [label [post [E [A [B C]]]]]].
           exists (l :: mid), label, post. rewrite E.
           replace (pre ++ l :: mid) with ((pre ++ [l]) ++ mid)
             by (rewrite <- app_assoc; reflexivity).
           repeat split; auto.
        -- cbn [seats saveSeat]. now rewrite update_keys.
        -- apply NoDup_snoc; auto.
        -- intros l0 Hl0. apply in_app_or in Hl0.
           destruct Hl0 as [Hl0|[<-|[]]].
           ++ destruct (Hheld l0 Hl0) as [a [A [B C]]].
              exists a. repeat split; auto.
              change (lockSeat (saveSeat (set_seat_status RESERVED b) w)
                        (session_id session) l0
                      = Some (set_seat_status RESERVED a)).
              rewrite lockSeat_other_label; auto. congruence.
           ++ exists b. repeat split; auto.
              change (lockSeat (saveSeat (set_seat_status RESERVED b) w)
                        (session_id session) l
                      = Some (set_seat_status RESERVED b)).
              now apply lockSeat_after_hold.
        -- intros l0 Hl0.
           change (lockSeat (saveSeat (set_seat_status RESERVED b) w)
                     (session_id session) l0
                   = lockSeat s (session_id session) l0).
           rewrite lockSeat_other_label; auto.
           ++ apply Hfree. intros Hc. apply Hl0. apply in_or_app. now left.
           ++ intros Hc. apply Hl0. apply in_or_app. right. left. congruence.
      * inversion H; subst e. exists [], l, rest. rewrite app_nil_r.
        repeat split; auto. unfold rejectedAt. now rewrite El, Es.
    + inversion H; subst e. exists [], l, rest. rewrite app_nil_r.
      repeat split; auto. unfold rejectedAt. now rewrite El.
Qed.

Lemma repeated_count (labels pre post : list string) (label : string) :
  labels = pre ++ label :: post -> In label pre ->
  2 <= count_occ string_dec labels label.
Proof.
  intros -> Hin. rewrite count_occ_app. cbn [count_occ].
  destruct (string_dec label label); [|congruence].
  apply (count_occ_In string_dec) in Hin. lia.
Qed.

(** C6, as the code has it. On a store with unique seat keys and pairwise
    distinct seat labels in the session, a Create-hold request that names a
    label twice is rejected and rolled back: no reservation is created and
    no seat changes.  Nothing is deduplicated: the answer is the one of the
    seat loop at the first label, in sorted order, that cannot be held,
    which is seat not found if the session has no such seat, seat not
    available with the seat's status if that is not [AVAILABLE], and seat
    not available with status [RESERVED] if the label repeats one the same
    transaction has just held.  When every requested seat is [AVAILABLE]
    it is the last of these, for a label the request names at least twice.
    Without the session the answer is session not found. *)
Theorem createReservation_repeated_label (ttl : Z) (now dbNow : Date)
    (dto : CreateReservationDto) (s : Store) :
  uniqueIds (map seat_id (seats s)) = true ->
  distinctLabels s (dto_sessionId dto) ->
  ~ NoDup (seatNumbers dto) ->
  match findSession s (dto_sessionId dto) with
  | None =>
    createReservation ttl now dbNow dto s
    = (s, inl (NotFoundException (SessionNotFound (dto_sessionId dto))))
  | Some session =>
    exists e,
      createReservation ttl now dbNow dto s = (s, inl e)
      /\ firstRejected s (session_id session) (sort (seatNumbers dto)) e
      /\ (allAvailable s (session_id session) (seatNumbers dto) ->
          exists label,
            e = BadRequestException (SeatNotAvailable label RESERVED)
            /\ 2 <= count_occ string_dec (seatNumbers dto) label)
  end.
Proof.
  intros Hu _ Hdup. apply uniqueIds_NoDup in Hu. unfold createReservation.
  destruct (findSession s (dto_sessionId dto)) as [session|]; [|reflexivity].
  assert (Hdup' : ~ NoDup (sort (seatNumbers dto))).
  { intros H. apply Hdup. eapply Permutation_NoDup; [apply sort_perm|exact H]. }
  destruct (@reserveSeats_repeated session (dto_userId dto)
              (now + ttl * 1000)%Z dbNow _ Hdup' [] s Hu) as [e He].
  rewrite He. exists e. split; [reflexivity|].
  destruct (reserveSeats_first_rejected s session (dto_userId dto)
              (now + ttl * 1000)%Z dbNow (sort (seatNumbers dto)) [] [] s e
              Hu (NoDup_nil _)) as [mid [label [post [E [A [B C]]]]]];
    [intros l []|reflexivity|exact He|].
  cbn [app] in A, B, C. split.
  - exists mid, label, post. auto.
  - intros Hall. unfold rejectedAt in C.
    assert (Hin : In label (seatNumbers dto)).
    { eapply Permutation_in; [apply sort_perm|]. rewrite E.
      apply in_or_app. right. now left. }
    destruct (Hall label Hin) as [seat [Hl Hst]]. rewrite Hl, Hst in C.
    cbn [SeatStatus_eqb] in C. destruct C as [Hpre ->].
    exists label. split; [reflexivity|].
    rewrite <- (proj1 (Permutation_count_occ string_dec _ _)
                      (sort_perm (seatNumbers dto)) label).
    exact (repeated_count _ _ _ _ E Hpre).
Qed.

Lemma createReservation_repeated_label_witness :
  createReservation 30 5000 5001
    (mkCreateReservationDto 1 ["A1"; "A2"; "A1"]%string "u1") demo
  = (demo, inl (BadRequestException (SeatNotAvailable "A1" RESERVED)))
  /\ firstRejected demo 1 (sort ["A1"; "A2"; "A1"]%string)
       (BadRequestException (SeatNotAvailable "A1" RESERVED))
  /\ 2 <= count_occ string_dec ["A1"; "A2"; "A1"]%string "A1"%string.
Proof.
  assert (H : exists e,
            createReservation 30 5000 5001
              (mkCreateReservationDto 1 ["A1"; "A2"; "A1"]%string "u1") demo
            = (demo, inl e)
            /\ firstRejected demo 1 (sort ["A1"; "A2"; "A1"]%string) e
            /\ (allAvailable demo 1 ["A1"; "A2"; "A1"]%string ->
                exists label,
                  e = BadRequestException (SeatNotAvailable label RESERVED)
                  /\ 2 <= count_occ string_dec ["A1"; "A2"; "A1"]%string
                                    label)).
  { apply (createReservation_repeated_label 30 5000 5001
             (mkCreateReservationDto 1 ["A1"; "A2"; "A1"]%string "u1") demo).
    - reflexivity.
    - unfold distinctLabels. simpl.
      repeat constructor; simpl; intuition discriminate.
    - intros H. inversion H as [|? ? Hin _]. apply Hin. simpl. auto. }
  destruct H as [e [H1 [H2 H3]]].
  destruct H3 as [label [He Hcount]].
  { intros l [<-|[<-|[<-|[]]]]; eexists; split; reflexivity. }
  subst e. vm_compute in H1. injection H1 as Hl. subst label.
  split; [reflexivity|]. split; [exact H2|exact Hcount].
Defined.

(** The request with [A1] twice on the small cinema.  The seat loop locks
    [A1] and moves it to [RESERVED] before anything is rejected; the second
    [A1] then meets that hold, and the answer is the one a request gets for
    a seat somebody else holds.  The transaction is rolled back. *)
Lemma createReservation_repeated_label_conflict :
  createReservation 30 5000 5001
    (mkCreateReservationDto 1 ["A1"; "A1"]%string "u1") demo
  = (demo, inl (BadRequestException (SeatNotAvailable "A1" RESERVED)))
  /\ createReservation 30 7000 7001
       (mkCreateReservationDto 1 ["A1"]%string "u2") held
     = (held, inl (BadRequestException (SeatNotAvailable "A1" RESERVED)))
  /\ exists rs w,
       reserveSeats s16 "u1" 35000 5001 ["A1"]%string [] demo = inr (rs, w)
       /\ findSeat w 1 = Some (mkSeat 1 "A1" "A" RESERVED 1).
Proof.
  split; [reflexivity|]. split; [reflexivity|].
  eexists. eexists. split; reflexivity.
Qed.
